(** * Temperature monitoring pipeline: Ingestor, Worker (rule evaluation) and
    Executor (event dispatch)

    A shallow embedding of [src/worker/worker.js], of the Event Executor
    (Component C), of the Telemetry Ingestor (Component A), of the cache and
    queue setup scripts, of the temperature functions of the simulator and of
    the parts of [src/shared/config.js] they read, followed by the theorems
    about them.

    Conventions of the embedding.
    - A JavaScript number is a [number]: NaN, the two infinities, or a finite
      double, written as the rational it is, in lowest terms.  Parsing and
      arithmetic round to the nearest double, ties to even, and overflow to
      an infinity ([Binary64.round]); comparisons are exact.  The sign of
      zero is not kept: nothing modelled here tells -0 from 0.
    - A JavaScript string is a [string] holding its UTF-8 encoding, which is
      how Redis, PostgreSQL and the HTTP body deliver it.
    - Alert types and action types are the strings of [config.alertTypes] and
      [config.actionTypes]; [===] on them is [String.eqb].
    - Redis is a finite map from keys to strings; [redis.get] of a missing key
      is [None] (JavaScript [null]).
    - An [async] function that touches the outside world is a computation in
      the monad [M W], which threads the world [W] and either returns or
      throws.  What a failed call leaves behind in the world is kept.
    - The Worker and the Executor keep a message body decoded: their queues
      hold the object handed to [JSON.stringify], whose text is not
      rendered, and a received body that [JSON.parse] rejects is [None].
      The queue of the Ingestor holds the JSON document itself, in which a
      number that is not finite reads [null].
    - [console.log] and [console.error] output is not modelled. *)

From Stdlib Require Import Ascii String QArith Qround Qpower.
From stdpp Require Import base strings list gmap.
From Stdlib Require Import Lia Lqa DecimalString.

Local Open Scope string_scope.
Local Open Scope list_scope.

(** ** JavaScript numbers *)

Inductive number : Type :=
| NaN
| NegInf
| Fin (q : Q)
| PosInf.

(** ** Rounding to a double

    A finite double is [m * 2 ^ p] with [|m| < 2 ^ 53] and [p >= -1074], below
    [2 ^ 1024] in magnitude.  [round] takes a rational to the nearest of them,
    to the one with the even [m] when two are equally near, and to an
    infinity when the result would reach [2 ^ 1024]. *)

Module Binary64.

(** The integer nearest to [x], the even one of two that are equally near. *)
Definition nearest (x : Q) : Z :=
  let f := Qfloor x in
  match (x - inject_Z f ?= 1 # 2)%Q with
  | Lt => f
  | Gt => (f + 1)%Z
  | Eq => if Z.even f then f else (f + 1)%Z
  end.

(** The binary exponent of a positive [x]: the [e] with
    [2 ^ e <= x < 2 ^ (e + 1)]. *)
Definition exponent (x : Q) : Z :=
  let e := (Z.log2 (Qnum x) - Z.log2 (Zpos (Qden x)))%Z in
  if Qle_bool (2 ^ e) x then e else (e - 1)%Z.

(** The exponent of the last bit kept for [x]: 52 below its binary
    exponent, and never below that of the subnormals. *)
Definition quantum (x : Q) : Z := Z.max (exponent x - 52) (-1074).

(** The multiple of the last bit nearest to a positive [x]. *)
Definition nearest_double (x : Q) : Q :=
  let p := quantum x in
  (inject_Z (nearest (x * 2 ^ (- p))) * 2 ^ p)%Q.

Definition round_pos (x : Q) : number :=
  let v := nearest_double x in
  if Qle_bool (2 ^ 1024) v then PosInf else Fin (Qred v).

Definition round (q : Q) : number :=
  match (q ?= 0)%Q with
  | Eq => Fin 0
  | Gt => round_pos q
  | Lt => match round_pos (- q) with
          | Fin r => Fin (- r)
          | _ => NegInf
          end
  end.

End Binary64.

Module Num.

(** [a > b] of JavaScript: false as soon as one side is NaN. *)
Definition gt (a b : number) : bool :=
  match a, b with
  | NaN, _ | _, NaN => false
  | PosInf, PosInf => false
  | PosInf, _ => true
  | _, PosInf => false
  | NegInf, _ => false
  | Fin _, NegInf => true
  | Fin x, Fin y => negb (Qle_bool x y)
  end.

(** [a <= b] of JavaScript: false as soon as one side is NaN. *)
Definition le (a b : number) : bool :=
  match a, b with
  | NaN, _ | _, NaN => false
  | _, PosInf => true
  | PosInf, _ => false
  | NegInf, _ => true
  | Fin _, NegInf => false
  | Fin x, Fin y => Qle_bool x y
  end.

(** [a - b] of JavaScript. *)
Definition sub (a b : number) : number :=
  match a, b with
  | NaN, _ | _, NaN => NaN
  | PosInf, PosInf => NaN
  | NegInf, NegInf => NaN
  | PosInf, _ => PosInf
  | NegInf, _ => NegInf
  | Fin _, PosInf => NegInf
  | Fin _, NegInf => PosInf
  | Fin x, Fin y => Binary64.round (x - y)
  end.

(** [a < b] of JavaScript. *)
Definition lt (a b : number) : bool := gt b a.

(** [a + b] of JavaScript. *)
Definition add (a b : number) : number :=
  match a, b with
  | NaN, _ | _, NaN => NaN
  | PosInf, NegInf => NaN
  | NegInf, PosInf => NaN
  | PosInf, _ => PosInf
  | NegInf, _ => NegInf
  | Fin _, PosInf => PosInf
  | Fin _, NegInf => NegInf
  | Fin x, Fin y => Binary64.round (x + y)
  end.

(** The sign of a number: 1, 0 (for zero and NaN) or -1. *)
Definition sgn (a : number) : Z :=
  match a with
  | NaN => 0
  | NegInf => -1
  | Fin x => Z.sgn (Qnum x)
  | PosInf => 1
  end.

(** [a * b] of JavaScript. *)
Definition mul (a b : number) : number :=
  match a, b with
  | NaN, _ | _, NaN => NaN
  | Fin x, Fin y => Binary64.round (x * y)
  | _, _ =>
      match (sgn a * sgn b)%Z with
      | Z0 => NaN
      | Zpos _ => PosInf
      | Zneg _ => NegInf
      end
  end.

Definition of_Z (z : Z) : number := Fin (inject_Z z).

(** A decimal literal of the source: the double nearest to it. *)
Definition literal (q : Q) : number := Binary64.round q.

End Num.

(** ** [parseFloat]

    The built-in follows ECMAScript: leading white space and line
    terminators are dropped, then the longest prefix that is a
    [StrDecimalLiteral] is read, and the decimal it denotes is rounded to a
    double; when there is no such prefix the result is NaN. *)

Module ParseFloat.

(** White space and line terminators that take one byte: TAB, LF, VT, FF,
    CR and SP. *)
Definition is_space1 (c : ascii) : bool :=
  let n := nat_of_ascii c in
  (Nat.leb 9 n && Nat.leb n 13) || Nat.eqb n 32.

(** Two bytes: U+00A0. *)
Definition is_space2 (c1 c2 : ascii) : bool :=
  Nat.eqb (nat_of_ascii c1) 194 && Nat.eqb (nat_of_ascii c2) 160.

(** Three bytes: U+1680, U+2000 to U+200A, U+2028, U+2029, U+202F, U+205F,
    U+3000 and U+FEFF. *)
Definition is_space3 (c1 c2 c3 : ascii) : bool :=
  let b1 := nat_of_ascii c1 in
  let b2 := nat_of_ascii c2 in
  let b3 := nat_of_ascii c3 in
  (Nat.eqb b1 225 && Nat.eqb b2 154 && Nat.eqb b3 128)
  || (Nat.eqb b1 226 && Nat.eqb b2 128
      && ((Nat.leb 128 b3 && Nat.leb b3 138)
          || Nat.eqb b3 168 || Nat.eqb b3 169 || Nat.eqb b3 175))
  || (Nat.eqb b1 226 && Nat.eqb b2 129 && Nat.eqb b3 159)
  || (Nat.eqb b1 227 && Nat.eqb b2 128 && Nat.eqb b3 128)
  || (Nat.eqb b1 239 && Nat.eqb b2 187 && Nat.eqb b3 191).

Fixpoint trim_start (s : string) : string :=
  match s with
  | String c1 r1 =>
      if is_space1 c1 then trim_start r1
      else
        match r1 with
        | String c2 r2 =>
            if is_space2 c1 c2 then trim_start r2
            else
              match r2 with
              | String c3 r3 => if is_space3 c1 c2 c3 then trim_start r3 else s
              | EmptyString => s
              end
        | EmptyString => s
        end
  | EmptyString => s
  end.

Definition digit_of (c : ascii) : option Z :=
  let n := nat_of_ascii c in
  if Nat.leb 48 n && Nat.leb n 57 then Some (Z.of_nat (n - 48)) else None.

(** The longest run of decimal digits at the head of [s]: their value read
    after the digits already in [acc], how many there are, and the rest. *)
Fixpoint digits (s : string) (acc : Z) (count : nat) : Z * nat * string :=
  match s with
  | String c rest =>
      match digit_of c with
      | Some d => digits rest (10 * acc + d)%Z (S count)
      | None => (acc, count, s)
      end
  | EmptyString => (acc, count, s)
  end.

(** An [ExponentPart] at the head of [s], when there is a complete one. *)
Definition exponent (s : string) : Z :=
  match s with
  | String c rest =>
      if Ascii.eqb c "e" || Ascii.eqb c "E" then
        match rest with
        | String sg rest' =>
            if Ascii.eqb sg "-" then
              let '(e, n, _) := digits rest' 0%Z 0%nat in
              if Nat.eqb n 0 then 0%Z else (- e)%Z
            else if Ascii.eqb sg "+" then
              let '(e, n, _) := digits rest' 0%Z 0%nat in
              if Nat.eqb n 0 then 0%Z else e
            else
              let '(e, _, _) := digits rest 0%Z 0%nat in e
        | EmptyString => 0%Z
        end
      else 0%Z
  | EmptyString => 0%Z
  end.

(** [m * 10 ^ e] as a rational. *)
Definition scale (m e : Z) : Q :=
  match e with
  | Zneg p => Qmake m (10 ^ p)%positive
  | _ => inject_Z (m * 10 ^ e)
  end.

Definition starts_with (p s : string) : bool :=
  String.eqb (String.substring 0 (String.length p) s) p.

(** [StrUnsignedDecimalLiteral]: [None] when no prefix of [s] is one,
    [Some None] for [Infinity], [Some (Some q)] for a decimal. *)
Definition unsigned (s : string) : option (option Q) :=
  if starts_with "Infinity" s then Some None
  else
    let '(ip, ni, r1) := digits s 0%Z 0%nat in
    match r1 with
    | String "." r2 =>
        let '(m, nf, r3) := digits r2 ip 0%nat in
        if Nat.eqb ni 0 && Nat.eqb nf 0 then None
        else Some (Some (scale m (exponent r3 - Z.of_nat nf)))
    | _ =>
        if Nat.eqb ni 0 then None
        else Some (Some (scale ip (exponent r1)))
    end.

Definition of_unsigned (negative : bool) (r : option (option Q)) : number :=
  match r with
  | None => NaN
  | Some None => if negative then NegInf else PosInf
  | Some (Some q) => Binary64.round (if negative then - q else q)
  end.

Definition parse (s : string) : number :=
  match trim_start s with
  | String "-" rest => of_unsigned true (unsigned rest)
  | String "+" rest => of_unsigned false (unsigned rest)
  | t => of_unsigned false (unsigned t)
  end.

End ParseFloat.

(** A value handed to [parseFloat] in the sources is either a string (from
    Redis or from a PostgreSQL DECIMAL column) or a number (a default of
    [config.js]).  A number is first converted to a string and read back,
    which gives the number itself. *)
Inductive value : Type :=
| VStr (s : string)
| VNum (n : number).

Definition parseFloat (v : value) : number :=
  match v with
  | VStr s => ParseFloat.parse s
  | VNum n => n
  end.

(** [a || b] where [a] is what [redis.get] returned ([null] or a string) and
    [b] a number: [null] and the empty string are falsy. *)
Definition or_default (a : option string) (b : number) : value :=
  match a with
  | None => VNum b
  | Some s => if String.eqb s "" then VNum b else VStr s
  end.

(** ** [src/shared/config.js] *)

Record Thresholds : Type := mkThresholds {
  warning : number;
  critical : number;
  target : number
}.

Module config.

Module thresholds.
Definition default : Thresholds :=
  {| warning := Num.of_Z (-10);
     critical := Num.of_Z (-5);
     target := Num.of_Z (-18) |}.
End thresholds.

Module alertTypes.
Definition NORMAL : string := "NORMAL".
Definition WARNING : string := "WARNING".
Definition CRITICAL : string := "CRITICAL".
Definition TREND_ANOMALY : string := "TREND_ANOMALY".
End alertTypes.

Module actionTypes.
Definition LOG : string := "LOG".
Definition NOTIFY_WARNING : string := "NOTIFY_WARNING".
Definition NOTIFY_CRITICAL : string := "NOTIFY_CRITICAL".
Definition ADJUST_TEMPERATURE : string := "ADJUST_TEMPERATURE".
Definition TREND_ALERT : string := "TREND_ALERT".
End actionTypes.

Module worker.
Definition trendMaxReadings : nat := 5.
Definition trendMinReadings : nat := 3.
Definition trendMinRising : nat := 2.
Definition trendMinIncrease : number := Num.of_Z 2.
End worker.

End config.

(** ** Pure rule evaluation of the Worker *)

Definition determineAlertType (temp : number) (thresholds : Thresholds) : string :=
  if Num.gt temp (critical thresholds) then config.alertTypes.CRITICAL
  else if Num.gt temp (warning thresholds) then config.alertTypes.WARNING
  else config.alertTypes.NORMAL.

Definition determineActions (alertType : string) : list string :=
  if String.eqb alertType config.alertTypes.CRITICAL then
    [ config.actionTypes.LOG;
      config.actionTypes.ADJUST_TEMPERATURE;
      config.actionTypes.NOTIFY_CRITICAL ]
  else if String.eqb alertType config.alertTypes.WARNING then
    [ config.actionTypes.LOG; config.actionTypes.NOTIFY_WARNING ]
  else [ config.actionTypes.LOG ].

(** ** Computations that may throw

    [M W A] is an [async] function body: it runs in a world [W], changes it,
    and either returns an [A] or throws.  [await] is [bind]. *)

Inductive error : Type :=
| TypeError
| SyntaxError
| RedisError
| DbError
| SqsError
| FetchError.

Inductive outcome (A : Type) : Type :=
| Returned (a : A)
| Thrown (e : error).

Arguments Returned {A} a.
Arguments Thrown {A} e.

Definition M (W A : Type) : Type := W -> outcome A * W.

Definition ret {W A} (a : A) : M W A := fun w => (Returned a, w).

Definition throw {W A} (e : error) : M W A := fun w => (Thrown e, w).

Definition bind {W A B} (c : M W A) (k : A -> M W B) : M W B :=
  fun w =>
    match c w with
    | (Returned a, w') => k a w'
    | (Thrown e, w') => (Thrown e, w')
    end.

(** [try { c } catch (err) { h err }] *)
Definition try_catch {W A} (c : M W A) (h : error -> M W A) : M W A :=
  fun w =>
    match c w with
    | (Returned a, w') => (Returned a, w')
    | (Thrown e, w') => h e w'
    end.

Definition gets {W A} (f : W -> A) : M W A := fun w => (Returned (f w), w).

Definition modify {W} (f : W -> W) : M W unit := fun w => (Returned tt, f w).

(** [if (b) { c }] *)
Definition when {W} (b : bool) (c : M W unit) : M W unit :=
  if b then c else ret tt.

Declare Scope js_scope.
Delimit Scope js_scope with js.
Notation "x <- c ;; k" := (bind c (fun x => k))
  (at level 100, c at next level, right associativity) : js_scope.
Notation "c ;;; k" := (bind c (fun _ => k))
  (at level 100, right associativity) : js_scope.
Local Open Scope js_scope.

Definition returned {W A} (r : outcome A * W) : bool :=
  match r with
  | (Returned _, _) => true
  | (Thrown _, _) => false
  end.

(** ** Events exchanged between Worker and Executor *)

Record Telemetry : Type := mkTelemetry {
  ship_id : string;
  sensor_id : option string;
  temp : number;
  timestamp : string
}.

(** The two template literals that build an alert message.  Their text is not
    rendered (it needs the number-to-string conversions of JavaScript); the
    values that go into it are kept. *)
Inductive Message : Type :=
| TrendMessage (increase : number) (window : Z)
    (* `Temperature rising: +${increase.toFixed(1)} in ${window} min` *)
| ThresholdMessage (alert_type ship sensor : string) (t threshold : number).
    (* `${alert_type} | ${ship_id}_${sensor_id} | ${temp} > ${threshold} degrees threshold` *)

Record Evaluation : Type := mkEvaluation {
  alert_type : string;
  thresholds : option Thresholds;
  actions : list string;
  message : option Message
}.

Record Event : Type := mkEvent {
  event_type : string;
  telemetry : Telemetry;
  evaluation : Evaluation;
  processed_at : string
}.

(** ** The queue consumer loop shared by Worker and Executor

    [startWorker] and [startExecutor] run the same loop body on their own
    queue; it is written once here, over the world [W] of the component, the
    payload carried by a message, and the per-item function [process]
    ([processTelemetry] or [processEvent]).

    The body of a message is kept decoded: [Body = None] is a body on which
    [JSON.parse] throws. *)

Record SqsMessage (P : Type) : Type := mkSqsMessage {
  MessageId : string;
  ReceiptHandle : string;
  Body : option P
}.

Arguments mkSqsMessage {P}.
Arguments MessageId {P}.
Arguments ReceiptHandle {P}.
Arguments Body {P}.

(** An entry of [DeleteMessageBatchCommand]. *)
Record Entry : Type := mkEntry {
  Id : string;
  EntryReceiptHandle : string
}.

Definition entry_of {P} (msg : SqsMessage P) : Entry :=
  {| Id := MessageId msg; EntryReceiptHandle := ReceiptHandle msg |}.

Definition JSON_parse {W P} (body : option P) : M W P :=
  match body with
  | Some p => ret p
  | None => throw SyntaxError
  end.

Section Consumer.

Context {W P : Type}.

(** [processTelemetry] / [processEvent] *)
Variable process : P -> M W unit.
(** [messageCount++] / [eventCount++] *)
Variable count : W -> W.
(** [sqsClient.send(new DeleteMessageBatchCommand({ Entries }))] *)
Variable deleteMessageBatch : list Entry -> M W unit.

(** The [try] block around one message. *)
Definition handle (msg : SqsMessage P) : M W unit :=
  p <- JSON_parse (Body msg) ;;
  process p.

(** [for (const msg of response.Messages) { ... }], with [processed] the
    array built so far; the result is the array after the loop. *)
Fixpoint forEachMessage (msgs : list (SqsMessage P)) (processed : list Entry)
  : M W (list Entry) :=
  match msgs with
  | [] => ret processed
  | msg :: rest =>
      modify count ;;;
      ok <- try_catch (handle msg ;;; ret true) (fun _ => ret false) ;;
      forEachMessage rest (if ok : bool then processed ++ [entry_of msg] else processed)
  end.

(** What follows a successful receive: [response.Messages] is absent
    ([None]) or an array. *)
Definition consumeBatch (Messages : option (list (SqsMessage P))) : M W unit :=
  match Messages with
  | Some ((_ :: _) as msgs) =>
      processed <- forEachMessage msgs [] ;;
      when (Nat.ltb 0 (length processed)) (deleteMessageBatch processed)
  | _ => ret tt
  end.

(** One turn of [while (true)]: [received] is what the receive call gave
    (a response, or an error); an error of the receive or of the batch
    delete is caught and the turn ends after the retry delay. *)
Definition loopBody (received : outcome (option (list (SqsMessage P)))) : M W unit :=
  try_catch
    (match received with
     | Returned Messages => consumeBatch Messages
     | Thrown e => throw e
     end)
    (fun _ => ret tt).

End Consumer.

(** ** Component B: the Worker ([src/worker/worker.js]) *)

Module Worker.

(** What the Worker talks to.
    - [redis]: the threshold cache.
    - [trend_rows ship]: the [temperature] column (DECIMAL, delivered as
      text) of the readings of [ship] inside the trend window, newest
      first: the rows the SELECT of [checkTemperatureTrend] ranges over
      before its LIMIT.
    - [events_queue]: the bodies sent to EventsQueue, oldest first.
    - [deleted]: the batches given to DeleteMessageBatch, oldest first.
    - [clock]: what [new Date().toISOString()] reads.
    - [trendWindowMinutes]: [config.worker.trendWindowMinutes], read from
      the environment.
    - [io_calls], [io_fails]: the number of calls made so far to Redis,
      PostgreSQL and SQS, and which of them (by rank) fail. *)
Record world : Type := mkWorld {
  redis : gmap string string;
  trend_rows : string -> list string;
  events_queue : list Event;
  deleted : list (list Entry);
  messageCount : nat;
  clock : string;
  trendWindowMinutes : Z;
  io_calls : nat;
  io_fails : nat -> bool
}.

Definition with_events_queue (q : list Event) (w : world) : world :=
  mkWorld (redis w) (trend_rows w) q (deleted w) (messageCount w) (clock w)
          (trendWindowMinutes w) (io_calls w) (io_fails w).

Definition with_deleted (d : list (list Entry)) (w : world) : world :=
  mkWorld (redis w) (trend_rows w) (events_queue w) d (messageCount w) (clock w)
          (trendWindowMinutes w) (io_calls w) (io_fails w).

Definition with_messageCount (n : nat) (w : world) : world :=
  mkWorld (redis w) (trend_rows w) (events_queue w) (deleted w) n (clock w)
          (trendWindowMinutes w) (io_calls w) (io_fails w).

Definition with_io_calls (n : nat) (w : world) : world :=
  mkWorld (redis w) (trend_rows w) (events_queue w) (deleted w) (messageCount w)
          (clock w) (trendWindowMinutes w) n (io_fails w).

(** A call to an external service: it takes the next rank, and either
    fails with [e] or performs [op]. *)
Definition io {A} (e : error) (op : world -> A * world) : M world A :=
  fun w =>
    let k := io_calls w in
    let w1 := with_io_calls (S k) w in
    if io_fails w k then (Thrown e, w1)
    else let (a, w2) := op w1 in (Returned a, w2).

Definition redis_get (key : string) : M world (option string) :=
  io RedisError (fun w => (redis w !! key, w)).

Definition sqs_send_event (body : Event) : M world unit :=
  io SqsError (fun w => (tt, with_events_queue (events_queue w ++ [body]) w)).

Definition deleteMessageBatch (entries : list Entry) : M world unit :=
  io SqsError (fun w => (tt, with_deleted (deleted w ++ [entries]) w)).

(** The SELECT of [checkTemperatureTrend], with its
    [LIMIT ${config.worker.trendMaxReadings}]. *)
Definition db_query_trend (shipId : string) : M world (list string) :=
  io DbError (fun w => (take config.worker.trendMaxReadings (trend_rows w shipId), w)).

Definition date_now : M world string := gets clock.

Definition getThresholds (shipId : string) : M world Thresholds :=
  warning' <- redis_get ("threshold:" +:+ shipId +:+ ":warning") ;;
  critical' <- redis_get ("threshold:" +:+ shipId +:+ ":critical") ;;
  target' <- redis_get ("threshold:" +:+ shipId +:+ ":target") ;;
  ret {| warning := parseFloat (or_default warning' (warning config.thresholds.default));
         critical := parseFloat (or_default critical' (critical config.thresholds.default));
         target := parseFloat (or_default target' (target config.thresholds.default)) |}.

Definition publishEvent (event : Event) : M world unit :=
  sqs_send_event event.

(** [temps[i]] where a number is expected: out of range gives
    [undefined], which is NaN in arithmetic and comparisons. *)
Definition at_index (temps : list number) (i : nat) : number :=
  default NaN (temps !! i).

(** The [for] loop counting rising steps: [todo] turns are left, [i] is the
    loop variable and [rising] the counter. *)
Fixpoint risingLoop (temps : list number) (todo i rising : nat) : nat :=
  match todo with
  | O => rising
  | S todo' =>
      let newer := at_index temps i in
      let older := at_index temps (i + 1) in
      risingLoop temps todo' (S i) (if Num.gt newer older then S rising else rising)
  end.

Definition trendEvent (shipId : string) (newest increase : number)
           (window : Z) (now1 now2 : string) : Event :=
  {| event_type := "TREND_ANOMALY";
     telemetry := {| ship_id := shipId; sensor_id := None;
                     temp := newest; timestamp := now1 |};
     evaluation := {| alert_type := config.alertTypes.TREND_ANOMALY;
                      thresholds := None;
                      actions := [config.actionTypes.TREND_ALERT];
                      message := Some (TrendMessage increase window) |};
     processed_at := now2 |}.

(** What [checkTemperatureTrend] does between its query and its publish:
    from the rows of the query, whether a trend event is due, and then the
    newest temperature and the increase it carries. *)
Definition detectTrend (rows : list string) : option (number * number) :=
  if Nat.ltb (length rows) config.worker.trendMinReadings then None
  else
    let temps := map (fun r => parseFloat (VStr r)) rows in
    let rising := risingLoop temps (length temps - 1) 0 0 in
    if Nat.leb config.worker.trendMinRising rising then
      let increase := Num.sub (at_index temps 0) (at_index temps (length temps - 1)) in
      if Num.gt increase config.worker.trendMinIncrease
      then Some (at_index temps 0, increase)
      else None
    else None.

Definition checkTemperatureTrend (shipId : string) : M world unit :=
  window <- gets trendWindowMinutes ;;
  rows <- db_query_trend shipId ;;
  match detectTrend rows with
  | Some (newest, increase) =>
      now1 <- date_now ;;
      now2 <- date_now ;;
      publishEvent (trendEvent shipId newest increase window now1 now2)
  | None => ret tt
  end.

Definition processTelemetry (telemetry : Telemetry) : M world unit :=
  thresholds <- getThresholds (ship_id telemetry) ;;
  let alertType := determineAlertType (temp telemetry) thresholds in
  let actions := determineActions alertType in
  now <- date_now ;;
  let event :=
    {| event_type := "TELEMETRY_PROCESSED";
       telemetry := telemetry;
       evaluation := {| alert_type := alertType;
                        thresholds := Some thresholds;
                        actions := actions;
                        message := None |};
       processed_at := now |} in
  publishEvent event ;;;
  checkTemperatureTrend (ship_id telemetry).

Definition countMessage (w : world) : world :=
  with_messageCount (S (messageCount w)) w.

(** The body of [while (true)] in [startWorker]. *)
Definition startWorker_turn
  : outcome (option (list (SqsMessage Telemetry))) -> M world unit :=
  loopBody processTelemetry countMessage deleteMessageBatch.

End Worker.

(** ** Component C: the Event Executor *)

Module Executor.

(** A row of [telemetry_readings] as [storeTelemetry] inserts it. *)
Record TelemetryRow : Type := mkTelemetryRow {
  tr_ship_id : string;
  tr_sensor_id : option string;
  tr_temperature : number;
  tr_timestamp : string;
  tr_created_at : string
}.

(** A row of [alerts] as [storeAlert] inserts it; a [threshold] of [None]
    would be SQL NULL. *)
Record AlertRow : Type := mkAlertRow {
  al_ship_id : string;
  al_temperature : number;
  al_threshold : option number;
  al_alert_type : string;
  al_action_taken : string;
  al_message : Message;
  al_created_at : string
}.

(** A row of [temperature_actions] as [storeTemperatureAction] inserts it. *)
Record ActionRow : Type := mkActionRow {
  ac_ship_id : string;
  ac_action_type : string;
  ac_current_temp : number;
  ac_target_temp : number;
  ac_status : string;
  ac_created_at : string
}.

(** A POST handed to [fetch] by [sendNotification]. *)
Record WebhookPost : Type := mkWebhookPost {
  wp_url : string;
  wp_alert_type : string;
  wp_ship_id : string;
  wp_temperature : number;
  wp_timestamp : string;
  wp_thresholds : option Thresholds
}.

(** What the Executor talks to.
    - [telemetry_readings], [alerts], [temperature_actions]: the rows
      inserted into the three tables, oldest first.
    - [webhook_enabled], [webhook_url]: [config.notifications.webhook],
      read from the environment ([webhook_url = None] when unset).
    - [webhook_posts]: every POST attempted, delivered or not.
    - [deleted]: the batches given to DeleteMessageBatch.
    - [db_calls], [db_fails]: the number of queries issued so far and
      which of them (by rank) fail; [fetch_fails] tells the same of the
      POSTs, ranked by [length webhook_posts]; [sqs_calls], [sqs_fails] of
      the SQS calls. *)
Record world : Type := mkWorld {
  telemetry_readings : list TelemetryRow;
  alerts : list AlertRow;
  temperature_actions : list ActionRow;
  webhook_enabled : bool;
  webhook_url : option string;
  webhook_posts : list WebhookPost;
  deleted : list (list Entry);
  eventCount : nat;
  clock : string;
  db_calls : nat;
  db_fails : nat -> bool;
  fetch_fails : nat -> bool;
  sqs_calls : nat;
  sqs_fails : nat -> bool
}.

Definition with_telemetry_readings (x : list TelemetryRow) (w : world) : world :=
  mkWorld x (alerts w) (temperature_actions w) (webhook_enabled w) (webhook_url w)
          (webhook_posts w) (deleted w) (eventCount w) (clock w) (db_calls w)
          (db_fails w) (fetch_fails w) (sqs_calls w) (sqs_fails w).

Definition with_alerts (x : list AlertRow) (w : world) : world :=
  mkWorld (telemetry_readings w) x (temperature_actions w) (webhook_enabled w)
          (webhook_url w) (webhook_posts w) (deleted w) (eventCount w) (clock w)
          (db_calls w) (db_fails w) (fetch_fails w) (sqs_calls w) (sqs_fails w).

Definition with_temperature_actions (x : list ActionRow) (w : world) : world :=
  mkWorld (telemetry_readings w) (alerts w) x (webhook_enabled w) (webhook_url w)
          (webhook_posts w) (deleted w) (eventCount w) (clock w) (db_calls w)
          (db_fails w) (fetch_fails w) (sqs_calls w) (sqs_fails w).

Definition with_webhook_posts (x : list WebhookPost) (w : world) : world :=
  mkWorld (telemetry_readings w) (alerts w) (temperature_actions w)
          (webhook_enabled w) (webhook_url w) x (deleted w) (eventCount w) (clock w)
          (db_calls w) (db_fails w) (fetch_fails w) (sqs_calls w) (sqs_fails w).

Definition with_deleted (x : list (list Entry)) (w : world) : world :=
  mkWorld (telemetry_readings w) (alerts w) (temperature_actions w)
          (webhook_enabled w) (webhook_url w) (webhook_posts w) x (eventCount w)
          (clock w) (db_calls w) (db_fails w) (fetch_fails w) (sqs_calls w)
          (sqs_fails w).

Definition with_eventCount (x : nat) (w : world) : world :=
  mkWorld (telemetry_readings w) (alerts w) (temperature_actions w)
          (webhook_enabled w) (webhook_url w) (webhook_posts w) (deleted w) x
          (clock w) (db_calls w) (db_fails w) (fetch_fails w) (sqs_calls w)
          (sqs_fails w).

Definition with_db_calls (x : nat) (w : world) : world :=
  mkWorld (telemetry_readings w) (alerts w) (temperature_actions w)
          (webhook_enabled w) (webhook_url w) (webhook_posts w) (deleted w)
          (eventCount w) (clock w) x (db_fails w) (fetch_fails w) (sqs_calls w)
          (sqs_fails w).

Definition with_sqs_calls (x : nat) (w : world) : world :=
  mkWorld (telemetry_readings w) (alerts w) (temperature_actions w)
          (webhook_enabled w) (webhook_url w) (webhook_posts w) (deleted w)
          (eventCount w) (clock w) (db_calls w) (db_fails w) (fetch_fails w) x
          (sqs_fails w).

(** [db.query(INSERT ...)]: the query takes the next rank; when it fails
    nothing is inserted. *)
Definition db_query (insert : world -> world) : M world unit :=
  fun w =>
    let k := db_calls w in
    let w1 := with_db_calls (S k) w in
    if db_fails w k then (Thrown DbError, w1) else (Returned tt, insert w1).

(** [fetch(url, { method: "POST", ... })]: the attempt is recorded, then
    it is delivered or rejects. *)
Definition fetch (post : WebhookPost) : M world unit :=
  fun w =>
    let k := length (webhook_posts w) in
    let w1 := with_webhook_posts (webhook_posts w ++ [post]) w in
    if fetch_fails w k then (Thrown FetchError, w1) else (Returned tt, w1).

Definition deleteMessageBatch (entries : list Entry) : M world unit :=
  fun w =>
    let k := sqs_calls w in
    let w1 := with_sqs_calls (S k) w in
    if sqs_fails w k then (Thrown SqsError, w1)
    else (Returned tt, with_deleted (deleted w1 ++ [entries]) w1).

Definition date_now : M world string := gets clock.

(** [evaluation.thresholds.<field>]: a TypeError when the event carries no
    thresholds. *)
Definition thresholds_field (f : Thresholds -> number) (evaluation : Evaluation)
  : M world number :=
  match thresholds evaluation with
  | Some t => ret (f t)
  | None => throw TypeError
  end.

Definition storeTelemetry (telemetry : Telemetry) : M world unit :=
  now <- date_now ;;
  let row := {| tr_ship_id := ship_id telemetry;
                tr_sensor_id := sensor_id telemetry;
                tr_temperature := temp telemetry;
                tr_timestamp := timestamp telemetry;
                tr_created_at := now |} in
  db_query (fun w => with_telemetry_readings (telemetry_readings w ++ [row]) w).

Definition storeAlert (telemetry : Telemetry) (evaluation : Evaluation)
           (action : string) : M world unit :=
  threshold <-
    (if String.eqb (alert_type evaluation) config.alertTypes.CRITICAL
     then thresholds_field critical evaluation
     else if String.eqb (alert_type evaluation) config.alertTypes.WARNING
     then thresholds_field warning evaluation
     else ret (Num.of_Z 0)) ;;
  let message' :=
    match message evaluation with
    | Some m => m
    | None =>
        ThresholdMessage (alert_type evaluation) (ship_id telemetry)
          (default "undefined" (sensor_id telemetry)) (temp telemetry) threshold
    end in
  now <- date_now ;;
  let row := {| al_ship_id := ship_id telemetry;
                al_temperature := temp telemetry;
                al_threshold := Some threshold;
                al_alert_type := alert_type evaluation;
                al_action_taken := action;
                al_message := message';
                al_created_at := now |} in
  db_query (fun w => with_alerts (alerts w ++ [row]) w).

Definition storeTemperatureAction (telemetry : Telemetry) (targetTemp : number)
  : M world unit :=
  now <- date_now ;;
  let row := {| ac_ship_id := ship_id telemetry;
                ac_action_type := config.actionTypes.ADJUST_TEMPERATURE;
                ac_current_temp := temp telemetry;
                ac_target_temp := targetTemp;
                ac_status := "PENDING";
                ac_created_at := now |} in
  db_query (fun w => with_temperature_actions (temperature_actions w ++ [row]) w).

(** [!config.notifications.webhook.url]: unset and empty are falsy. *)
Definition url_missing (url : option string) : bool :=
  match url with
  | None => true
  | Some u => String.eqb u ""
  end.

Definition sendNotification (telemetry : Telemetry) (evaluation : Evaluation)
  : M world unit :=
  enabled <- gets webhook_enabled ;;
  url <- gets webhook_url ;;
  if negb enabled || url_missing url then ret tt
  else
    try_catch
      (fetch {| wp_url := default "" url;
                wp_alert_type := alert_type evaluation;
                wp_ship_id := ship_id telemetry;
                wp_temperature := temp telemetry;
                wp_timestamp := timestamp telemetry;
                wp_thresholds := thresholds evaluation |})
      (fun _ => ret tt).

(** The body of [for (const action of evaluation.actions)]. *)
Definition dispatch (telemetry : Telemetry) (evaluation : Evaluation)
           (action : string) : M world unit :=
  when (String.eqb action config.actionTypes.LOG)
    (storeTelemetry telemetry) ;;;
  when (String.eqb action config.actionTypes.NOTIFY_WARNING)
    (storeAlert telemetry evaluation action ;;;
     sendNotification telemetry evaluation) ;;;
  when (String.eqb action config.actionTypes.NOTIFY_CRITICAL)
    (storeAlert telemetry evaluation action ;;;
     sendNotification telemetry evaluation) ;;;
  when (String.eqb action config.actionTypes.ADJUST_TEMPERATURE)
    (storeAlert telemetry evaluation action ;;;
     targetTemp <- thresholds_field target evaluation ;;
     storeTemperatureAction telemetry targetTemp) ;;;
  when (String.eqb action config.actionTypes.TREND_ALERT)
    (storeAlert telemetry evaluation action).

Fixpoint forEachAction (telemetry : Telemetry) (evaluation : Evaluation)
         (todo : list string) : M world unit :=
  match todo with
  | [] => ret tt
  | action :: rest =>
      dispatch telemetry evaluation action ;;;
      forEachAction telemetry evaluation rest
  end.

Definition processEvent (event : Event) : M world unit :=
  forEachAction (telemetry event) (evaluation event) (actions (evaluation event)).

Definition countEvent (w : world) : world :=
  with_eventCount (S (eventCount w)) w.

(** The body of [while (true)] in [startExecutor]. *)
Definition startExecutor_turn
  : outcome (option (list (SqsMessage Event))) -> M world unit :=
  loopBody processEvent countEvent deleteMessageBatch.

End Executor.

(** ** Vocabulary of the statements *)

(** How one threshold component is resolved from what Redis holds under its
    key. *)
Definition resolves (stored : option string) (dflt r : number) : Prop :=
  (stored = None -> r = dflt)
  /\ (stored = Some "" -> r = dflt)
  /\ (forall s, stored = Some s -> s <> "" -> r = ParseFloat.parse s).

(** The Redis key of a threshold component of a ship. *)
Definition key (shipId component : string) : string :=
  "threshold:" +:+ shipId +:+ ":" +:+ component.

(** A Worker world with the given cache and history, nothing sent yet and no
    failing call. *)
Definition quiet_worker (cache : gmap string string)
           (history : string -> list string) : Worker.world :=
  Worker.mkWorld cache history [] [] 0 "2026-01-01T00:00:00.000Z" 5 0 (fun _ => false).

(** A cache that holds an empty string as the warning threshold of ship_1. *)
Definition cache_empty_warning : gmap string string :=
  <[ "threshold:ship_1:warning" := "" ]> (<[ "threshold:ship_1:critical" := "-4" ]> ∅).

(** A cache that holds only the critical threshold of ship_1. *)
Definition cache_critical_only : gmap string string :=
  <[ "threshold:ship_1:critical" := "-4.5" ]> ∅.

(** The rising steps of a list of temperatures, newest first: the adjacent
    pairs (newer, older) with newer > older. *)
Fixpoint risingSteps (temps : list number) : nat :=
  match temps with
  | newer :: rest =>
      match rest with
      | older :: _ => (if Num.gt newer older then 1 else 0) + risingSteps rest
      | [] => 0
      end
  | [] => 0
  end.

Definition newest (temps : list number) : number := default NaN (head temps).

Definition oldest (temps : list number) : number := default NaN (last temps).

(** The condition under which a trend is reported. *)
Definition trendCondition (temps : list number) : Prop :=
  config.worker.trendMinReadings <= length temps
  /\ config.worker.trendMinRising <= risingSteps temps
  /\ Num.gt (Num.sub (newest temps) (oldest temps)) config.worker.trendMinIncrease = true.

(** The temperatures read from the rows of the trend query. *)
Definition temperatures (rows : list string) : list number :=
  map (fun r => parseFloat (VStr r)) rows.

(** A TREND_ANOMALY event for [shipId] carrying the temperature [t]. *)
Definition is_trend_event (shipId : string) (t : number) (e : Event) : Prop :=
  event_type e = "TREND_ANOMALY"
  /\ alert_type (evaluation e) = config.alertTypes.TREND_ANOMALY
  /\ actions (evaluation e) = [config.actionTypes.TREND_ALERT]
  /\ ship_id (telemetry e) = shipId
  /\ temp (telemetry e) = t.

(** The history of the trend example: ship_1 has the four readings -3, -4,
    -6, -9 (newest first) inside the window. *)
Definition history_rising (shipId : string) : list string :=
  if String.eqb shipId "ship_1" then ["-3.00"; "-4.00"; "-6.00"; "-9.00"] else [].

(** The history of a ship whose temperature rose by exactly two degrees over
    three readings, as the DECIMAL(5,2) column delivers them. *)
Definition rows_two_apart : list string := ["-15.94"; "-16.94"; "-17.94"].

(** The thresholds [getThresholds] resolves for a ship from a cache. *)
Definition cachedThresholds (w : Worker.world) (shipId : string) : Thresholds :=
  {| warning := parseFloat (or_default (Worker.redis w !! key shipId "warning")
                                       (warning config.thresholds.default));
     critical := parseFloat (or_default (Worker.redis w !! key shipId "critical")
                                        (critical config.thresholds.default));
     target := parseFloat (or_default (Worker.redis w !! key shipId "target")
                                      (target config.thresholds.default)) |}.

(** The TELEMETRY_PROCESSED event the Worker builds for a reading. *)
Definition processedEvent (reading : Telemetry) (t : Thresholds) (now : string) : Event :=
  {| event_type := "TELEMETRY_PROCESSED";
     telemetry := reading;
     evaluation := {| alert_type := determineAlertType (temp reading) t;
                      thresholds := Some t;
                      actions := determineActions (determineAlertType (temp reading) t);
                      message := None |};
     processed_at := now |}.

(** An Executor world with empty tables, the webhook configured and no
    failing call. *)
Definition quiet_executor : Executor.world :=
  Executor.mkWorld [] [] [] true (Some "http://hooks.example/alerts") [] [] 0
                   "2026-01-01T00:00:05.000Z" 0 (fun _ => false) (fun _ => false)
                   0 (fun _ => false).

(** The reading of the end-to-end scenario. *)
Definition reading_minus_one : Telemetry :=
  {| ship_id := "ship_1"; sensor_id := Some "ship_1_default_sensor";
     temp := Num.of_Z (-1); timestamp := "2026-01-01T00:00:00.000Z" |}.

(** The POST, if any, that [sendNotification] attempts in a world. *)
Definition notification (w : Executor.world) (t : Telemetry) (e : Evaluation)
  : list Executor.WebhookPost :=
  if Executor.webhook_enabled w && negb (Executor.url_missing (Executor.webhook_url w))
  then [ {| Executor.wp_url := default "" (Executor.webhook_url w);
            Executor.wp_alert_type := alert_type e;
            Executor.wp_ship_id := ship_id t;
            Executor.wp_temperature := temp t;
            Executor.wp_timestamp := timestamp t;
            Executor.wp_thresholds := thresholds e |} ]
  else [].

(** The row [storeAlert] inserts for an event and an action, once the
    threshold is known. *)
Definition alertRow (t : Telemetry) (e : Evaluation) (action : string)
           (threshold : number) (now : string) : Executor.AlertRow :=
  {| Executor.al_ship_id := ship_id t;
     Executor.al_temperature := temp t;
     Executor.al_threshold := Some threshold;
     Executor.al_alert_type := alert_type e;
     Executor.al_action_taken := action;
     Executor.al_message :=
       match message e with
       | Some m => m
       | None => ThresholdMessage (alert_type e) (ship_id t)
                                  (default "undefined" (sensor_id t)) (temp t) threshold
       end;
     Executor.al_created_at := now |}.

(** The row [storeTelemetry] inserts for a reading. *)
Definition telemetryRow (t : Telemetry) (now : string) : Executor.TelemetryRow :=
  {| Executor.tr_ship_id := ship_id t;
     Executor.tr_sensor_id := sensor_id t;
     Executor.tr_temperature := temp t;
     Executor.tr_timestamp := timestamp t;
     Executor.tr_created_at := now |}.

(** The row [storeTemperatureAction] inserts. *)
Definition actionRow (t : Telemetry) (targetTemp : number) (now : string)
  : Executor.ActionRow :=
  {| Executor.ac_ship_id := ship_id t;
     Executor.ac_action_type := config.actionTypes.ADJUST_TEMPERATURE;
     Executor.ac_current_temp := temp t;
     Executor.ac_target_temp := targetTemp;
     Executor.ac_status := "PENDING";
     Executor.ac_created_at := now |}.

(** [c] changes the world only along [T]: every run of [c], returning or
    throwing, takes a world to one related to it by [T]. *)
Definition moves_along {W A} (T : W -> W -> Prop) (c : M W A) : Prop :=
  forall w, T w (snd (c w)).

(** [c] does not tell apart worlds related by [R]: from two such worlds it
    ends the same way, in worlds again related by [R]. *)
Definition respects {W A} (R : W -> W -> Prop) (c : M W A) : Prop :=
  forall w1 w2, R w1 w2 -> fst (c w1) = fst (c w2) /\ R (snd (c w1)) (snd (c w2)).

(** The alerts table only grows. *)
Definition alerts_grow (w w' : Executor.world) : Prop :=
  exists added, Executor.alerts w' = Executor.alerts w ++ added.

(** Two Executor worlds that agree on everything but the webhook: its
    configuration, the POSTs attempted and which of them fail. *)
Definition same_but_webhook (w1 w2 : Executor.world) : Prop :=
  Executor.telemetry_readings w1 = Executor.telemetry_readings w2
  /\ Executor.alerts w1 = Executor.alerts w2
  /\ Executor.temperature_actions w1 = Executor.temperature_actions w2
  /\ Executor.deleted w1 = Executor.deleted w2
  /\ Executor.eventCount w1 = Executor.eventCount w2
  /\ Executor.clock w1 = Executor.clock w2
  /\ Executor.db_calls w1 = Executor.db_calls w2
  /\ (forall k, Executor.db_fails w1 k = Executor.db_fails w2 k)
  /\ Executor.sqs_calls w1 = Executor.sqs_calls w2
  /\ (forall k, Executor.sqs_fails w1 k = Executor.sqs_fails w2 k).

Section Batch_vocabulary.

Context {W P : Type}.
Variable process : P -> M W unit.
Variable count : W -> W.

(** How each message of a batch ends when the batch is run from [w]: [true]
    when its processing completed, [false] when it threw.  A message is run
    in the world its predecessors left, whether they completed or not. *)
Fixpoint outcomes (msgs : list (SqsMessage P)) (w : W) : list bool :=
  match msgs with
  | [] => []
  | msg :: rest =>
      let r := handle process msg (count w) in
      returned r :: outcomes rest (snd r)
  end.

(** The world after a batch has been run from [w]. *)
Fixpoint world_after (msgs : list (SqsMessage P)) (w : W) : W :=
  match msgs with
  | [] => w
  | msg :: rest => world_after rest (snd (handle process msg (count w)))
  end.

(** The entries of the messages marked [true], in the order of the batch. *)
Fixpoint completed (msgs : list (SqsMessage P)) (oks : list bool) : list Entry :=
  match msgs, oks with
  | msg :: msgs', ok :: oks' =>
      (if ok then [entry_of msg] else []) ++ completed msgs' oks'
  | _, _ => []
  end.

End Batch_vocabulary.

(** *** Isolated processing of a batch, as the specification words it

    What follows is written from the contract of the queue consumer, not
    from the loop of the source: the batch loop is compared with it. *)

Section Batch_specification.

Context {W P : Type}.
Variable process : P -> M W unit.
Variable count : W -> W.

(** The acknowledgment token of a received message: its id and its receipt
    handle. *)
Definition token (msg : SqsMessage P) : Entry :=
  mkEntry (MessageId msg) (ReceiptHandle msg).

(** Processing one item, from the world [w]: the item is counted and its
    body handed to [process]; it fails when [process] throws, or when the
    body is not JSON. *)
Definition item (msg : SqsMessage P) (w : W) : outcome unit * W :=
  match Body msg with
  | Some p => process p (count w)
  | None => (Thrown SyntaxError, count w)
  end.

(** A batch processed item by item: every item is processed, in the world
    the item before it left, whether that one completed or failed; the
    result is the tokens of the items that completed, in the order of the
    batch, and the world after the last item. *)
Fixpoint batch (msgs : list (SqsMessage P)) (w : W) : list Entry * W :=
  match msgs with
  | [] => ([], w)
  | msg :: rest =>
      let r := item msg w in
      let b := batch rest (snd r) in
      (match fst r with
       | Returned _ => token msg :: fst b
       | Thrown _ => fst b
       end, snd b)
  end.

End Batch_specification.

(** A batch of three readings whose second body cannot be parsed. *)
Definition batch_with_bad_body : list (SqsMessage Telemetry) :=
  [ mkSqsMessage "m1" "r1" (Some reading_minus_one);
    mkSqsMessage "m2" "r2" None;
    mkSqsMessage "m3" "r3" (Some reading_minus_one) ].

(** ** Vocabulary of the further properties *)

(** The threshold [storeAlert] records for an evaluation that carries the
    thresholds [t]. *)
Definition thresholdUsed (e : Evaluation) (t : Thresholds) : number :=
  if String.eqb (alert_type e) config.alertTypes.CRITICAL then critical t
  else if String.eqb (alert_type e) config.alertTypes.WARNING then warning t
  else Num.of_Z 0.

(** The actions under which [processEvent] stores an alert, and those under
    which it calls [sendNotification]. *)
Definition stores_alert (action : string) : bool :=
  String.eqb action config.actionTypes.NOTIFY_WARNING
  || String.eqb action config.actionTypes.NOTIFY_CRITICAL
  || String.eqb action config.actionTypes.ADJUST_TEMPERATURE
  || String.eqb action config.actionTypes.TREND_ALERT.

Definition notifies (action : string) : bool :=
  String.eqb action config.actionTypes.NOTIFY_WARNING
  || String.eqb action config.actionTypes.NOTIFY_CRITICAL.

(** The rows and POSTs a list of actions calls for, in the order of the
    actions. *)
Definition telemetryRowsOf (t : Telemetry) (now : string) (acts : list string)
  : list Executor.TelemetryRow :=
  flat_map (fun a => if String.eqb a config.actionTypes.LOG
                     then [telemetryRow t now] else []) acts.

Definition alertRowsOf (t : Telemetry) (e : Evaluation) (ths : Thresholds)
           (now : string) (acts : list string) : list Executor.AlertRow :=
  flat_map (fun a => if stores_alert a
                     then [alertRow t e a (thresholdUsed e ths) now] else []) acts.

Definition actionRowsOf (t : Telemetry) (ths : Thresholds) (now : string)
           (acts : list string) : list Executor.ActionRow :=
  flat_map (fun a => if String.eqb a config.actionTypes.ADJUST_TEMPERATURE
                     then [actionRow t (target ths) now] else []) acts.

Definition postsOf (w : Executor.world) (t : Telemetry) (e : Evaluation)
           (acts : list string) : list Executor.WebhookPost :=
  flat_map (fun a => if notifies a then notification w t e else []) acts.

(** What a run of the Executor leaves as it is: the webhook configuration,
    the clock, the failure oracles, the delete log and the event counter. *)
Definition same_services (w w' : Executor.world) : Prop :=
  Executor.webhook_enabled w' = Executor.webhook_enabled w
  /\ Executor.webhook_url w' = Executor.webhook_url w
  /\ Executor.clock w' = Executor.clock w
  /\ (forall k, Executor.db_fails w' k = Executor.db_fails w k)
  /\ (forall k, Executor.fetch_fails w' k = Executor.fetch_fails w k)
  /\ Executor.deleted w' = Executor.deleted w
  /\ Executor.eventCount w' = Executor.eventCount w
  /\ Executor.sqs_calls w' = Executor.sqs_calls w
  /\ (forall k, Executor.sqs_fails w' k = Executor.sqs_fails w k).

(** The tables and the list of attempted POSTs only grow at their end. *)
Definition tables_grow (w w' : Executor.world) : Prop :=
  Executor.telemetry_readings w `prefix_of` Executor.telemetry_readings w'
  /\ Executor.alerts w `prefix_of` Executor.alerts w'
  /\ Executor.temperature_actions w `prefix_of` Executor.temperature_actions w'
  /\ Executor.webhook_posts w `prefix_of` Executor.webhook_posts w'
  /\ Executor.db_calls w <= Executor.db_calls w'.

(** [c] throws only errors that satisfy [P]. *)
Definition throws_only {W A} (P : error -> Prop) (c : M W A) : Prop :=
  forall w e, fst (c w) = Thrown e -> P e.

(** What [processEvent] may do to the world, whether it returns or throws. *)
Definition executor_frame (w w' : Executor.world) : Prop :=
  tables_grow w w' /\ same_services w w'.

(** The reading of the second end-to-end scenario. *)
Definition reading_minus_nineteen : Telemetry :=
  {| ship_id := "ship_1"; sensor_id := Some "ship_1_default_sensor";
     temp := Num.of_Z (-19); timestamp := "2026-01-01T00:00:10.000Z" |}.

(** An Executor world whose database rejects the query of rank [k] and
    accepts the others. *)
Definition executor_failing_at (k : nat) : Executor.world :=
  Executor.mkWorld [] [] [] true (Some "http://hooks.example/alerts") [] [] 0
                   "2026-01-01T00:00:05.000Z" 0 (fun i => Nat.eqb i k) (fun _ => false)
                   0 (fun _ => false).


(** What the Worker may do to its world: it sends events and makes calls;
    the cache, the history, the delete log, the message counter, the clock
    and the configuration are not its to change. *)
Definition worker_frame (w w' : Worker.world) : Prop :=
  Worker.redis w' = Worker.redis w
  /\ (forall s, Worker.trend_rows w' s = Worker.trend_rows w s)
  /\ Worker.events_queue w `prefix_of` Worker.events_queue w'
  /\ Worker.deleted w' = Worker.deleted w
  /\ Worker.messageCount w' = Worker.messageCount w
  /\ Worker.clock w' = Worker.clock w
  /\ Worker.trendWindowMinutes w' = Worker.trendWindowMinutes w
  /\ (forall k, Worker.io_fails w' k = Worker.io_fails w k)
  /\ Worker.io_calls w <= Worker.io_calls w'.

(** A Worker world with no stored thresholds and the rising history, whose
    call of rank [k] fails. *)
Definition worker_failing_at (k : nat) : Worker.world :=
  Worker.mkWorld ∅ history_rising [] [] 0 "2026-01-01T00:00:00.000Z" 5 0
                 (fun i => Nat.eqb i k).


(** The three threshold components, as they end the Redis keys. *)
Definition components : list string := ["warning"; "critical"; "target"].

(** The Worker world [w] with [cache] as its threshold cache. *)
Definition with_cache (cache : gmap string string) (w : Worker.world) : Worker.world :=
  Worker.mkWorld cache (Worker.trend_rows w) (Worker.events_queue w) (Worker.deleted w)
                 (Worker.messageCount w) (Worker.clock w) (Worker.trendWindowMinutes w)
                 (Worker.io_calls w) (Worker.io_fails w).


(** ** The cache setup script ([initCache])

    The script writes the thresholds of the seed file into Redis.  The
    conversion of a number to a string ([Number.prototype.toString]) is a
    built-in: the script is written over it, as [numberToString]. *)

Module CacheSetup.

Record ShipSeed : Type := mkShipSeed {
  seed_ship_id : string;
  seed_thresholds : Thresholds
}.

(** [seed/ship-thresholds.json], parsed. *)
Record SeedFile : Type := mkSeedFile {
  ships : list ShipSeed;
  defaults : Thresholds
}.

(** Redis as the script sees it: the keys, whether the client is connected,
    and the calls made so far with those (by rank) that fail. *)
Record world : Type := mkWorld {
  store : gmap string string;
  connected : bool;
  calls : nat;
  fails : nat -> bool
}.

(** How the script ends: by returning, or through [process.exit]. *)
Inductive ending : Type :=
| Completed
| Exit (code : nat).

Definition io (op : world -> world) : M world unit :=
  fun w =>
    let w1 := mkWorld (store w) (connected w) (S (calls w)) (fails w) in
    if fails w (calls w) then (Thrown RedisError, w1) else (Returned tt, op w1).

Definition client_connect : M world unit :=
  io (fun w => mkWorld (store w) true (calls w) (fails w)).

Definition client_quit : M world unit :=
  io (fun w => mkWorld (store w) false (calls w) (fails w)).

Definition client_set (k v : string) : M world unit :=
  io (fun w => mkWorld (<[ k := v ]> (store w)) (connected w) (calls w) (fails w)).

(** [JSON.parse(readFileSync(configPath))]: [None] is a file that cannot be
    read or parsed. *)
Definition readSeed (file : option SeedFile) : M world SeedFile :=
  match file with
  | Some seed => ret seed
  | None => throw SyntaxError
  end.

Section Script.

Variable numberToString : number -> string.

(** The three [client.set] of one ship, or of the defaults. *)
Definition setThresholds (id : string) (t : Thresholds) : M world unit :=
  client_set ("threshold:" +:+ id +:+ ":warning") (numberToString (warning t)) ;;;
  client_set ("threshold:" +:+ id +:+ ":critical") (numberToString (critical t)) ;;;
  client_set ("threshold:" +:+ id +:+ ":target") (numberToString (target t)).

Fixpoint forEachShip (todo : list ShipSeed) : M world unit :=
  match todo with
  | [] => ret tt
  | ship :: rest =>
      setThresholds (seed_ship_id ship) (seed_thresholds ship) ;;;
      forEachShip rest
  end.

Definition initCache (file : option SeedFile) : world -> ending * world :=
  fun w =>
    match (client_connect ;;;
           thresholdsConfig <- readSeed file ;;
           forEachShip (ships thresholdsConfig) ;;;
           setThresholds "default" (defaults thresholdsConfig) ;;;
           client_quit) w with
    | (Returned _, w') => (Completed, w')
    | (Thrown _, w') => (Exit 1, w')
    end.

End Script.

End CacheSetup.

(** The component of a thresholds record that a key component names. *)
Definition component_of (c : string) (t : Thresholds) : number :=
  if String.eqb c "warning" then warning t
  else if String.eqb c "critical" then critical t
  else target t.

(** The store after the thresholds [t] have been written for [id], and after
    those of a list of ships have been written in turn. *)
Definition seeded (numberToString : number -> string) (id : string) (t : Thresholds)
           (m : gmap string string) : gmap string string :=
  <[ key id "target" := numberToString (target t) ]>
    (<[ key id "critical" := numberToString (critical t) ]>
       (<[ key id "warning" := numberToString (warning t) ]> m)).

Definition seededAll (numberToString : number -> string)
           (ships : list CacheSetup.ShipSeed) (m : gmap string string)
  : gmap string string :=
  foldl (fun m s => seeded numberToString (CacheSetup.seed_ship_id s)
                           (CacheSetup.seed_thresholds s) m) m ships.

(** A number-to-string conversion to run the examples with: whole finite
    numbers are printed in decimal, as JavaScript prints them; it is not
    meant for other numbers. *)
Definition wholeToString (n : number) : string :=
  match n with
  | Fin q => NilZero.string_of_int (Z.to_int (Qnum q))
  | _ => "NaN"
  end.

(** A seed file with two ships, the first of them listed twice. *)
Definition seed_example : CacheSetup.SeedFile :=
  {| CacheSetup.ships :=
       [ CacheSetup.mkShipSeed "ship_1" (mkThresholds (Num.of_Z (-12)) (Num.of_Z (-7)) (Num.of_Z (-20)));
         CacheSetup.mkShipSeed "ship_2" (mkThresholds (Num.of_Z (-8)) (Num.of_Z (-3)) (Num.of_Z (-15)));
         CacheSetup.mkShipSeed "ship_1" (mkThresholds (Num.of_Z (-11)) (Num.of_Z (-6)) (Num.of_Z (-19))) ];
     CacheSetup.defaults := mkThresholds (Num.of_Z (-9)) (Num.of_Z (-4)) (Num.of_Z (-17)) |}.

(** An empty Redis that answers every call. *)
Definition empty_redis : CacheSetup.world :=
  CacheSetup.mkWorld ∅ false 0 (fun _ => false).


(** The ids under which the cache setup writes: the ships of the seed file
    and [default]. *)
Definition seeded_ids (file : option CacheSetup.SeedFile) : list string :=
  "default" :: match file with
               | Some seed => map CacheSetup.seed_ship_id (CacheSetup.ships seed)
               | None => []
               end.

(** The keys the cache setup may write. *)
Definition seed_key (file : option CacheSetup.SeedFile) (k : string) : Prop :=
  exists id c, In id (seeded_ids file) /\ In c components /\ k = key id c.

(** [w'] differs from [w] on keys in [K] at most. *)
Definition writes_only (K : string -> Prop) (w w' : CacheSetup.world) : Prop :=
  forall k, ~ K k -> CacheSetup.store w' !! k = CacheSetup.store w !! k.


(** ** Component A: the Telemetry Ingestor

    The fields of a request body are JSON scalars, or missing
    ([JUndefined]); arrays and objects as field values are not modelled. *)

Inductive jsval : Type :=
| JUndefined
| JNull
| JBool (b : bool)
| JNum (n : number)
| JStr (s : string).

(** What [!v] negates: [undefined], [null], [false], [0], [NaN] and the
    empty string are falsy. *)
Definition truthy (v : jsval) : bool :=
  match v with
  | JUndefined | JNull => false
  | JBool b => b
  | JNum NaN => false
  | JNum (Fin q) => negb (Qeq_bool q 0)
  | JNum _ => true
  | JStr s => negb (String.eqb s "")
  end.

Definition isNaN (n : number) : bool :=
  match n with
  | NaN => true
  | _ => false
  end.

(** A scalar of a JSON text.  JSON has no NaN and no infinity. *)
Inductive json : Type :=
| JsonNull
| JsonBool (b : bool)
| JsonNum (q : Q)
| JsonStr (s : string).

(** A JSON object, as the text lists it: its members in order. *)
Definition JsonObject : Type := list (string * json).

(** What [JSON.stringify] writes for the value of a property: nothing for
    [undefined] (the property is left out), [null] for a number that is not
    finite. *)
Definition JSON_stringify_value (v : jsval) : option json :=
  match v with
  | JUndefined => None
  | JNull => Some JsonNull
  | JBool b => Some (JsonBool b)
  | JNum (Fin q) => Some (JsonNum q)
  | JNum _ => Some JsonNull
  | JStr s => Some (JsonStr s)
  end.

(** [JSON.stringify] of an object given by its properties in order.  The
    text is kept as the document it denotes. *)
Fixpoint JSON_stringify (properties : list (string * jsval)) : JsonObject :=
  match properties with
  | [] => []
  | (name, v) :: rest =>
      match JSON_stringify_value v with
      | Some j => (name, j) :: JSON_stringify rest
      | None => JSON_stringify rest
      end
  end.

Module Ingestor.

Record RequestBody : Type := mkRequestBody {
  b_ship_id : jsval;
  b_temp : jsval;
  b_timestamp : jsval;
  b_sensor_id : jsval
}.

(** The object [message] of the handler. *)
Record Message : Type := mkMessage {
  m_ship_id : jsval;
  m_sensor_id : jsval;
  m_temp : number;
  m_timestamp : jsval
}.

(** The three answers of the endpoint: 400 with an error text; 200 with
    the values of [message], which the answer lists, and the id SQS gave;
    500. *)
Inductive Response : Type :=
| BadRequest (error : string)
| Queued (message : Message) (messageId : string)
| ServerError.

Definition status (r : Response) : nat :=
  match r with
  | BadRequest _ => 400
  | Queued _ _ => 200
  | ServerError => 500
  end.

(** TelemetryQueue: the bodies sent, oldest first, with the SQS calls made
    so far, those (by rank) that fail, and the message ids SQS hands out. *)
Record world : Type := mkWorld {
  telemetry_queue : list JsonObject;
  sqs_calls : nat;
  sqs_fails : nat -> bool;
  message_ids : nat -> string
}.

(** [sqsClient.send(new SendMessageCommand({ QueueUrl, MessageBody }))] *)
Definition sqs_send (MessageBody : JsonObject) : M world string :=
  fun w =>
    let k := sqs_calls w in
    if sqs_fails w k
    then (Thrown SqsError,
          mkWorld (telemetry_queue w) (S k) (sqs_fails w) (message_ids w))
    else (Returned (message_ids w k),
          mkWorld (telemetry_queue w ++ [MessageBody]) (S k) (sqs_fails w) (message_ids w)).

(** The properties of [message], in the order the object literal writes
    them. *)
Definition properties (message : Message) : list (string * jsval) :=
  [ ("ship_id", m_ship_id message);
    ("sensor_id", m_sensor_id message);
    ("temp", JNum (m_temp message));
    ("timestamp", m_timestamp message) ].

Section Handler.

(** [Number.prototype.toString], a built-in. *)
Variable numberToString : number -> string.

(** The string a value becomes in a template literal and in [parseFloat]. *)
Definition toString (v : jsval) : string :=
  match v with
  | JUndefined => "undefined"
  | JNull => "null"
  | JBool true => "true"
  | JBool false => "false"
  | JNum n => numberToString n
  | JStr s => s
  end.

(** [parseFloat(v)]: a number is read back from its own string, which gives
    the number; any other value is read from its string. *)
Definition parseFloat_of (v : jsval) : number :=
  match v with
  | JNum n => parseFloat (VNum n)
  | _ => parseFloat (VStr (toString v))
  end.

Definition typeof_number (v : jsval) : bool :=
  match v with
  | JNum _ => true
  | _ => false
  end.

Definition is_undefined (v : jsval) : bool :=
  match v with
  | JUndefined => true
  | _ => false
  end.

Definition is_null (v : jsval) : bool :=
  match v with
  | JNull => true
  | _ => false
  end.

(** The handler of [POST /telemetry]. *)
Definition postTelemetry (body : RequestBody) : world -> Response * world :=
  fun w =>
    let ship_id := b_ship_id body in
    let temp := b_temp body in
    let timestamp := b_timestamp body in
    let sensor_id := b_sensor_id body in
    if negb (truthy ship_id) || negb (truthy timestamp)
    then (BadRequest "Missing required field(s): ship_id, timestamp", w)
    else if is_undefined temp
            || is_null temp
            || (negb (typeof_number temp) && isNaN (parseFloat_of temp))
    then (BadRequest "Invalid temperature reading", w)
    else
      let message :=
        {| m_ship_id := ship_id;
           m_sensor_id := if truthy sensor_id then sensor_id
                          else JStr (toString ship_id +:+ "_default_sensor");
           m_temp := parseFloat_of temp;
           m_timestamp := timestamp |} in
      match sqs_send (JSON_stringify (properties message)) w with
      | (Returned messageId, w') => (Queued message messageId, w')
      | (Thrown _, w') => (ServerError, w')
      end.

End Handler.

End Ingestor.

(** An ingestor whose queue is empty and whose SQS answers. *)
Definition quiet_ingestor : Ingestor.world :=
  Ingestor.mkWorld [] 0 (fun _ => false) (fun _ => "id-1").

(** What a JSON text writes for a value that is not [undefined]: the value
    itself, but [null] for a number that is not finite. *)
Definition written (v : jsval) : json :=
  match v with
  | JBool b => JsonBool b
  | JNum (Fin q) => JsonNum q
  | JStr s => JsonStr s
  | _ => JsonNull
  end.

(** The body on the queue for a reading: its four members in order, with
    the temperature when it is finite and [null] when it is not. *)
Definition queuedBody (ship sensor : jsval) (t : number) (stamp : jsval) : JsonObject :=
  [ ("ship_id", written ship);
    ("sensor_id", written sensor);
    ("temp", match t with Fin q => JsonNum q | _ => JsonNull end);
    ("timestamp", written stamp) ].

(** A request whose temperature is a string with a numeric head, and no
    sensor id. *)
Definition request_string_temp : Ingestor.RequestBody :=
  Ingestor.mkRequestBody (JStr "ship_1") (JStr "-4.5C") (JStr "2026-01-01T00:00:00.000Z")
                         JUndefined.

(** A request of temperature 0. *)
Definition request_zero : Ingestor.RequestBody :=
  Ingestor.mkRequestBody (JStr "ship_1") (JNum (Num.of_Z 0))
                         (JStr "2026-01-01T00:00:00.000Z") (JStr "ship_1_sensor_2").


(** The severity of an alert type: NORMAL below WARNING below CRITICAL. *)
Definition severity (alertType : string) : nat :=
  if String.eqb alertType config.alertTypes.CRITICAL then 2
  else if String.eqb alertType config.alertTypes.WARNING then 1
  else 0.


(** ** The queue setup script ([ensureQueue], [createQueues])

    SQS holds queues by name.  [GetQueueUrl] throws for a name it does not
    know; [CreateQueue] of a name it knows answers the URL of that queue (the
    queues here are those the script creates, with the attributes of
    [config.sqs]) and otherwise creates the queue under the URL SQS chooses
    for it, [url_of]. *)

Module QueueSetup.

(** [config.sqs.telemetryQueueName] and [config.sqs.eventsQueueName] *)
Definition telemetryQueueName : string := "ShipTelemetryQueue".
Definition eventsQueueName : string := "AlertEventsQueue".

Record world : Type := mkWorld {
  queues : gmap string string;
  calls : nat;
  fails : nat -> bool;
  url_of : string -> string
}.

Definition next (w : world) : world :=
  mkWorld (queues w) (S (calls w)) (fails w) (url_of w).

Definition getQueueUrl (queueName : string) : M world string :=
  fun w =>
    if fails w (calls w) then (Thrown SqsError, next w)
    else match queues w !! queueName with
         | Some url => (Returned url, next w)
         | None => (Thrown SqsError, next w)
         end.

Definition createQueue (queueName : string) : M world string :=
  fun w =>
    if fails w (calls w) then (Thrown SqsError, next w)
    else match queues w !! queueName with
         | Some url => (Returned url, next w)
         | None =>
             (Returned (url_of w queueName),
              mkWorld (<[ queueName := url_of w queueName ]> (queues w))
                      (S (calls w)) (fails w) (url_of w))
         end.

(** The lookup is tried first; whatever makes it throw, the queue is then
    created, and an error of the creation is not caught. *)
Definition ensureQueue (queueName : string) : M world string :=
  fun w =>
    match getQueueUrl queueName w with
    | (Returned url, w') => (Returned url, w')
    | (Thrown _, w') => createQueue queueName w'
    end.

(** How the script ends: with the two URLs printed, or through
    [process.exit(1)]. *)
Inductive ending : Type :=
| Printed (telemetryUrl eventsUrl : string)
| Exit (code : nat).

Definition createQueues : world -> ending * world :=
  fun w =>
    match (telemetryUrl <- ensureQueue telemetryQueueName ;;
           eventsUrl <- ensureQueue eventsQueueName ;;
           ret (telemetryUrl, eventsUrl)) w with
    | (Returned (telemetryUrl, eventsUrl), w') => (Printed telemetryUrl eventsUrl, w')
    | (Thrown _, w') => (Exit 1, w')
    end.

End QueueSetup.

(** An SQS without queues that answers every call. *)
Definition empty_sqs : QueueSetup.world :=
  QueueSetup.mkWorld ∅ 0 (fun _ => false) (fun name => "http://sqs.local/queue/" +:+ name).


(** ** The temperature simulator ([src/simulator/simulator.js])

    Each call of [Math.random] is an argument of the function that makes
    it, in the order of the calls. *)

Module Simulator.

Record Ship : Type := mkShip {
  id : string;
  name : string;
  baseTemp : number;
  variance : number;
  sensors : nat
}.

Definition ships : list Ship :=
  [ mkShip "ship_1" "Salmon Carrier" (Num.of_Z (-18)) (Num.of_Z 8) 2;
    mkShip "ship_2" "Tuna Carrier" (Num.of_Z (-15)) (Num.of_Z 7) 3;
    mkShip "ship_3" "Lobster Carrier" (Num.of_Z (-20)) (Num.of_Z 6) 1 ].

(** [roll] is the first draw, [r] the second. *)
Definition generateShipTemperature (ship : Ship) (roll r : number) : number :=
  if Num.lt roll (Num.literal 0.05) then
    let anomaly := Num.add (Num.of_Z 5) (Num.mul r (Num.of_Z 5)) in
    Num.add (Num.add (baseTemp ship) (variance ship)) anomaly
  else if Num.lt roll (Num.literal 0.15) then
    let anomaly := Num.add (Num.of_Z 1) (Num.mul r (Num.of_Z 4)) in
    Num.add (Num.add (baseTemp ship) (variance ship)) anomaly
  else
    let fluctuation :=
      Num.mul (Num.sub (Num.mul r (Num.of_Z 2)) (Num.of_Z 1)) (variance ship) in
    Num.add (baseTemp ship) fluctuation.

Definition generateSensorReading (shipTemp r : number) : number :=
  let sensorVariation := Num.sub r (Num.literal 0.5) in
  Num.add shipTemp sensorVariation.

End Simulator.

(** A draw of [Math.random]: at least 0 and below 1. *)
Definition random_draw (r : Q) : Prop := (0 <= r)%Q /\ (r < 1)%Q.

(** * Theorems *)

(** ** Rounding

    [Binary64.round] is monotone, so that a value between two doubles is
    rounded to a double between them. *)

Section Nearest.

Local Open Scope Q_scope.

Lemma nearest_floor (x : Q) :
  (Qfloor x <= Binary64.nearest x <= Qfloor x + 1)%Z.
Proof.
  unfold Binary64.nearest. cbv zeta.
  destruct (x - inject_Z (Qfloor x) ?= 1 # 2); [destruct (Z.even _) | |]; lia.
Qed.

#[local] Instance nearest_comp : Proper (Qeq ==> eq) Binary64.nearest.
Proof.
  intros x y H. unfold Binary64.nearest. cbv zeta.
  rewrite (Qfloor_comp x y H). rewrite H. reflexivity.
Qed.

Lemma nearest_mono (x y : Q) : x <= y -> (Binary64.nearest x <= Binary64.nearest y)%Z.
Proof.
  intros Hxy.
  pose proof (Qfloor_resp_le x y Hxy) as Hf.
  destruct (Z.eq_dec (Qfloor x) (Qfloor y)) as [E | E].
  - unfold Binary64.nearest. cbv zeta. rewrite <- E.
    destruct (Qcompare_spec (x - inject_Z (Qfloor x)) (1 # 2)) as [H1 | H1 | H1];
      destruct (Qcompare_spec (y - inject_Z (Qfloor x)) (1 # 2)) as [H2 | H2 | H2];
      try (destruct (Z.even (Qfloor x))); try lia; exfalso; lra.
  - pose proof (nearest_floor x). pose proof (nearest_floor y). lia.
Qed.

Lemma nearest_Z (k : Z) : Binary64.nearest (inject_Z k) = k.
Proof.
  unfold Binary64.nearest. cbv zeta. rewrite Qfloor_Z.
  destruct (Qcompare_spec (inject_Z k - inject_Z k) (1 # 2)) as [H | H | H];
    [exfalso; lra | reflexivity | exfalso; lra].
Qed.

End Nearest.

Section Exponent.

Local Open Scope Q_scope.

Lemma pow2_pos (e : Z) : 0 < 2 ^ e.
Proof. apply Qpower_0_lt. reflexivity. Qed.

Lemma pow2_le (e1 e2 : Z) : (e1 <= e2)%Z -> 2 ^ e1 <= 2 ^ e2.
Proof. intros H. apply Qpower_le_compat_l; [exact H | discriminate]. Qed.

Lemma pow2_lt (e1 e2 : Z) : (e1 < e2)%Z -> 2 ^ e1 < 2 ^ e2.
Proof. intros H. apply Qpower_lt_compat_l; [exact H | reflexivity]. Qed.

Lemma pow2_plus (a b : Z) : 2 ^ (a + b) == 2 ^ a * 2 ^ b.
Proof. apply Qpower_plus. discriminate. Qed.

Lemma pow2_succ (a : Z) : 2 ^ (a + 1) == 2 * 2 ^ a.
Proof. rewrite pow2_plus. change (2 ^ 1) with 2. ring. Qed.

Lemma pow2_Z (a : Z) : (0 <= a)%Z -> inject_Z (2 ^ a) == 2 ^ a.
Proof. intros H. apply (Zpower_Qpower 2 a H). Qed.

Lemma log2_bounds (n : positive) :
  2 ^ Z.log2 (Zpos n) <= inject_Z (Zpos n) < 2 * 2 ^ Z.log2 (Zpos n).
Proof.
  destruct (Z.log2_spec (Zpos n) ltac:(lia)) as [Hlo Hhi].
  pose proof (Z.log2_nonneg (Zpos n)) as Hnn.
  split.
  - rewrite <- pow2_Z by exact Hnn. rewrite <- Zle_Qle. exact Hlo.
  - rewrite <- pow2_succ. rewrite <- pow2_Z by lia. rewrite <- Zlt_Qlt.
    exact Hhi.
Qed.

Lemma exponent_spec (x : Q) :
  0 < x -> 2 ^ Binary64.exponent x <= x < 2 * 2 ^ Binary64.exponent x.
Proof.
  intros Hx. destruct x as [n d].
  destruct n as [| n | n]; [discriminate Hx | | discriminate Hx].
  unfold Binary64.exponent. cbn [Qnum Qden].
  set (a := Z.log2 (Zpos n)). set (b := Z.log2 (Zpos d)).
  pose proof (log2_bounds n) as [Ha1 Ha2]. fold a in Ha1, Ha2.
  pose proof (log2_bounds d) as [Hb1 Hb2]. fold b in Hb1, Hb2.
  assert (Hmul : (Zpos n # d) * inject_Z (Zpos d) == inject_Z (Zpos n)).
  { rewrite (Qmake_Qdiv (Zpos n) d). field. discriminate. }
  assert (Hab : 2 ^ (a - b) * 2 ^ b == 2 ^ a).
  { rewrite <- pow2_plus. replace (a - b + b)%Z with a by ring. reflexivity. }
  assert (Hpred : 2 * 2 ^ (a - b - 1) == 2 ^ (a - b)).
  { rewrite <- pow2_succ. replace (a - b - 1 + 1)%Z with (a - b)%Z by ring. reflexivity. }
  pose proof (pow2_pos (a - b)) as HE. pose proof (pow2_pos b) as HB.
  pose proof (pow2_pos (a - b - 1)) as HE'.
  destruct (Qle_bool (2 ^ (a - b)) (Zpos n # d)) eqn:Hc.
  - apply Qle_bool_iff in Hc.
    revert Hc Hmul Hab Hpred HE HB HE' Ha1 Ha2 Hb1 Hb2 Hx.
    generalize (2 ^ (a - b - 1)) as E'. generalize (2 ^ (a - b)) as E.
    generalize (2 ^ a) as PA. generalize (2 ^ b) as PB.
    generalize (inject_Z (Zpos n)) as N. generalize (inject_Z (Zpos d)) as D.
    generalize (Zpos n # d) as X.
    intros X D N PB PA E E' Hc Hmul Hab Hpred HE HB HE' Ha1 Ha2 Hb1 Hb2 Hx.
    split; [exact Hc |].
    apply Qnot_le_lt. intros Hge.
    assert (H1 : (2 * E) * PB <= X * D)
      by (apply Qmult_le_compat_nonneg; split; lra).
    lra.
  - assert (Hlt : (Zpos n # d) < 2 ^ (a - b)).
    { apply Qnot_le_lt. intros H. apply Qle_bool_iff in H. congruence. }
    clear Hc.
    revert Hlt Hmul Hab Hpred HE HB HE' Ha1 Ha2 Hb1 Hb2 Hx.
    generalize (2 ^ (a - b - 1)) as E'. generalize (2 ^ (a - b)) as E.
    generalize (2 ^ a) as PA. generalize (2 ^ b) as PB.
    generalize (inject_Z (Zpos n)) as N. generalize (inject_Z (Zpos d)) as D.
    generalize (Zpos n # d) as X.
    intros X D N PB PA E E' Hlt Hmul Hab Hpred HE HB HE' Ha1 Ha2 Hb1 Hb2 Hx.
    split; [| lra].
    apply Qnot_lt_le. intros Hlow.
    assert (H1 : X * D < E' * (2 * PB))
      by (apply Qmult_le_lt_compat_pos; split; lra).
    assert (H2 : E' * (2 * PB) == E * PB) by (rewrite <- Hpred; ring).
    lra.
Qed.

End Exponent.

Section Monotone.

Local Open Scope Q_scope.

Lemma exponent_mono (x y : Q) :
  0 < x -> x <= y -> (Binary64.exponent x <= Binary64.exponent y)%Z.
Proof.
  intros Hx Hxy.
  destruct (exponent_spec x Hx) as [Hx1 _].
  destruct (exponent_spec y ltac:(lra)) as [_ Hy2].
  destruct (Z_le_gt_dec (Binary64.exponent x) (Binary64.exponent y)) as [H | H];
    [exact H | exfalso].
  pose proof (pow2_le (Binary64.exponent y + 1) (Binary64.exponent x) ltac:(lia)) as Hp.
  rewrite pow2_succ in Hp. lra.
Qed.

Lemma quantum_mono (x y : Q) :
  0 < x -> x <= y -> (Binary64.quantum x <= Binary64.quantum y)%Z.
Proof.
  intros Hx Hxy. pose proof (exponent_mono x y Hx Hxy). unfold Binary64.quantum. lia.
Qed.

Lemma pow2_opp_r (p : Z) : 2 ^ p * 2 ^ (- p) == 1.
Proof. rewrite <- pow2_plus. replace (p + - p)%Z with 0%Z by ring. reflexivity. Qed.

Lemma nearest_double_mono (x y : Q) :
  0 < x -> x <= y -> Binary64.nearest_double x <= Binary64.nearest_double y.
Proof.
  intros Hx Hxy. unfold Binary64.nearest_double. cbv zeta.
  pose proof (quantum_mono x y Hx Hxy) as Hq.
  destruct (Z.eq_dec (Binary64.quantum x) (Binary64.quantum y)) as [E | E].
  - rewrite <- E. set (p := Binary64.quantum x).
    apply Qmult_le_compat_r; [| apply Qlt_le_weak, pow2_pos].
    rewrite <- Zle_Qle. apply nearest_mono.
    apply Qmult_le_compat_r; [exact Hxy | apply Qlt_le_weak, pow2_pos].
  - set (px := Binary64.quantum x) in *. set (py := Binary64.quantum y) in *.
    set (ex := Binary64.exponent x). set (ey := Binary64.exponent y).
    assert (Hpy : py = (ey - 52)%Z) by (unfold py, px, Binary64.quantum in *; fold ey; lia).
    assert (Hex : (ex + 1 <= ey)%Z)
      by (unfold py, px, Binary64.quantum in *; fold ex ey in Hq, E |- *; lia).
    assert (Hpx : (px < py)%Z) by lia.
    destruct (exponent_spec x Hx) as [_ Hx2]. fold ex in Hx2.
    destruct (exponent_spec y ltac:(lra)) as [Hy1 _]. fold ey in Hy1.
    assert (HxB : x <= 2 ^ ey).
    { pose proof (pow2_le (ex + 1) ey Hex) as Hp. rewrite pow2_succ in Hp. lra. }
    apply Qle_trans with (2 ^ ey).
    + (* below the power of two *)
      assert (HK : inject_Z (2 ^ (ey - px)) == 2 ^ ey * 2 ^ (- px)).
      { rewrite pow2_Z by lia. rewrite <- pow2_plus.
        replace (ey + - px)%Z with (ey - px)%Z by ring. reflexivity. }
      assert (Hm : (Binary64.nearest (x * 2 ^ (- px)) <= 2 ^ (ey - px))%Z).
      { rewrite <- (nearest_Z (2 ^ (ey - px))). apply nearest_mono.
        rewrite HK. apply Qmult_le_compat_r; [exact HxB | apply Qlt_le_weak, pow2_pos]. }
      rewrite Zle_Qle in Hm. rewrite HK in Hm.
      apply Qle_trans with (2 ^ ey * 2 ^ (- px) * 2 ^ px).
      * apply Qmult_le_compat_r; [exact Hm | apply Qlt_le_weak, pow2_pos].
      * rewrite <- Qmult_assoc, (Qmult_comm (2 ^ (- px))), pow2_opp_r. lra.
    + assert (HK : inject_Z (2 ^ 52) == 2 ^ ey * 2 ^ (- py)).
      { rewrite pow2_Z by lia. rewrite <- pow2_plus.
        replace (ey + - py)%Z with 52%Z by lia. reflexivity. }
      assert (Hm : (2 ^ 52 <= Binary64.nearest (y * 2 ^ (- py)))%Z).
      { rewrite <- (nearest_Z (2 ^ 52)) at 1. apply nearest_mono.
        rewrite HK. apply Qmult_le_compat_r; [exact Hy1 | apply Qlt_le_weak, pow2_pos]. }
      rewrite Zle_Qle in Hm. rewrite HK in Hm.
      apply Qle_trans with (2 ^ ey * 2 ^ (- py) * 2 ^ py).
      * rewrite <- Qmult_assoc, (Qmult_comm (2 ^ (- py))), pow2_opp_r. lra.
      * apply Qmult_le_compat_r; [exact Hm | apply Qlt_le_weak, pow2_pos].
Qed.

Lemma nearest_double_nonneg (x : Q) : 0 < x -> 0 <= Binary64.nearest_double x.
Proof.
  intros Hx. unfold Binary64.nearest_double. cbv zeta.
  apply Qmult_le_0_compat; [| apply Qlt_le_weak, pow2_pos].
  change 0 with (inject_Z 0). rewrite <- Zle_Qle.
  rewrite <- (nearest_Z 0). apply nearest_mono.
  change (inject_Z 0) with 0.
  apply Qmult_le_0_compat; [lra | apply Qlt_le_weak, pow2_pos].
Qed.

(** What [round_pos] gives: an infinity, or the nearest double. *)
Lemma round_pos_cases (x : Q) :
  (Binary64.round_pos x = PosInf /\ 2 ^ 1024 <= Binary64.nearest_double x)
  \/ (exists r, Binary64.round_pos x = Fin r
                /\ r == Binary64.nearest_double x
                /\ Binary64.nearest_double x < 2 ^ 1024).
Proof.
  unfold Binary64.round_pos. cbv zeta.
  destruct (Qle_bool (2 ^ 1024) (Binary64.nearest_double x)) eqn:E.
  - left. split; [reflexivity | apply Qle_bool_iff, E].
  - right. eexists. split; [reflexivity |]. split; [apply Qred_correct |].
    apply Qnot_le_lt. intros H. apply Qle_bool_iff in H. congruence.
Qed.

Lemma round_mono (x y : Q) :
  x <= y -> Num.le (Binary64.round x) (Binary64.round y) = true.
Proof.
  intros Hxy. unfold Binary64.round.
  destruct (Qcompare_spec x 0) as [Hx | Hx | Hx];
    destruct (Qcompare_spec y 0) as [Hy | Hy | Hy]; try (exfalso; lra).
  - reflexivity.
  - destruct (round_pos_cases y) as [[-> _] | (r & -> & Hr & _)]; [reflexivity |].
    cbn. apply Qle_bool_iff. pose proof (nearest_double_nonneg y Hy). lra.
  - destruct (round_pos_cases (- x)) as [[-> _] | (r & -> & Hr & _)]; [reflexivity |].
    cbn. apply Qle_bool_iff. pose proof (nearest_double_nonneg (- x) ltac:(lra)). lra.
  - pose proof (nearest_double_mono (- y) (- x) ltac:(lra) ltac:(lra)) as Hm.
    destruct (round_pos_cases (- x)) as [[-> Hx'] | (r & -> & Hr & Hx')];
      destruct (round_pos_cases (- y)) as [[-> Hy'] | (s & -> & Hs & Hy')];
      try reflexivity.
    + exfalso. lra.
    + cbn. apply Qle_bool_iff. lra.
  - pose proof (nearest_double_nonneg (- x) ltac:(lra)).
    pose proof (nearest_double_nonneg y Hy).
    destruct (round_pos_cases (- x)) as [[-> Hx'] | (r & -> & Hr & Hx')];
      destruct (round_pos_cases y) as [[-> Hy'] | (s & -> & Hs & Hy')];
      try reflexivity.
    cbn. apply Qle_bool_iff. lra.
  - pose proof (nearest_double_mono x y Hx Hxy) as Hm.
    destruct (round_pos_cases x) as [[-> Hx'] | (r & -> & Hr & Hx')];
      destruct (round_pos_cases y) as [[-> Hy'] | (s & -> & Hs & Hy')];
      try reflexivity.
    + exfalso. lra.
    + cbn. apply Qle_bool_iff. lra.
Qed.

(** A value between two doubles is rounded to a double between them. *)
Lemma round_between (a b x a' b' : Q) :
  a <= x <= b ->
  Binary64.round a = Fin a' -> Binary64.round b = Fin b' ->
  exists v, Binary64.round x = Fin v /\ a' <= v <= b'.
Proof.
  intros [Hax Hxb] Ha Hb.
  pose proof (round_mono a x Hax) as H1. pose proof (round_mono x b Hxb) as H2.
  rewrite Ha in H1. rewrite Hb in H2.
  destruct (Binary64.round x) as [| | v |]; try discriminate.
  exists v. split; [reflexivity |]. cbn in H1, H2.
  apply Qle_bool_iff in H1, H2. split; assumption.
Qed.

End Monotone.

(** ** Rule evaluation *)

Section Classification.

Import config.alertTypes.

Lemma gt_Fin (x y : Q) : Num.gt (Fin x) (Fin y) = true <-> (y < x)%Q.
Proof.
  unfold Num.gt. destruct (Qle_bool x y) eqn:E; simpl.
  - apply Qle_bool_iff in E. split; [discriminate | lra].
  - split; [intros _ | reflexivity].
    destruct (Qlt_le_dec y x) as [H | H]; [exact H |].
    apply Qle_bool_iff in H. congruence.
Qed.

Lemma gt_Fin_false (x y : Q) : Num.gt (Fin x) (Fin y) = false <-> (x <= y)%Q.
Proof.
  destruct (Num.gt (Fin x) (Fin y)) eqn:E.
  - apply gt_Fin in E. split; [discriminate | lra].
  - split; [intros _ | reflexivity].
    destruct (Qlt_le_dec y x) as [H | H]; [| exact H].
    apply gt_Fin in H. congruence.
Qed.

(** C1 as stated fails: with the warning threshold above the critical one,
    a temperature between the two is at most the warning threshold and yet
    is not classified NORMAL (it is CRITICAL). *)
Lemma determineAlertType_normal_counterexample :
  let t := {| warning := Num.of_Z 0; critical := Num.of_Z (-5); target := Num.of_Z (-18) |} in
  Num.le (Num.of_Z (-3)) (warning t) = true
  /\ determineAlertType (Num.of_Z (-3)) t = CRITICAL
  /\ ~ (determineAlertType (Num.of_Z (-3)) t = NORMAL
        <-> Num.le (Num.of_Z (-3)) (warning t) = true).
Proof.
  cbv zeta. split; [reflexivity |]. split; [reflexivity |].
  intros [_ H]. specialize (H eq_refl). vm_compute in H. discriminate H.
Qed.

(** C1 (amended): for all finite temperatures and thresholds,
    [determineAlertType] returns CRITICAL iff v > critical, WARNING iff
    warning < v <= critical, and NORMAL iff v <= warning and v <= critical;
    equality with a threshold yields the lower severity. *)
Theorem determineAlertType_spec (v w c : Q) (tg : number) :
  let t := {| warning := Fin w; critical := Fin c; target := tg |} in
  (determineAlertType (Fin v) t = CRITICAL <-> (c < v)%Q)
  /\ (determineAlertType (Fin v) t = WARNING <-> (w < v)%Q /\ (v <= c)%Q)
  /\ (determineAlertType (Fin v) t = NORMAL <-> (v <= w)%Q /\ (v <= c)%Q).
Proof.
  cbv zeta. unfold determineAlertType. cbn [warning critical].
  destruct (Num.gt (Fin v) (Fin c)) eqn:Ec;
    [apply gt_Fin in Ec | apply gt_Fin_false in Ec];
    (destruct (Num.gt (Fin v) (Fin w)) eqn:Ew;
     [apply gt_Fin in Ew | apply gt_Fin_false in Ew]);
    unfold CRITICAL, WARNING, NORMAL;
    repeat split; intros; try discriminate; try lra.
Qed.

(** With the thresholds in their intended order the NORMAL case is the one
    of the specification. *)
Lemma determineAlertType_ordered (v w c : Q) (tg : number) :
  (w <= c)%Q ->
  (determineAlertType (Fin v) {| warning := Fin w; critical := Fin c; target := tg |}
   = NORMAL <-> (v <= w)%Q).
Proof.
  intros Hwc. unfold determineAlertType. cbn [warning critical].
  destruct (Num.gt (Fin v) (Fin c)) eqn:Ec;
    [apply gt_Fin in Ec | apply gt_Fin_false in Ec];
    (destruct (Num.gt (Fin v) (Fin w)) eqn:Ew;
     [apply gt_Fin in Ew | apply gt_Fin_false in Ew]);
    unfold CRITICAL, WARNING, NORMAL;
    split; intros; try discriminate; try reflexivity; try lra.
Qed.

End Classification.

Section Actions.

Import config.alertTypes config.actionTypes.

(** C4: [determineActions] maps CRITICAL to [LOG, ADJUST_TEMPERATURE,
    NOTIFY_CRITICAL], WARNING to [LOG, NOTIFY_WARNING] and NORMAL to [LOG],
    in these orders. *)
Theorem determineActions_table :
  determineActions CRITICAL = [LOG; ADJUST_TEMPERATURE; NOTIFY_CRITICAL]
  /\ determineActions WARNING = [LOG; NOTIFY_WARNING]
  /\ determineActions NORMAL = [LOG].
Proof. repeat split. Qed.

Lemma determineActions_cases (alertType : string) :
  (alertType = CRITICAL
   /\ determineActions alertType = [LOG; ADJUST_TEMPERATURE; NOTIFY_CRITICAL])
  \/ (alertType = WARNING /\ determineActions alertType = [LOG; NOTIFY_WARNING])
  \/ (alertType <> CRITICAL /\ alertType <> WARNING
      /\ determineActions alertType = [LOG]).
Proof.
  unfold determineActions.
  destruct (String.eqb_spec alertType CRITICAL) as [-> | Hc]; [left; split; reflexivity |].
  destruct (String.eqb_spec alertType WARNING) as [-> | Hw];
    [right; left; split; reflexivity |].
  right; right. repeat split; assumption.
Qed.

(** C8: [determineActions] is a function of its argument alone, defined on
    every input, and its result is never empty; on the four
    classifications it gives one fixed list each. *)
Theorem determineActions_total_nonempty :
  (forall alertType : string, determineActions alertType <> [])
  /\ (forall a b : string, a = b -> determineActions a = determineActions b)
  /\ Forall (fun a => exists l, l <> [] /\ forall a', a' = a -> determineActions a' = l)
       [NORMAL; WARNING; CRITICAL; TREND_ANOMALY].
Proof.
  assert (Hne : forall a, determineActions a <> []).
  { intros a. destruct (determineActions_cases a) as [[_ ->] | [[_ ->] | (_ & _ & ->)]];
      discriminate. }
  split; [exact Hne |]. split; [intros a b ->; reflexivity |].
  assert (Hone : forall a, exists l, l <> [] /\ forall a', a' = a -> determineActions a' = l).
  { intros a. exists (determineActions a). split; [apply Hne | intros a' ->; reflexivity]. }
  repeat (constructor; [apply Hone |]). constructor.
Qed.

End Actions.

(** ** Threshold resolution *)

Section Thresholds_resolution.

Import Worker.

Lemma parseFloat_or_default (stored : option string) (dflt : number) :
  resolves stored dflt (parseFloat (or_default stored dflt)).
Proof.
  unfold resolves, or_default. destruct stored as [s |].
  - destruct (String.eqb_spec s "") as [-> | Hs]; simpl.
    + split; [discriminate |]. split; [reflexivity |].
      intros s' [= <-] Hs'. contradiction.
    + split; [discriminate |]. split; [intros [= E]; contradiction |].
      intros s' [= <-] _. reflexivity.
  - split; [reflexivity |]. split; discriminate.
Qed.

Lemma getThresholds_run (shipId : string) (w : world) :
  (forall k, io_fails w k = false) ->
  getThresholds shipId w =
  (Returned (cachedThresholds w shipId), with_io_calls (3 + io_calls w) w).
Proof.
  intros Hio. unfold getThresholds, redis_get, io, bind, ret, with_io_calls. cbn.
  repeat (rewrite Hio; cbn). reflexivity.
Qed.

End Thresholds_resolution.
Section Thresholds_claim.

Import Worker.

(** C5 as stated fails: a component stored as the empty string is present in
    the cache, and yet the default is returned for it, not the stored
    value. *)
Lemma getThresholds_empty_string_counterexample :
  let w := quiet_worker cache_empty_warning (fun _ => []) in
  redis w !! key "ship_1" "warning" = Some ""
  /\ exists t w',
      getThresholds "ship_1" w = (Returned t, w')
      /\ warning t = warning config.thresholds.default
      /\ warning t <> parseFloat (VStr "")
      /\ critical t = Fin (-4).
Proof.
  cbv zeta. split; [vm_compute; reflexivity |].
  rewrite getThresholds_run by reflexivity.
  eexists; eexists. split; [reflexivity |]. cbn [warning critical].
  split; [vm_compute; reflexivity |]. split; [vm_compute; discriminate |].
  vm_compute; reflexivity.
Qed.

(** C5 (amended): when the cache answers, [getThresholds] resolves each of
    warning, critical and target on its own: the default of that component
    when its key is absent or holds the empty string, and otherwise
    [parseFloat] of the stored string. *)
Theorem getThresholds_componentwise (shipId : string) (w : world) :
  (forall k, io_fails w k = false) ->
  exists t w',
    getThresholds shipId w = (Returned t, w')
    /\ resolves (redis w !! key shipId "warning")
                (warning config.thresholds.default) (warning t)
    /\ resolves (redis w !! key shipId "critical")
                (critical config.thresholds.default) (critical t)
    /\ resolves (redis w !! key shipId "target")
                (target config.thresholds.default) (target t).
Proof.
  intros Hio. rewrite (getThresholds_run shipId w Hio).
  eexists; eexists. split; [reflexivity |].
  cbn [warning critical target]. repeat split; apply parseFloat_or_default.
Qed.

Lemma getThresholds_componentwise_witness :
  exists t w',
    getThresholds "ship_1" (quiet_worker cache_critical_only (fun _ => [])) = (Returned t, w')
    /\ warning t = Fin (-10) /\ critical t = Fin (-9 # 2) /\ target t = Fin (-18).
Proof.
  destruct (getThresholds_componentwise "ship_1"
              (quiet_worker cache_critical_only (fun _ => [])) (fun _ => eq_refl))
    as (t & w' & Hrun & Hw & Hc & Ht).
  exists t, w'. split; [exact Hrun |].
  destruct Hw as (Hw & _). destruct Hc as (_ & _ & Hc). destruct Ht as (Ht & _).
  split; [apply Hw; vm_compute; reflexivity |].
  split; [rewrite (Hc "-4.5"); [vm_compute; reflexivity | vm_compute; reflexivity | discriminate]
         | apply Ht; vm_compute; reflexivity].
Defined.

End Thresholds_claim.
(** ** Trend detection *)

Section Trend.

Import Worker.

Lemma at_index_middle (pre : list number) (x : number) (post : list number) :
  at_index (pre ++ x :: post) (length pre) = x.
Proof. unfold at_index. rewrite list_lookup_middle by reflexivity. reflexivity. Qed.

(** The loop of the source, started anywhere in the array, counts the rising
    steps of what is left. *)
Lemma risingLoop_risingSteps (l pre : list number) (rising : nat) :
  risingLoop (pre ++ l) (length l - 1) (length pre) rising = rising + risingSteps l.
Proof.
  revert pre rising. induction l as [| a l IH]; intros pre rising.
  - simpl. lia.
  - destruct l as [| b l'].
    + simpl. lia.
    + replace (length (a :: b :: l') - 1) with (S (length (b :: l') - 1))
        by (simpl; lia).
      cbn [risingLoop]. rewrite at_index_middle.
      replace (pre ++ a :: b :: l') with ((pre ++ [a]) ++ b :: l')
        by (rewrite <- app_assoc; reflexivity).
      replace (length pre + 1) with (length (pre ++ [a]))
        by (rewrite length_app; reflexivity).
      rewrite at_index_middle.
      replace (S (length pre)) with (length (pre ++ [a]))
        by (rewrite length_app; simpl; lia).
      rewrite IH. cbn [risingSteps].
      destruct (Num.gt a b); lia.
Qed.

Lemma risingLoop_all (temps : list number) :
  risingLoop temps (length temps - 1) 0 0 = risingSteps temps.
Proof. apply (risingLoop_risingSteps temps [] 0). Qed.

Lemma at_index_newest (temps : list number) : at_index temps 0 = newest temps.
Proof. destruct temps; reflexivity. Qed.

Lemma at_index_oldest (temps : list number) :
  at_index temps (length temps - 1) = oldest temps.
Proof.
  unfold at_index, oldest. destruct temps as [| a l]; [reflexivity |].
  rewrite last_lookup. simpl. rewrite Nat.sub_0_r. reflexivity.
Qed.

Lemma trendCondition_dec (temps : list number) :
  {trendCondition temps} + {~ trendCondition temps}.
Proof.
  unfold trendCondition.
  destruct (le_dec config.worker.trendMinReadings (length temps));
    [| right; tauto].
  destruct (le_dec config.worker.trendMinRising (risingSteps temps));
    [| right; tauto].
  destruct (Num.gt (Num.sub (newest temps) (oldest temps))
                   config.worker.trendMinIncrease);
    [left; tauto | right; intros (_ & _ & H); discriminate H].
Qed.

(** The decision of [checkTemperatureTrend], for every list of rows. *)
Lemma detectTrend_spec (rows : list string) :
  let temps := temperatures rows in
  (trendCondition temps ->
   detectTrend rows = Some (newest temps, Num.sub (newest temps) (oldest temps)))
  /\ (~ trendCondition temps -> detectTrend rows = None).
Proof.
  cbv zeta. unfold detectTrend, trendCondition. fold (temperatures rows).
  rewrite risingLoop_all, at_index_newest, at_index_oldest.
  replace (length rows) with (length (temperatures rows))
    by (unfold temperatures; apply length_map).
  destruct (Nat.ltb_spec (length (temperatures rows)) config.worker.trendMinReadings) as [Hlen | Hlen].
  - split; [intros (H & _); lia | reflexivity].
  - destruct (Nat.leb_spec config.worker.trendMinRising (risingSteps (temperatures rows)))
      as [Hr | Hr].
    + destruct (Num.gt _ config.worker.trendMinIncrease) eqn:Hinc.
      * split; [reflexivity | intros H; exfalso; apply H; auto].
      * split; [intros (_ & _ & H); discriminate H | reflexivity].
    + split; [intros (_ & H & _); lia | reflexivity].
Qed.

Lemma checkTemperatureTrend_run (shipId : string) (w : world) :
  (forall k, io_fails w k = false) ->
  checkTemperatureTrend shipId w =
  match detectTrend (take config.worker.trendMaxReadings (trend_rows w shipId)) with
  | Some (t, increase) =>
      (Returned tt,
       with_events_queue
         (events_queue w ++
          [trendEvent shipId t increase (trendWindowMinutes w) (clock w) (clock w)])
         (with_io_calls (2 + io_calls w) w))
  | None => (Returned tt, with_io_calls (1 + io_calls w) w)
  end.
Proof.
  intros Hio.
  unfold checkTemperatureTrend, db_query_trend, publishEvent, sqs_send_event,
    date_now, io, gets, bind, ret, with_io_calls, with_events_queue.
  cbn. rewrite Hio. cbn.
  destruct (detectTrend _) as [[t increase] |]; [| reflexivity].
  cbn. rewrite Hio. reflexivity.
Qed.

End Trend.
Section Trend_claim.

Import Worker.

Lemma app_one_neq {A} (l : list A) (x : A) : l <> l ++ [x].
Proof.
  intros H. apply (f_equal length) in H. rewrite length_app in H. simpl in H. lia.
Qed.

(** The example of the specification: the readings -3, -4, -6, -9 (newest
    first) make three rising steps and an increase of 6, so a trend is
    due, carrying -3. *)
Lemma detectTrend_rising_sample :
  exists increase,
    detectTrend ["-3.00"; "-4.00"; "-6.00"; "-9.00"] = Some (Fin (-3), Fin increase)
    /\ (increase == 6)%Q
    /\ risingSteps (temperatures ["-3.00"; "-4.00"; "-6.00"; "-9.00"]) = 3.
Proof.
  eexists. split; [vm_compute; reflexivity |]. split; reflexivity.
Qed.

(** With fewer rows than [trendMinReadings] no trend is due, whatever the
    values. *)
Lemma detectTrend_too_few (rows : list string) :
  length rows < config.worker.trendMinReadings -> detectTrend rows = None.
Proof.
  intros Hlen. apply detectTrend_spec. intros (H & _).
  unfold temperatures in H. rewrite length_map in H. lia.
Qed.

(** C3 (amended): when its query and its send succeed,
    [checkTemperatureTrend] publishes one event exactly when the rows of the
    query (at most [trendMaxReadings], newest first) are at least
    [trendMinReadings], have at least [trendMinRising] rising steps, and the
    newest minus the oldest exceeds [trendMinIncrease], where the rows are
    read by [parseFloat] and subtracted as doubles; the event is a
    TREND_ANOMALY with actions [TREND_ALERT] and the newest temperature;
    otherwise nothing is published. *)
Theorem checkTemperatureTrend_spec (shipId : string) (w : world) :
  (forall k, io_fails w k = false) ->
  let temps := temperatures (take config.worker.trendMaxReadings (trend_rows w shipId)) in
  exists w',
    checkTemperatureTrend shipId w = (Returned tt, w')
    /\ ((exists e, events_queue w' = events_queue w ++ [e]) <-> trendCondition temps)
    /\ (forall e, events_queue w' = events_queue w ++ [e] ->
                  is_trend_event shipId (newest temps) e)
    /\ (~ trendCondition temps -> events_queue w' = events_queue w).
Proof.
  intros Hio temps. rewrite (checkTemperatureTrend_run shipId w Hio).
  destruct (detectTrend_spec (take config.worker.trendMaxReadings (trend_rows w shipId)))
    as [Hyes Hno]. fold temps in Hyes, Hno.
  destruct (trendCondition_dec temps) as [Hc | Hc].
  - rewrite (Hyes Hc). eexists. split; [reflexivity |]. cbn [events_queue with_events_queue].
    split; [split; [intros _; exact Hc | intros _; eexists; reflexivity] |].
    split; [| intros Hn; contradiction].
    intros e He. apply app_inv_head in He. injection He as <-.
    repeat split.
  - rewrite (Hno Hc). eexists. split; [reflexivity |]. cbn [events_queue with_io_calls].
    split; [split; [intros [e He]; exfalso; exact (app_one_neq _ _ He) | intros H; contradiction] |].
    split; [intros e He; exfalso; exact (app_one_neq _ _ He) | reflexivity].
Qed.

Lemma checkTemperatureTrend_spec_witness :
  exists w' e,
    checkTemperatureTrend "ship_1" (quiet_worker ∅ history_rising) = (Returned tt, w')
    /\ events_queue w' = [e]
    /\ is_trend_event "ship_1" (Fin (-3)) e.
Proof.
  destruct (checkTemperatureTrend_spec "ship_1" (quiet_worker ∅ history_rising)
              (fun _ => eq_refl)) as (w' & Hrun & Hiff & Hev & _).
  assert (Hc : trendCondition
                 (temperatures (take config.worker.trendMaxReadings
                                     (trend_rows (quiet_worker ∅ history_rising) "ship_1")))).
  { vm_compute. repeat split; lia. }
  destruct (proj2 Hiff Hc) as [e He].
  exists w', e. split; [exact Hrun |]. split; [exact He |].
  exact (Hev e He).
Defined.

(** C3 as stated fails on the decimals of the history.  The rows -15.94,
    -16.94, -17.94 are read digit for digit; they are three, with two rising
    steps, and the newest is exactly 2 above the oldest, which does not
    exceed [trendMinIncrease].  Yet each is rounded to a double, the doubles
    subtract to 2 + 2^-49, and [checkTemperatureTrend] publishes a
    TREND_ANOMALY event.  On the rows -3, -4, -5, as far apart, it publishes
    nothing. *)
Lemma checkTemperatureTrend_two_apart :
  let w := quiet_worker ∅ (fun _ => rows_two_apart) in
  ParseFloat.unsigned "15.94" = Some (Some 15.94%Q)
  /\ ParseFloat.unsigned "16.94" = Some (Some 16.94%Q)
  /\ ParseFloat.unsigned "17.94" = Some (Some 17.94%Q)
  /\ (- 15.94 - - 17.94 == 2)%Q
  /\ ~ (2 < - 15.94 - - 17.94)%Q
  /\ length rows_two_apart = 3
  /\ risingSteps (temperatures rows_two_apart) = 2
  /\ Num.sub (newest (temperatures rows_two_apart)) (oldest (temperatures rows_two_apart))
     = Fin (1125899906842625 # 562949953421312)
  /\ (2 < 1125899906842625 # 562949953421312)%Q
  /\ (exists e w',
         checkTemperatureTrend "ship_1" w = (Returned tt, w')
         /\ events_queue w' = [e]
         /\ is_trend_event "ship_1" (newest (temperatures rows_two_apart)) e)
  /\ detectTrend ["-3.00"; "-4.00"; "-5.00"] = None.
Proof.
  cbv zeta.
  split; [vm_compute; reflexivity |]. split; [vm_compute; reflexivity |].
  split; [vm_compute; reflexivity |].
  split; [reflexivity |]. split; [intros H; discriminate H |].
  split; [reflexivity |].
  split; [vm_compute; reflexivity |]. split; [vm_compute; reflexivity |].
  split; [reflexivity |]. split; [| vm_compute; reflexivity].
  rewrite checkTemperatureTrend_run by reflexivity.
  assert (Hd : detectTrend (take config.worker.trendMaxReadings rows_two_apart)
               = Some (newest (temperatures rows_two_apart),
                       Fin (1125899906842625 # 562949953421312)))
    by (vm_compute; reflexivity).
  change (trend_rows (quiet_worker ∅ (fun _ => rows_two_apart)) "ship_1")
    with rows_two_apart.
  rewrite Hd. eexists; eexists. split; [reflexivity |].
  split; [reflexivity |]. repeat split.
Qed.

End Trend_claim.
Section Actions_claim.

Import config.alertTypes config.actionTypes Worker.

(** Whatever [checkTemperatureTrend] sends, also when a call fails, is a
    TREND_ANOMALY event whose actions are [TREND_ALERT]. *)
Lemma checkTemperatureTrend_publishes (shipId : string) (w : world) :
  exists added,
    events_queue (snd (checkTemperatureTrend shipId w)) = events_queue w ++ added
    /\ Forall (fun e => alert_type (evaluation e) = TREND_ANOMALY
                        /\ actions (evaluation e) = [TREND_ALERT]) added.
Proof.
  unfold checkTemperatureTrend, db_query_trend, publishEvent, sqs_send_event,
    date_now, io, gets, bind, ret, with_io_calls, with_events_queue.
  cbn. destruct (io_fails w (io_calls w)); cbn.
  - exists []. split; [symmetry; apply app_nil_r | constructor].
  - destruct (detectTrend _) as [[t increase] |]; cbn.
    + destruct (io_fails w (S (io_calls w))); cbn.
      * exists []. split; [symmetry; apply app_nil_r | constructor].
      * eexists. split; [reflexivity |]. constructor; [split; reflexivity | constructor].
    + exists []. split; [symmetry; apply app_nil_r | constructor].
Qed.

(** C10: on every input other than CRITICAL and WARNING, TREND_ANOMALY
    included, [determineActions] returns [LOG]; it never returns
    [TREND_ALERT].  That list is built by [checkTemperatureTrend]: when a
    trend is due and the query and the send succeed, it sends one event,
    classified TREND_ANOMALY, whose actions are [TREND_ALERT] and not what
    [determineActions] gives for its classification; and whatever it sends,
    also when a call fails, carries that list. *)
Theorem determineActions_otherwise :
  (forall alertType : string,
      alertType <> CRITICAL -> alertType <> WARNING -> determineActions alertType = [LOG])
  /\ determineActions TREND_ANOMALY = [LOG]
  /\ (forall alertType : string, determineActions alertType <> [TREND_ALERT])
  /\ (forall shipId w,
         (forall k, io_fails w k = false) ->
         trendCondition
           (temperatures (take config.worker.trendMaxReadings (trend_rows w shipId))) ->
         exists e,
           events_queue (snd (checkTemperatureTrend shipId w)) = events_queue w ++ [e]
           /\ alert_type (evaluation e) = TREND_ANOMALY
           /\ actions (evaluation e) = [TREND_ALERT]
           /\ actions (evaluation e) <> determineActions (alert_type (evaluation e)))
  /\ (forall shipId w,
         exists added,
           events_queue (snd (checkTemperatureTrend shipId w)) = events_queue w ++ added
           /\ Forall (fun e => actions (evaluation e) = [TREND_ALERT]) added).
Proof.
  split; [| split; [reflexivity | split; [| split]]].
  - intros a Hc Hw.
    destruct (determineActions_cases a) as [[E _] | [[E _] | (_ & _ & E)]];
      [contradiction | contradiction | exact E].
  - intros a.
    destruct (determineActions_cases a) as [[_ ->] | [[_ ->] | (_ & _ & ->)]];
      discriminate.
  - intros shipId w Hio Hc.
    rewrite (checkTemperatureTrend_run shipId w Hio).
    rewrite (proj1 (detectTrend_spec _) Hc).
    eexists. split; [reflexivity |]. cbn. repeat split. discriminate.
  - intros shipId w.
    destruct (checkTemperatureTrend_publishes shipId w) as (added & Hq & Hall).
    exists added. split; [exact Hq |].
    eapply Forall_impl; [exact Hall | intros e [_ H]; exact H].
Qed.

Lemma determineActions_otherwise_witness :
  determineActions "OVERHEATED" = [LOG]
  /\ determineActions "" = [LOG]
  /\ exists e,
      events_queue (snd (checkTemperatureTrend "ship_1" (quiet_worker ∅ history_rising)))
      = [e]
      /\ alert_type (evaluation e) = TREND_ANOMALY
      /\ actions (evaluation e) = [TREND_ALERT]
      /\ actions (evaluation e) <> determineActions (alert_type (evaluation e)).
Proof.
  split; [apply (proj1 determineActions_otherwise); discriminate |].
  split; [apply (proj1 determineActions_otherwise); discriminate |].
  apply (proj1 (proj2 (proj2 (proj2 determineActions_otherwise)))
           "ship_1" (quiet_worker ∅ history_rising)).
  - reflexivity.
  - vm_compute. repeat split; lia.
Defined.

End Actions_claim.
(** ** The Worker on one reading *)

Section Worker_run.

Import Worker.

Lemma processTelemetry_run (reading : Telemetry) (w : world) :
  (forall k, io_fails w k = false) ->
  processTelemetry reading w =
  checkTemperatureTrend (ship_id reading)
    (with_events_queue
       (events_queue w ++
        [processedEvent reading (cachedThresholds w (ship_id reading)) (clock w)])
       (with_io_calls (4 + io_calls w) w)).
Proof.
  intros Hio. unfold processTelemetry, bind at 1.
  rewrite (getThresholds_run _ _ Hio). fold (cachedThresholds w (ship_id reading)).
  unfold publishEvent, sqs_send_event, date_now, io, gets, bind, ret,
    with_io_calls, with_events_queue.
  cbn. rewrite Hio. reflexivity.
Qed.

(** Under working services a reading is processed to the end, and the queue
    receives its TELEMETRY_PROCESSED event, followed by at most the trend
    event. *)
Lemma processTelemetry_publishes (reading : Telemetry) (w : world) :
  (forall k, io_fails w k = false) ->
  exists w' rest,
    processTelemetry reading w = (Returned tt, w')
    /\ events_queue w' =
       events_queue w
       ++ processedEvent reading (cachedThresholds w (ship_id reading)) (clock w) :: rest.
Proof.
  intros Hio. rewrite (processTelemetry_run reading w Hio).
  set (w1 := with_events_queue _ _).
  assert (Hio1 : forall k, io_fails w1 k = false) by exact Hio.
  rewrite (checkTemperatureTrend_run _ _ Hio1).
  destruct (detectTrend _) as [[t inc] |]; eexists; eexists;
    (split; [reflexivity |]); subst w1; cbn [events_queue with_events_queue with_io_calls];
    [rewrite <- app_assoc; reflexivity | reflexivity].
Qed.

End Worker_run.
(** ** Reasoning about computations *)

Section Computations.

Context {W : Type}.

Lemma bind_ret_tt (c : M W unit) (w : W) : (c ;;; ret tt) w = c w.
Proof. unfold bind, ret. destruct (c w) as [[[] | e] w']; reflexivity. Qed.

Lemma bind_returned {A B} (c : M W A) (k : A -> M W B) (w w' : W) (b : B) :
  (x <- c ;; k x) w = (Returned b, w') ->
  exists a w1, c w = (Returned a, w1) /\ k a w1 = (Returned b, w').
Proof.
  unfold bind. destruct (c w) as [[a | e] w1]; [| discriminate].
  intros H. exists a, w1. split; [reflexivity | exact H].
Qed.

Section Along.

Variable T : W -> W -> Prop.
Hypothesis T_refl : forall w, T w w.
Hypothesis T_trans : forall w1 w2 w3, T w1 w2 -> T w2 w3 -> T w1 w3.

Lemma along_ret {A} (a : A) : moves_along T (ret a).
Proof. intros w. apply T_refl. Qed.

Lemma along_throw {A} (e : error) : moves_along T (@throw W A e).
Proof. intros w. apply T_refl. Qed.

Lemma along_gets {A} (f : W -> A) : moves_along T (gets f).
Proof. intros w. apply T_refl. Qed.

Lemma along_bind {A B} (c : M W A) (k : A -> M W B) :
  moves_along T c -> (forall a, moves_along T (k a)) -> moves_along T (x <- c ;; k x).
Proof.
  intros Hc Hk w. unfold bind. specialize (Hc w).
  destruct (c w) as [[a | e] w1]; cbn in *; [| exact Hc].
  eapply T_trans; [exact Hc | apply Hk].
Qed.

Lemma along_when (b : bool) (c : M W unit) :
  moves_along T c -> moves_along T (when b c).
Proof. intros Hc. destruct b; [exact Hc | apply along_ret]. Qed.

End Along.

Section Respects.

Variable R : W -> W -> Prop.

Lemma respects_ret {A} (a : A) : respects R (ret a).
Proof. intros w1 w2 H. split; [reflexivity | exact H]. Qed.

Lemma respects_throw {A} (e : error) : respects R (@throw W A e).
Proof. intros w1 w2 H. split; [reflexivity | exact H]. Qed.

Lemma respects_bind {A B} (c : M W A) (k : A -> M W B) :
  respects R c -> (forall a, respects R (k a)) -> respects R (x <- c ;; k x).
Proof.
  intros Hc Hk w1 w2 H. unfold bind. destruct (Hc w1 w2 H) as [Ho Hw].
  destruct (c w1) as [[a1 | e1] w1'], (c w2) as [[a2 | e2] w2']; cbn in *;
    try discriminate.
  - injection Ho as <-. apply Hk. exact Hw.
  - injection Ho as <-. split; [reflexivity | exact Hw].
Qed.

Lemma respects_when (b : bool) (c : M W unit) :
  respects R c -> respects R (when b c).
Proof. intros Hc. destruct b; [exact Hc | apply respects_ret]. Qed.

Lemma respects_try_catch {A} (c : M W A) (h : error -> M W A) :
  respects R c -> (forall e, respects R (h e)) -> respects R (try_catch c h).
Proof.
  intros Hc Hh w1 w2 H. unfold try_catch. destruct (Hc w1 w2 H) as [Ho Hw].
  destruct (c w1) as [[a1 | e1] w1'], (c w2) as [[a2 | e2] w2']; cbn in *;
    try discriminate.
  - injection Ho as <-. split; [reflexivity | exact Hw].
  - injection Ho as <-. apply Hh. exact Hw.
Qed.

End Respects.

End Computations.
(** ** The Executor on one event *)

Section Executor_run.

Import config.alertTypes config.actionTypes Executor.

(** [sendNotification] always returns, and all it does is attempt the POST
    when the webhook is enabled and has a URL. *)
Lemma sendNotification_run (t : Telemetry) (e : Evaluation) (w : world) :
  sendNotification t e w =
  (Returned tt, with_webhook_posts (webhook_posts w ++ notification w t e) w).
Proof.
  destruct w as [tr al ta en url posts del n clk dbc dbf ff sc sf].
  unfold sendNotification, notification, fetch, try_catch, gets, bind, ret,
    with_webhook_posts.
  cbn. destruct en; cbn; [| rewrite app_nil_r; reflexivity].
  destruct (url_missing url); cbn; [rewrite app_nil_r; reflexivity |].
  destruct (ff (length posts)); reflexivity.
Qed.

Ltac run_stores Hdb :=
  unfold storeTelemetry, storeAlert, storeTemperatureAction, thresholds_field,
    db_query, date_now, gets, bind, ret, throw, with_db_calls,
    with_telemetry_readings, with_alerts, with_temperature_actions,
    with_webhook_posts;
  cbn; repeat (rewrite Hdb; cbn).

(** What the Executor does with the event of a CRITICAL reading when the
    database accepts its inserts. *)
Lemma critical_event_run (ev : Event) (t : Thresholds) (w : world) :
  alert_type (evaluation ev) = CRITICAL ->
  thresholds (evaluation ev) = Some t ->
  actions (evaluation ev) = [LOG; ADJUST_TEMPERATURE; NOTIFY_CRITICAL] ->
  (forall k, db_fails w k = false) ->
  exists w',
    processEvent ev w = (Returned tt, w')
    /\ telemetry_readings w' =
       telemetry_readings w ++ [telemetryRow (telemetry ev) (clock w)]
    /\ alerts w' =
       alerts w
       ++ [alertRow (telemetry ev) (evaluation ev) ADJUST_TEMPERATURE (critical t) (clock w);
           alertRow (telemetry ev) (evaluation ev) NOTIFY_CRITICAL (critical t) (clock w)]
    /\ temperature_actions w' =
       temperature_actions w ++ [actionRow (telemetry ev) (target t) (clock w)]
    /\ webhook_posts w' =
       webhook_posts w ++ notification w (telemetry ev) (evaluation ev).
Proof.
  intros Ha Ht Hacts Hdb.
  destruct ev as [ety tel [aty ths acts msg] pat]. cbn in Ha, Ht, Hacts. subst.
  destruct w as [tr al ta en url posts del n clk dbc dbf ff sc sf]. cbn in Hdb.
  unfold processEvent. cbn [evaluation actions telemetry forEachAction].
  unfold dispatch, when. cbn.
  run_stores Hdb.
  unfold notification, fetch, try_catch, ret, with_webhook_posts. cbn.
  destruct en; cbn;
    [destruct (url_missing url); cbn; [| destruct (ff (length posts)); cbn] |];
    eexists; (split; [reflexivity |]); cbn;
    rewrite ?app_nil_r, <- ?app_assoc; repeat split.
Qed.



Lemma alerts_grow_refl (w : world) : alerts_grow w w.
Proof. exists []. symmetry. apply app_nil_r. Qed.

Lemma alerts_grow_trans (w1 w2 w3 : world) :
  alerts_grow w1 w2 -> alerts_grow w2 w3 -> alerts_grow w1 w3.
Proof.
  intros [a1 H1] [a2 H2]. exists (a1 ++ a2). rewrite H2, H1. symmetry. apply app_assoc.
Qed.

Local Abbreviation along := (moves_along alerts_grow).
Local Abbreviation along_seq := (along_bind alerts_grow alerts_grow_trans).
Local Abbreviation along_if := (along_when alerts_grow alerts_grow_refl).

Ltac grow_nil := exists []; cbn; symmetry; apply app_nil_r.

Lemma along_db_query (insert : world -> world) :
  (forall w, alerts_grow w (insert w)) -> along (db_query insert).
Proof.
  intros Hins w. unfold db_query. destruct (db_fails w (db_calls w)); cbn.
  - grow_nil.
  - destruct (Hins (with_db_calls (S (db_calls w)) w)) as [added H].
    exists added. exact H.
Qed.

Lemma along_thresholds_field (f : Thresholds -> number) (e : Evaluation) :
  along (thresholds_field f e).
Proof.
  unfold thresholds_field. destruct (thresholds e);
    [apply along_ret | apply along_throw]; apply alerts_grow_refl.
Qed.

Lemma along_storeTelemetry (t : Telemetry) : along (storeTelemetry t).
Proof.
  apply along_seq; [apply along_gets, alerts_grow_refl |].
  intros now. apply along_db_query. intros w. grow_nil.
Qed.

Lemma along_storeAlert (t : Telemetry) (e : Evaluation) (a : string) :
  along (storeAlert t e a).
Proof.
  apply along_seq.
  - repeat match goal with |- context [if ?b then _ else _] => destruct b end;
      try apply along_thresholds_field; apply along_ret, alerts_grow_refl.
  - intros th. apply along_seq; [apply along_gets, alerts_grow_refl |].
    intros now. apply along_db_query. intros w. eexists. reflexivity.
Qed.

Lemma along_storeTemperatureAction (t : Telemetry) (x : number) :
  along (storeTemperatureAction t x).
Proof.
  apply along_seq; [apply along_gets, alerts_grow_refl |].
  intros now. apply along_db_query. intros w. grow_nil.
Qed.

Lemma along_sendNotification (t : Telemetry) (e : Evaluation) :
  along (sendNotification t e).
Proof. intros w. rewrite sendNotification_run. grow_nil. Qed.

Lemma along_dispatch (t : Telemetry) (e : Evaluation) (a : string) :
  along (dispatch t e a).
Proof.
  assert (Hnotify : along (storeAlert t e a ;;; sendNotification t e)).
  { apply along_seq; [apply along_storeAlert | intros _; apply along_sendNotification]. }
  unfold dispatch.
  apply along_seq; [apply along_if, along_storeTelemetry | intros _].
  apply along_seq; [apply along_if, Hnotify | intros _].
  apply along_seq; [apply along_if, Hnotify | intros _].
  apply along_seq; [apply along_if | intros _; apply along_if, along_storeAlert].
  apply along_seq; [apply along_storeAlert | intros _].
  apply along_seq; [apply along_thresholds_field | intros x].
  apply along_storeTemperatureAction.
Qed.

Lemma along_forEachAction (t : Telemetry) (e : Evaluation) (todo : list string) :
  along (forEachAction t e todo).
Proof.
  induction todo as [| a rest IH]; cbn [forEachAction].
  - apply along_ret, alerts_grow_refl.
  - apply along_seq; [apply along_dispatch | intros _; exact IH].
Qed.

(** A completed [storeAlert] has appended one row: the event's alert type,
    the action, and as threshold the critical or warning threshold of a
    CRITICAL or WARNING event and 0 for every other alert type. *)
Lemma storeAlert_returned (t : Telemetry) (e : Evaluation) (a : string) (w w' : world) :
  storeAlert t e a w = (Returned tt, w') ->
  exists th,
    alerts w' = alerts w ++ [alertRow t e a th (clock w)]
    /\ (alert_type e <> CRITICAL -> alert_type e <> WARNING -> th = Num.of_Z 0).
Proof.
  destruct w as [tr al ta en url posts del n clk dbc dbf ff sc sf].
  unfold storeAlert, thresholds_field, db_query, date_now, gets, bind, ret, throw,
    with_db_calls, with_alerts.
  destruct (String.eqb_spec (alert_type e) CRITICAL) as [Hc | Hc];
    [| destruct (String.eqb_spec (alert_type e) WARNING) as [Hw | Hw]];
    try (destruct (thresholds e); cbn; [| discriminate]);
    cbn; destruct (dbf dbc); try discriminate;
    intros [= <-]; eexists; (split; [reflexivity |]); intros; congruence.
Qed.

Lemma dispatch_trend_alert (t : Telemetry) (e : Evaluation) (w : world) :
  dispatch t e TREND_ALERT w = storeAlert t e TREND_ALERT w.
Proof. reflexivity. Qed.

(** A completed run over actions that contain TREND_ALERT has appended the
    row of that action somewhere among the new alerts. *)
Lemma forEachAction_trend_alert (t : Telemetry) (e : Evaluation) (todo : list string)
      (w w' : world) :
  In TREND_ALERT todo ->
  forEachAction t e todo w = (Returned tt, w') ->
  exists pre th now post,
    alerts w' = alerts w ++ pre ++ alertRow t e TREND_ALERT th now :: post
    /\ (alert_type e <> CRITICAL -> alert_type e <> WARNING -> th = Num.of_Z 0).
Proof.
  revert w. induction todo as [| a rest IH]; intros w Hin Hrun; [destruct Hin |].
  cbn [forEachAction] in Hrun.
  apply bind_returned in Hrun as ([] & w1 & Hd & Hrest).
  destruct (String.eqb_spec a TREND_ALERT) as [-> | Hne].
  - rewrite dispatch_trend_alert in Hd.
    apply storeAlert_returned in Hd as (th & Hal & Hth).
    destruct (along_forEachAction t e rest w1) as [post Hpost].
    rewrite Hrest in Hpost. cbn in Hpost.
    exists [], th, (clock w), post. split; [| exact Hth].
    rewrite Hpost, Hal, <- app_assoc. reflexivity.
  - destruct Hin as [-> | Hin]; [contradiction |].
    destruct (IH w1 Hin Hrest) as (pre & th & now & post & Hal & Hth).
    destruct (along_dispatch t e a w) as [added Hadd].
    rewrite Hd in Hadd. cbn in Hadd.
    exists (added ++ pre), th, now, post. split; [| exact Hth].
    rewrite Hal, Hadd, <- !app_assoc. reflexivity.
Qed.

(** What the Executor does with a trend event of the Worker when the
    database accepts the insert. *)
Lemma trend_event_run (ev : Event) (w : world) :
  actions (evaluation ev) = [TREND_ALERT] ->
  alert_type (evaluation ev) = TREND_ANOMALY ->
  db_fails w (db_calls w) = false ->
  exists w',
    processEvent ev w = (Returned tt, w')
    /\ alerts w' =
       alerts w ++ [alertRow (telemetry ev) (evaluation ev) TREND_ALERT (Num.of_Z 0) (clock w)]
    /\ telemetry_readings w' = telemetry_readings w
    /\ temperature_actions w' = temperature_actions w
    /\ webhook_posts w' = webhook_posts w.
Proof.
  intros Hacts Ha Hdb.
  destruct ev as [ety tel [aty ths acts msg] pat]. cbn in Ha, Hacts. subst.
  destruct w as [tr al ta en url posts del n clk dbc dbf ff sc sf]. cbn in Hdb.
  unfold processEvent. cbn [evaluation actions telemetry forEachAction].
  unfold dispatch, when. cbn.
  run_stores Hdb. eexists. repeat split.
Qed.

End Executor_run.

Section End_to_end.

Import config.alertTypes config.actionTypes Executor.

(** C2 as stated fails: for the reading -1 under the thresholds -10 and -5
    the Executor inserts two alerts, not one: both ADJUST_TEMPERATURE and
    NOTIFY_CRITICAL store one. *)
Lemma critical_reading_two_alerts_counterexample :
  exists ev wB' wC' a1 a2,
    Worker.processTelemetry reading_minus_one (quiet_worker ∅ (fun _ => []))
    = (Returned tt, wB')
    /\ Worker.events_queue wB' = [ev]
    /\ actions (evaluation ev) = [LOG; ADJUST_TEMPERATURE; NOTIFY_CRITICAL]
    /\ processEvent ev quiet_executor = (Returned tt, wC')
    /\ alerts wC' = [a1; a2]
    /\ al_alert_type a1 = CRITICAL /\ al_alert_type a2 = CRITICAL
    /\ length (alerts wC') <> 1.
Proof.
  do 5 eexists.
  split; [vm_compute; reflexivity |].
  split; [reflexivity |]. split; [reflexivity |].
  split; [vm_compute; reflexivity |].
  split; [reflexivity |]. split; [reflexivity |]. split; [reflexivity |].
  discriminate.
Qed.

(** C2 (amended): for a reading of -1 under the thresholds -10 (warning) and
    -5 (critical), with the services answering, the Worker publishes an event
    classified CRITICAL with actions [LOG, ADJUST_TEMPERATURE,
    NOTIFY_CRITICAL]; on it [processEvent] inserts one telemetry row, two
    alerts classified CRITICAL (one for ADJUST_TEMPERATURE, one for
    NOTIFY_CRITICAL), one temperature action with status PENDING, and calls
    [sendNotification] once, which attempts one POST when the webhook is
    enabled and has a URL and none otherwise. *)
Theorem critical_reading_end_to_end
        (reading : Telemetry) (wB : Worker.world) (wC : world) :
  temp reading = Num.of_Z (-1) ->
  warning (cachedThresholds wB (ship_id reading)) = Num.of_Z (-10) ->
  critical (cachedThresholds wB (ship_id reading)) = Num.of_Z (-5) ->
  (forall k, Worker.io_fails wB k = false) ->
  (forall k, db_fails wC k = false) ->
  exists ev rest wB' wC',
    Worker.processTelemetry reading wB = (Returned tt, wB')
    /\ Worker.events_queue wB' = Worker.events_queue wB ++ ev :: rest
    /\ telemetry ev = reading
    /\ alert_type (evaluation ev) = CRITICAL
    /\ actions (evaluation ev) = [LOG; ADJUST_TEMPERATURE; NOTIFY_CRITICAL]
    /\ processEvent ev wC = (Returned tt, wC')
    /\ (exists row, telemetry_readings wC' = telemetry_readings wC ++ [row])
    /\ (exists a1 a2,
           alerts wC' = alerts wC ++ [a1; a2]
           /\ al_alert_type a1 = CRITICAL /\ al_action_taken a1 = ADJUST_TEMPERATURE
           /\ al_alert_type a2 = CRITICAL /\ al_action_taken a2 = NOTIFY_CRITICAL)
    /\ (exists act,
           temperature_actions wC' = temperature_actions wC ++ [act]
           /\ ac_status act = "PENDING")
    /\ webhook_posts wC' = webhook_posts wC ++ notification wC reading (evaluation ev)
    /\ length (notification wC reading (evaluation ev)) <= 1.
Proof.
  intros Htemp Hw Hc Hio Hdb.
  destruct (processTelemetry_publishes reading wB Hio) as (wB' & rest & Hrun & Hq).
  set (t := cachedThresholds wB (ship_id reading)) in *.
  set (ev := processedEvent reading t (Worker.clock wB)) in *.
  assert (Hty : alert_type (evaluation ev) = CRITICAL).
  { subst ev. cbn. rewrite Htemp. unfold determineAlertType. rewrite Hc. reflexivity. }
  assert (Hacts : actions (evaluation ev) = [LOG; ADJUST_TEMPERATURE; NOTIFY_CRITICAL]).
  { subst ev. cbn. cbn in Hty. rewrite Hty. reflexivity. }
  destruct (critical_event_run ev t wC Hty eq_refl Hacts Hdb)
    as (wC' & HrunC & Htr & Hal & Hta & Hposts).
  exists ev, rest, wB', wC'.
  split; [exact Hrun |]. split; [exact Hq |]. split; [reflexivity |].
  split; [exact Hty |]. split; [exact Hacts |]. split; [exact HrunC |].
  split; [eexists; exact Htr |].
  split; [do 2 eexists; split; [exact Hal |]; cbn; rewrite ?Hty; repeat split; exact Hty |].
  split; [eexists; split; [exact Hta | reflexivity] |].
  split; [exact Hposts |].
  unfold notification. destruct (_ && _); simpl; lia.
Qed.

Lemma critical_reading_end_to_end_witness :
  exists ev wC',
    processEvent ev quiet_executor = (Returned tt, wC')
    /\ alert_type (evaluation ev) = CRITICAL
    /\ length (telemetry_readings wC') = 1
    /\ length (alerts wC') = 2
    /\ length (temperature_actions wC') = 1
    /\ length (webhook_posts wC') = 1.
Proof.
  assert (Hw : warning (cachedThresholds (quiet_worker ∅ (fun _ => []))
                                         (ship_id reading_minus_one)) = Num.of_Z (-10))
    by (vm_compute; reflexivity).
  assert (Hc : critical (cachedThresholds (quiet_worker ∅ (fun _ => []))
                                          (ship_id reading_minus_one)) = Num.of_Z (-5))
    by (vm_compute; reflexivity).
  destruct (critical_reading_end_to_end reading_minus_one
              (quiet_worker ∅ (fun _ => [])) quiet_executor
              eq_refl Hw Hc (fun _ => eq_refl) (fun _ => eq_refl))
    as (ev & rest & wB' & wC' & Hrun & Hq & Htel & Hty & Hacts & HrunC
        & [row Htr] & (a1 & a2 & Hal & _) & (act & Hta & _) & Hposts & _).
  exists ev, wC'. split; [exact HrunC |]. split; [exact Hty |].
  rewrite Htr, Hal, Hta, Hposts. repeat split.
Defined.

End End_to_end.
Section Trend_alert.

Import config.alertTypes config.actionTypes Executor.

(** C9 as stated fails: for the trend event the Worker publishes, the alert
    row is stored with threshold 0, not without a threshold. *)
Lemma trend_alert_threshold_counterexample :
  exists ev wB' wC' row,
    Worker.checkTemperatureTrend "ship_1" (quiet_worker ∅ history_rising)
    = (Returned tt, wB')
    /\ Worker.events_queue wB' = [ev]
    /\ In TREND_ALERT (actions (evaluation ev))
    /\ processEvent ev quiet_executor = (Returned tt, wC')
    /\ alerts wC' = [row]
    /\ al_alert_type row = TREND_ANOMALY
    /\ al_threshold row = Some (Num.of_Z 0)
    /\ al_threshold row <> None.
Proof.
  do 4 eexists.
  split; [vm_compute; reflexivity |].
  split; [reflexivity |]. split; [left; reflexivity |].
  split; [vm_compute; reflexivity |].
  split; [reflexivity |]. split; [reflexivity |]. split; [reflexivity |].
  discriminate.
Qed.

(** C9 (amended): for every event whose actions contain TREND_ALERT, a
    completed [processEvent] has appended an alert row for that action; the
    row carries the alert type of the event, and a threshold that is never
    absent: it is 0 when the alert type is TREND_ANOMALY.  For an event as
    the Worker publishes it (alert type TREND_ANOMALY, actions [TREND_ALERT])
    [processEvent] completes whenever the insert succeeds, and that row is
    all it stores. *)
Theorem trend_alert_row (ev : Event) (w : world) :
  In TREND_ALERT (actions (evaluation ev)) ->
  (forall w',
      processEvent ev w = (Returned tt, w') ->
      exists pre row post,
        alerts w' = alerts w ++ pre ++ row :: post
        /\ al_action_taken row = TREND_ALERT
        /\ al_alert_type row = alert_type (evaluation ev)
        /\ al_threshold row <> None
        /\ (alert_type (evaluation ev) = TREND_ANOMALY ->
            al_threshold row = Some (Num.of_Z 0)))
  /\ (actions (evaluation ev) = [TREND_ALERT] ->
      alert_type (evaluation ev) = TREND_ANOMALY ->
      db_fails w (db_calls w) = false ->
      exists w' row,
        processEvent ev w = (Returned tt, w')
        /\ alerts w' = alerts w ++ [row]
        /\ al_alert_type row = TREND_ANOMALY
        /\ al_threshold row = Some (Num.of_Z 0)
        /\ telemetry_readings w' = telemetry_readings w
        /\ temperature_actions w' = temperature_actions w
        /\ webhook_posts w' = webhook_posts w).
Proof.
  intros Hin. split.
  - intros w' Hrun. unfold processEvent in Hrun.
    destruct (forEachAction_trend_alert _ _ _ _ _ Hin Hrun)
      as (pre & th & now & post & Hal & Hth).
    exists pre, (alertRow (telemetry ev) (evaluation ev) TREND_ALERT th now), post.
    split; [exact Hal |]. split; [reflexivity |]. split; [reflexivity |].
    split; [discriminate |].
    intros Hty. cbn. f_equal. apply Hth; rewrite Hty; discriminate.
  - intros Hacts Hty Hdb.
    destruct (trend_event_run ev w Hacts Hty Hdb) as (w' & Hrun & Hal & Htr & Hta & Hp).
    exists w', (alertRow (telemetry ev) (evaluation ev) TREND_ALERT (Num.of_Z 0) (clock w)).
    split; [exact Hrun |]. split; [exact Hal |]. split; [exact Hty |].
    split; [reflexivity |]. auto.
Qed.

Lemma trend_alert_row_witness :
  let ev := Worker.trendEvent "ship_1" (Fin (-3)) (Fin 6) 5
              "2026-01-01T00:00:00.000Z" "2026-01-01T00:00:00.000Z" in
  exists w' row,
    processEvent ev quiet_executor = (Returned tt, w')
    /\ alerts w' = [row]
    /\ al_alert_type row = TREND_ANOMALY
    /\ al_threshold row = Some (Num.of_Z 0).
Proof.
  intros ev.
  destruct (trend_alert_row ev quiet_executor (or_introl eq_refl)) as [_ H].
  destruct (H eq_refl eq_refl eq_refl) as (w' & row & Hrun & Hal & Hty & Hth & _).
  exists w', row. auto.
Defined.

End Trend_alert.
(** ** The consumer loop *)

Section Consumer_facts.

Context {W P : Type}.
Variable process : P -> M W unit.
Variable count : W -> W.
Variable deleteMessageBatch : list Entry -> M W unit.

(** The loop over a batch never throws: it returns the entries of the
    messages whose processing completed, after those it started with. *)
Lemma forEachMessage_run (msgs : list (SqsMessage P)) (processed : list Entry) (w : W) :
  forEachMessage process count msgs processed w =
  (Returned (processed ++ completed msgs (outcomes process count msgs w)),
   world_after process count msgs w).
Proof.
  revert processed w. induction msgs as [| msg rest IH]; intros processed w.
  - cbn. rewrite app_nil_r. reflexivity.
  - cbn [forEachMessage outcomes world_after completed].
    unfold bind at 1, modify at 1. unfold bind at 1, try_catch, bind at 1.
    destruct (handle process msg (count w)) as [[[] | e] w1] eqn:E; cbn.
    + rewrite IH, <- app_assoc. reflexivity.
    + rewrite IH. reflexivity.
Qed.

Lemma outcomes_length (msgs : list (SqsMessage P)) (w : W) :
  length (outcomes process count msgs w) = length msgs.
Proof.
  revert w. induction msgs as [| msg rest IH]; intros w; cbn; [| rewrite IH]; reflexivity.
Qed.

Lemma world_after_app (pre post : list (SqsMessage P)) (w : W) :
  world_after process count (pre ++ post) w
  = world_after process count post (world_after process count pre w).
Proof.
  revert w. induction pre as [| msg rest IH]; intros w; cbn; [| rewrite IH]; reflexivity.
Qed.

Lemma outcomes_app (pre post : list (SqsMessage P)) (w : W) :
  outcomes process count (pre ++ post) w
  = outcomes process count pre w
    ++ outcomes process count post (world_after process count pre w).
Proof.
  revert w. induction pre as [| msg rest IH]; intros w; cbn; [| rewrite IH]; reflexivity.
Qed.

Lemma completed_app (pre post : list (SqsMessage P)) (oks1 oks2 : list bool) :
  length oks1 = length pre ->
  completed (pre ++ post) (oks1 ++ oks2) = completed pre oks1 ++ completed post oks2.
Proof.
  revert oks1. induction pre as [| msg rest IH]; intros [| ok oks1] Hlen;
    try discriminate; cbn.
  - reflexivity.
  - rewrite IH by (cbn in Hlen; lia). apply app_assoc.
Qed.

(** The loop over a batch computes the isolated processing of the batch. *)
Lemma forEachMessage_batch (msgs : list (SqsMessage P)) (processed : list Entry) (w : W) :
  forEachMessage process count msgs processed w
  = (Returned (processed ++ fst (batch process count msgs w)),
     snd (batch process count msgs w)).
Proof.
  revert processed w. induction msgs as [| msg rest IH]; intros processed w.
  - cbn. rewrite app_nil_r. reflexivity.
  - cbn [forEachMessage batch fst snd].
    unfold bind at 1, modify at 1. unfold bind at 1, try_catch, bind at 1.
    unfold handle, item, JSON_parse.
    destruct (Body msg) as [p |]; cbn.
    + destruct (process p (count w)) as [[[] | e] w1]; cbn.
      * rewrite IH, <- app_assoc. reflexivity.
      * rewrite IH. reflexivity.
    + rewrite IH. reflexivity.
Qed.

Lemma batch_app (pre post : list (SqsMessage P)) (w : W) :
  batch process count (pre ++ post) w
  = (fst (batch process count pre w)
     ++ fst (batch process count post (snd (batch process count pre w))),
     snd (batch process count post (snd (batch process count pre w)))).
Proof.
  revert w. induction pre as [| msg rest IH]; intros w; cbn [app batch fst snd].
  - destruct (batch process count post w); reflexivity.
  - rewrite IH. cbn [fst snd].
    destruct (fst (item process count msg w)); reflexivity.
Qed.

(** A turn of the loop on a batch: the batch is processed, and its tokens,
    when there are some, are handed to one delete call, whose error is
    caught. *)
Lemma loopBody_batch (msgs : list (SqsMessage P)) (w : W) :
  loopBody process count deleteMessageBatch (Returned (Some msgs)) w
  = (Returned tt,
     match fst (batch process count msgs w) with
     | [] => snd (batch process count msgs w)
     | tokens => snd (deleteMessageBatch tokens (snd (batch process count msgs w)))
     end).
Proof.
  unfold loopBody, try_catch, consumeBatch.
  destruct msgs as [| msg rest]; [reflexivity |].
  unfold bind at 1. rewrite forEachMessage_batch. cbn [app].
  destruct (fst (batch process count (msg :: rest) w)) as [| t ts]; [reflexivity |].
  cbn [length Nat.ltb Nat.leb when].
  destruct (deleteMessageBatch (t :: ts) _) as [[[] | e] w2]; reflexivity.
Qed.

(** After a batch that is not empty, the delete call is made exactly when
    some message completed, with the entries of the completed messages. *)
Lemma consumeBatch_run (msg : SqsMessage P) (rest : list (SqsMessage P)) (w : W) :
  let msgs := msg :: rest in
  let processed := completed msgs (outcomes process count msgs w) in
  consumeBatch process count deleteMessageBatch (Some msgs) w =
  match processed with
  | [] => (Returned tt, world_after process count msgs w)
  | _ :: _ => deleteMessageBatch processed (world_after process count msgs w)
  end.
Proof.
  cbv zeta. unfold consumeBatch, bind. rewrite forEachMessage_run.
  change ([] ++ ?l) with l.
  generalize (completed (msg :: rest) (outcomes process count (msg :: rest) w)).
  intros [| e l]; reflexivity.
Qed.

End Consumer_facts.
Section Batch_claim.

(** C6: in the Worker and in the Executor alike, a batch is processed item
    by item in isolation.  The loop of the source computes [batch]: every
    item is handed to [processTelemetry] (to [processEvent]) in the world
    the item before it left, whether that one completed or threw.  A turn
    hands to the batch delete, in one call, exactly the tokens (message id
    and receipt handle) of the items whose processing completed, and makes
    no call when none completed.  In particular, when an item of the batch
    throws, the items after it are still processed, their tokens and those
    of the items before it are handed over, and its own token is withheld. *)
Theorem batch_isolation :
  (forall msgs w,
      let b := batch Worker.processTelemetry Worker.countMessage msgs w in
      forEachMessage Worker.processTelemetry Worker.countMessage msgs [] w
      = (Returned (fst b), snd b)
      /\ Worker.startWorker_turn (Returned (Some msgs)) w
         = (Returned tt,
            match fst b with
            | [] => snd b
            | tokens => snd (Worker.deleteMessageBatch tokens (snd b))
            end)
      /\ Worker.deleted (snd (Worker.startWorker_turn (Returned (Some msgs)) w))
         = Worker.deleted (snd b)
           ++ match fst b with
              | [] => []
              | tokens =>
                  if Worker.io_fails (snd b) (Worker.io_calls (snd b)) then []
                  else [tokens]
              end)
  /\ (forall msgs w,
         let b := batch Executor.processEvent Executor.countEvent msgs w in
         forEachMessage Executor.processEvent Executor.countEvent msgs [] w
         = (Returned (fst b), snd b)
         /\ Executor.startExecutor_turn (Returned (Some msgs)) w
            = (Returned tt,
               match fst b with
               | [] => snd b
               | tokens => snd (Executor.deleteMessageBatch tokens (snd b))
               end)
         /\ Executor.deleted (snd (Executor.startExecutor_turn (Returned (Some msgs)) w))
            = Executor.deleted (snd b)
              ++ match fst b with
                 | [] => []
                 | tokens =>
                     if Executor.sqs_fails (snd b) (Executor.sqs_calls (snd b)) then []
                     else [tokens]
                 end)
  /\ (forall pre msg post w e w2,
         let before := batch Worker.processTelemetry Worker.countMessage pre w in
         item Worker.processTelemetry Worker.countMessage msg (snd before)
         = (Thrown e, w2) ->
         let after := batch Worker.processTelemetry Worker.countMessage post w2 in
         forEachMessage Worker.processTelemetry Worker.countMessage
                        (pre ++ msg :: post) [] w
         = (Returned (fst before ++ fst after), snd after))
  /\ (forall pre msg post w e w2,
         let before := batch Executor.processEvent Executor.countEvent pre w in
         item Executor.processEvent Executor.countEvent msg (snd before)
         = (Thrown e, w2) ->
         let after := batch Executor.processEvent Executor.countEvent post w2 in
         forEachMessage Executor.processEvent Executor.countEvent
                        (pre ++ msg :: post) [] w
         = (Returned (fst before ++ fst after), snd after)).
Proof.
  split; [| split; [| split]].
  - intros msgs w b. subst b.
    split; [apply (forEachMessage_batch _ _ msgs []) |].
    unfold Worker.startWorker_turn. rewrite loopBody_batch.
    split; [reflexivity |]. cbn [snd].
    destruct (fst (batch _ _ msgs w)) as [| t ts]; [symmetry; apply app_nil_r |].
    unfold Worker.deleteMessageBatch, Worker.io.
    destruct (Worker.io_fails _ _); cbn; [symmetry; apply app_nil_r | reflexivity].
  - intros msgs w b. subst b.
    split; [apply (forEachMessage_batch _ _ msgs []) |].
    unfold Executor.startExecutor_turn. rewrite loopBody_batch.
    split; [reflexivity |]. cbn [snd].
    destruct (fst (batch _ _ msgs w)) as [| t ts]; [symmetry; apply app_nil_r |].
    unfold Executor.deleteMessageBatch.
    destruct (Executor.sqs_fails _ _); cbn; [symmetry; apply app_nil_r | reflexivity].
  - intros pre msg post w e w2 before Hfail after. subst before after.
    rewrite forEachMessage_batch, batch_app. cbn [app batch fst snd].
    rewrite Hfail. reflexivity.
  - intros pre msg post w e w2 before Hfail after. subst before after.
    rewrite forEachMessage_batch, batch_app. cbn [app batch fst snd].
    rewrite Hfail. reflexivity.
Qed.

Lemma batch_isolation_witness :
  let w := quiet_worker ∅ (fun _ => []) in
  exists w',
    forEachMessage Worker.processTelemetry Worker.countMessage batch_with_bad_body [] w
    = (Returned [mkEntry "m1" "r1"; mkEntry "m3" "r3"], w')
    /\ length (Worker.events_queue w') = 2
    /\ Worker.messageCount w' = 3.
Proof.
  intros w. eexists. split.
  - etransitivity.
    + apply (proj1 (proj2 (proj2 batch_isolation))
               [mkSqsMessage "m1" "r1" (Some reading_minus_one)]
               (mkSqsMessage "m2" "r2" None)
               [mkSqsMessage "m3" "r3" (Some reading_minus_one)]
               w SyntaxError).
      reflexivity.
    + vm_compute. reflexivity.
  - split; reflexivity.
Defined.

(** A Worker batch whose second message has a body that does not parse: the
    first and the third are processed and deleted, the second is not. *)
Example worker_batch_with_bad_body :
  let w := quiet_worker ∅ (fun _ => []) in
  let w' := snd (Worker.startWorker_turn (Returned (Some batch_with_bad_body)) w) in
  outcomes Worker.processTelemetry Worker.countMessage batch_with_bad_body w
  = [true; false; true]
  /\ Worker.deleted w' = [[mkEntry "m1" "r1"; mkEntry "m3" "r3"]]
  /\ length (Worker.events_queue w') = 2
  /\ Worker.messageCount w' = 3.
Proof. vm_compute. repeat split. Qed.

End Batch_claim.
(** ** Notifications are best effort *)

Section Best_effort.

Import config.alertTypes config.actionTypes Executor.

Local Abbreviation R := same_but_webhook.

Ltac open_worlds :=
  repeat match goal with
         | w : world |- _ => destruct w
         end;
  unfold same_but_webhook in *; cbn in *.

Lemma same_but_webhook_posts (w1 w2 : world) (p1 p2 : list WebhookPost) :
  R w1 w2 -> R (with_webhook_posts p1 w1) (with_webhook_posts p2 w2).
Proof. open_worlds. tauto. Qed.

Lemma same_but_webhook_refl (w : world) : R w w.
Proof. open_worlds. repeat split. Qed.

Lemma same_but_webhook_posted (w : world) (p : list WebhookPost) :
  R w (with_webhook_posts p w).
Proof. open_worlds. repeat split. Qed.

Lemma respects_date_now : respects R date_now.
Proof.
  intros w1 w2 H. unfold date_now, gets. cbn. split; [| exact H].
  f_equal. apply H.
Qed.

Lemma respects_db_query (insert : world -> world) :
  (forall w1 w2, R w1 w2 -> R (insert w1) (insert w2)) ->
  respects R (db_query insert).
Proof.
  intros Hins w1 w2 H. unfold db_query.
  assert (Hstep : R (with_db_calls (S (db_calls w1)) w1) (with_db_calls (S (db_calls w2)) w2)).
  { revert H. clear. open_worlds. intros (? & ? & ? & ? & ? & ? & -> & ?). tauto. }
  assert (Hfail : db_fails w1 (db_calls w1) = db_fails w2 (db_calls w2)).
  { destruct H as (_ & _ & _ & _ & _ & _ & Hc & Hf & _). rewrite Hc. apply Hf. }
  rewrite Hfail. destruct (db_fails w2 (db_calls w2)); cbn.
  - split; [reflexivity | exact Hstep].
  - split; [reflexivity | apply Hins, Hstep].
Qed.

Lemma respects_thresholds_field (f : Thresholds -> number) (e : Evaluation) :
  respects R (thresholds_field f e).
Proof.
  unfold thresholds_field. destruct (thresholds e);
    [apply respects_ret | apply respects_throw].
Qed.

Lemma respects_storeTelemetry (t : Telemetry) : respects R (storeTelemetry t).
Proof.
  apply respects_bind; [apply respects_date_now | intros now].
  apply respects_db_query. clear. intros w1 w2. open_worlds.
  intros (-> & ?). tauto.
Qed.

Lemma respects_storeAlert (t : Telemetry) (e : Evaluation) (a : string) :
  respects R (storeAlert t e a).
Proof.
  apply respects_bind.
  - repeat match goal with |- context [if ?b then _ else _] => destruct b end;
      try apply respects_thresholds_field; apply respects_ret.
  - intros th. apply respects_bind; [apply respects_date_now | intros now].
    apply respects_db_query. clear. intros w1 w2. open_worlds.
    intros (? & -> & ?). tauto.
Qed.

Lemma respects_storeTemperatureAction (t : Telemetry) (x : number) :
  respects R (storeTemperatureAction t x).
Proof.
  apply respects_bind; [apply respects_date_now | intros now].
  apply respects_db_query. clear. intros w1 w2. open_worlds.
  intros (? & ? & -> & ?). tauto.
Qed.

(** [sendNotification] returns in every world, and two worlds that differ
    only by the webhook still differ only by the webhook after it. *)
Lemma respects_sendNotification (t : Telemetry) (e : Evaluation) :
  respects R (sendNotification t e).
Proof.
  intros w1 w2 H. rewrite !sendNotification_run. cbn.
  split; [reflexivity | apply same_but_webhook_posts, H].
Qed.

Lemma respects_dispatch (t : Telemetry) (e : Evaluation) (a : string) :
  respects R (dispatch t e a).
Proof.
  assert (Hnotify : respects R (storeAlert t e a ;;; sendNotification t e)).
  { apply respects_bind; [apply respects_storeAlert | intros _; apply respects_sendNotification]. }
  unfold dispatch.
  apply respects_bind; [apply respects_when, respects_storeTelemetry | intros _].
  apply respects_bind; [apply respects_when, Hnotify | intros _].
  apply respects_bind; [apply respects_when, Hnotify | intros _].
  apply respects_bind; [apply respects_when | intros _; apply respects_when, respects_storeAlert].
  apply respects_bind; [apply respects_storeAlert | intros _].
  apply respects_bind; [apply respects_thresholds_field | intros x].
  apply respects_storeTemperatureAction.
Qed.

Lemma respects_processEvent (ev : Event) : respects R (processEvent ev).
Proof.
  unfold processEvent.
  induction (actions (evaluation ev)) as [| a rest IH]; cbn [forEachAction].
  - apply respects_ret.
  - apply respects_bind; [apply respects_dispatch | intros _; exact IH].
Qed.

Lemma respects_countEvent : respects R (modify countEvent).
Proof.
  intros w1 w2 H. unfold modify. cbn. split; [reflexivity |].
  revert H. clear. unfold countEvent. open_worlds.
  intros (? & ? & ? & ? & -> & ?). tauto.
Qed.

Lemma respects_forEachMessage (msgs : list (SqsMessage Event)) (processed : list Entry) :
  respects R (forEachMessage processEvent countEvent msgs processed).
Proof.
  revert processed. induction msgs as [| msg rest IH]; intros processed;
    cbn [forEachMessage].
  - apply respects_ret.
  - apply respects_bind; [apply respects_countEvent | intros _].
    apply respects_bind; [| intros ok; apply IH].
    apply respects_try_catch; [| intros _; apply respects_ret].
    apply respects_bind; [| intros _; apply respects_ret].
    unfold handle. apply respects_bind; [| intros p; apply respects_processEvent].
    unfold JSON_parse. destruct (Body msg); [apply respects_ret | apply respects_throw].
Qed.

(** C7: [sendNotification] never throws, whether the webhook is disabled,
    delivers or fails, and it leaves the stored rows as they are.  So two
    runs of the Executor that differ only by the webhook (its configuration,
    and which POSTs fail) end the same way on every event, store the same
    rows, and acknowledge the same messages of every batch. *)
Theorem notification_best_effort :
  (forall t e w, exists w', sendNotification t e w = (Returned tt, w') /\ R w w')
  /\ (forall t e a w w1,
         storeAlert t e a w = (Returned tt, w1) ->
         exists w', (storeAlert t e a ;;; sendNotification t e) w = (Returned tt, w')
                    /\ alerts w' = alerts w1
                    /\ length (alerts w') = S (length (alerts w)))
  /\ (forall ev, respects R (processEvent ev))
  /\ (forall msgs processed,
         respects R (forEachMessage processEvent countEvent msgs processed)).
Proof.
  split; [| split; [| split; [exact respects_processEvent | exact respects_forEachMessage]]].
  - intros t e w. eexists. split; [apply sendNotification_run |].
    apply same_but_webhook_posted.
  - intros t e a w w1 Hst. unfold bind. rewrite Hst, sendNotification_run.
    eexists. split; [reflexivity |]. split; [reflexivity |].
    apply storeAlert_returned in Hst as (th & Hal & _).
    cbn. rewrite Hal, length_app. simpl. lia.
Qed.

Lemma notification_best_effort_witness :
  let ev := processedEvent reading_minus_one config.thresholds.default "2026-01-01T00:00:01.000Z" in
  let failing :=
    mkWorld [] [] [] true (Some "http://hooks.example/alerts") [] [] 0
            "2026-01-01T00:00:05.000Z" 0 (fun _ => false) (fun _ => true)
            0 (fun _ => false) in
  fst (processEvent ev failing) = Returned tt
  /\ length (alerts (snd (processEvent ev failing))) = 2
  /\ length (webhook_posts (snd (processEvent ev failing))) = 1.
Proof.
  intros ev failing.
  destruct (proj1 (proj2 (proj2 notification_best_effort)) ev quiet_executor failing)
    as [Hout Hsame].
  { unfold same_but_webhook. cbn. repeat split. }
  rewrite <- Hout. destruct Hsame as (_ & Hal & _). rewrite <- Hal.
  vm_compute. repeat split.
Defined.

End Best_effort.
Lemma determineActions_total_nonempty_witness :
  determineActions config.alertTypes.TREND_ANOMALY
  = determineActions config.alertTypes.TREND_ANOMALY
  /\ determineActions config.alertTypes.WARNING <> [].
Proof.
  split.
  - apply (proj1 (proj2 determineActions_total_nonempty)). reflexivity.
  - apply (proj1 determineActions_total_nonempty).
Defined.

Example parse_examples :
  map ParseFloat.parse
      ["-10"; " -3.50"; "2.5e1"; ".5"; "5."; "1e"; "abc"; ""; "."; "-Infinity"; "12px"]
  = [Fin (-10); Fin (-7 # 2); Fin 25; Fin (1 # 2); Fin 5; Fin 1; NaN; NaN; NaN;
     NegInf; Fin 12].
Proof. vm_compute. reflexivity. Qed.

(** What is read is a double: a decimal that is none is rounded to the
    nearest one, beyond the largest double to an infinity, and below the
    smallest to zero; the white space dropped includes U+00A0. *)
Example parse_rounds :
  ParseFloat.parse "-.5e-1x" = Fin (-3602879701896397 # 72057594037927936)
  /\ ParseFloat.parse "9007199254740993" = Fin 9007199254740992
  /\ ParseFloat.parse "1e400" = PosInf
  /\ ParseFloat.parse "-1e400" = NegInf
  /\ ParseFloat.parse "1e-400" = Fin 0
  /\ ParseFloat.parse (String (ascii_of_nat 194) (String (ascii_of_nat 160) "7")) = Fin 7.
Proof. vm_compute. repeat split. Qed.

(** * Further properties *)

(** ** The Executor: what a successful run stores *)

Section Executor_success.

Import config.alertTypes config.actionTypes Executor.

Ltac finish_dispatch Hdb :=
  cbn;
  unfold storeTelemetry, storeAlert, storeTemperatureAction, thresholds_field,
    sendNotification, notification, fetch, try_catch,
    db_query, date_now, gets, bind, ret, throw, with_db_calls,
    with_telemetry_readings, with_alerts, with_temperature_actions,
    with_webhook_posts;
  cbn;
  match goal with
  | |- context [String.eqb ?aty CRITICAL] =>
      destruct (String.eqb aty CRITICAL); [| destruct (String.eqb aty WARNING)]
  | _ => idtac
  end;
  cbn; repeat (rewrite Hdb; cbn);
  repeat match goal with
         | |- context [negb ?b] => is_var b; destruct b; cbn
         | |- context [url_missing ?u] => destruct (url_missing u); cbn
         end;
  repeat match goal with
         | |- context [if ?b then _ else _] => destruct b; cbn
         end;
  eexists; rewrite ?app_nil_r; repeat split.

Lemma notification_same (w w' : world) (t : Telemetry) (e : Evaluation) :
  webhook_enabled w' = webhook_enabled w ->
  webhook_url w' = webhook_url w ->
  notification w' t e = notification w t e.
Proof. intros He Hu. unfold notification. rewrite He, Hu. reflexivity. Qed.

(** One action of an event that carries thresholds, when the database
    accepts the inserts. *)
Lemma dispatch_success (t : Telemetry) (e : Evaluation) (ths : Thresholds)
      (a : string) (w : world) :
  thresholds e = Some ths ->
  (forall k, db_fails w k = false) ->
  exists w',
    dispatch t e a w = (Returned tt, w')
    /\ telemetry_readings w' = telemetry_readings w ++ telemetryRowsOf t (clock w) [a]
    /\ alerts w' = alerts w ++ alertRowsOf t e ths (clock w) [a]
    /\ temperature_actions w' = temperature_actions w ++ actionRowsOf t ths (clock w) [a]
    /\ webhook_posts w' = webhook_posts w ++ postsOf w t e [a]
    /\ same_services w w'.
Proof.
  intros Hths Hdb.
  destruct e as [aty ths' acts msg]. cbn in Hths. subst ths'.
  destruct w as [tr al ta en url posts del n clk dbc dbf ff sc sf]. cbn in Hdb.
  unfold telemetryRowsOf, alertRowsOf, actionRowsOf, postsOf, stores_alert, notifies,
    thresholdUsed, same_services, alertRow, dispatch, when.
  cbn [flat_map app alert_type thresholds message clock telemetry_readings alerts
       temperature_actions webhook_posts webhook_enabled webhook_url db_fails
       fetch_fails deleted eventCount sqs_calls sqs_fails].
  destruct (String.eqb_spec a LOG) as [-> | H1]; [finish_dispatch Hdb |].
  destruct (String.eqb_spec a NOTIFY_WARNING) as [-> | H2]; [finish_dispatch Hdb |].
  destruct (String.eqb_spec a NOTIFY_CRITICAL) as [-> | H3]; [finish_dispatch Hdb |].
  destruct (String.eqb_spec a ADJUST_TEMPERATURE) as [-> | H4]; [finish_dispatch Hdb |].
  destruct (String.eqb_spec a TREND_ALERT) as [-> | H5]; finish_dispatch Hdb.
Qed.

Lemma same_services_refl (w : world) : same_services w w.
Proof. unfold same_services. repeat split. Qed.

Lemma same_services_trans (w1 w2 w3 : world) :
  same_services w1 w2 -> same_services w2 w3 -> same_services w1 w3.
Proof.
  unfold same_services.
  intros (A1 & A2 & A3 & A4 & A5 & A6 & A7 & A8 & A9)
         (B1 & B2 & B3 & B4 & B5 & B6 & B7 & B8 & B9).
  repeat split; try congruence; intros k;
    first [rewrite B4; apply A4 | rewrite B5; apply A5 | rewrite B9; apply A9].
Qed.

Lemma postsOf_same (w w' : world) (t : Telemetry) (e : Evaluation) (acts : list string) :
  same_services w w' -> postsOf w' t e acts = postsOf w t e acts.
Proof.
  intros (He & Hu & _). unfold postsOf.
  rewrite (notification_same w w' t e He Hu). reflexivity.
Qed.

(** All the actions of an event that carries thresholds, when the database
    accepts the inserts. *)
Lemma forEachAction_success (t : Telemetry) (e : Evaluation) (ths : Thresholds)
      (acts : list string) (w : world) :
  thresholds e = Some ths ->
  (forall k, db_fails w k = false) ->
  exists w',
    forEachAction t e acts w = (Returned tt, w')
    /\ telemetry_readings w' = telemetry_readings w ++ telemetryRowsOf t (clock w) acts
    /\ alerts w' = alerts w ++ alertRowsOf t e ths (clock w) acts
    /\ temperature_actions w' = temperature_actions w ++ actionRowsOf t ths (clock w) acts
    /\ webhook_posts w' = webhook_posts w ++ postsOf w t e acts
    /\ same_services w w'.
Proof.
  intros Hths. revert w. induction acts as [| a rest IH]; intros w Hdb.
  - exists w. cbn. rewrite !app_nil_r. repeat split.
  - destruct (dispatch_success t e ths a w Hths Hdb)
      as (w1 & Hd & Htr & Hal & Hta & Hp & Hs).
    assert (Hdb1 : forall k, db_fails w1 k = false).
    { intros k. destruct Hs as (_ & _ & _ & Hf & _). rewrite Hf. apply Hdb. }
    destruct (IH w1 Hdb1) as (w' & Hrun & Htr' & Hal' & Hta' & Hp' & Hs').
    assert (Hclk : clock w1 = clock w) by apply Hs.
    exists w'. split.
    { cbn [forEachAction]. unfold bind. rewrite Hd. exact Hrun. }
    rewrite Htr', Hal', Hta', Hp', Htr, Hal, Hta, Hp, Hclk.
    rewrite (postsOf_same w w1 t e rest Hs).
    unfold telemetryRowsOf, alertRowsOf, actionRowsOf, postsOf.
    cbn [flat_map]. rewrite !app_nil_r, <- !app_assoc.
    repeat (split; [reflexivity |]). exact (same_services_trans _ _ _ Hs Hs').
Qed.

End Executor_success.

Section Executor_stores.

Import config.alertTypes config.actionTypes Executor.

(** X1: for every event that carries thresholds, when the database accepts
    the inserts, [processEvent] completes and appends, in the order of the
    actions, one telemetry row per LOG, one alert row per NOTIFY_WARNING,
    NOTIFY_CRITICAL, ADJUST_TEMPERATURE and TREND_ALERT, one temperature
    action per ADJUST_TEMPERATURE, and attempts the POSTs of the NOTIFY
    actions; every other action string is ignored. *)
Theorem processEvent_stores (ev : Event) (ths : Thresholds) (w : world) :
  thresholds (evaluation ev) = Some ths ->
  (forall k, db_fails w k = false) ->
  exists w',
    processEvent ev w = (Returned tt, w')
    /\ telemetry_readings w' =
       telemetry_readings w
       ++ telemetryRowsOf (telemetry ev) (clock w) (actions (evaluation ev))
    /\ alerts w' =
       alerts w
       ++ alertRowsOf (telemetry ev) (evaluation ev) ths (clock w) (actions (evaluation ev))
    /\ temperature_actions w' =
       temperature_actions w
       ++ actionRowsOf (telemetry ev) ths (clock w) (actions (evaluation ev))
    /\ webhook_posts w' =
       webhook_posts w
       ++ postsOf w (telemetry ev) (evaluation ev) (actions (evaluation ev)).
Proof.
  intros Hths Hdb.
  destruct (forEachAction_success (telemetry ev) (evaluation ev) ths
              (actions (evaluation ev)) w Hths Hdb)
    as (w' & Hrun & Htr & Hal & Hta & Hp & _).
  exists w'. auto.
Qed.

Lemma processEvent_stores_witness :
  let ev := mkEvent "TELEMETRY_PROCESSED" reading_minus_one
              (mkEvaluation WARNING (Some config.thresholds.default)
                            ["AUDIT"; LOG; NOTIFY_WARNING; "AUDIT"] None)
              "2026-01-01T00:00:01.000Z" in
  exists w',
    processEvent ev quiet_executor = (Returned tt, w')
    /\ length (telemetry_readings w') = 1
    /\ map al_threshold (alerts w') = [Some (Num.of_Z (-10))]
    /\ temperature_actions w' = []
    /\ length (webhook_posts w') = 1.
Proof.
  intros ev.
  destruct (processEvent_stores ev config.thresholds.default quiet_executor
              eq_refl (fun _ => eq_refl))
    as (w' & Hrun & Htr & Hal & Hta & Hp).
  exists w'. split; [exact Hrun |].
  rewrite Htr, Hal, Hta, Hp. repeat split.
Defined.



End Executor_stores.

Section Executor_by_class.

Import config.alertTypes config.actionTypes Executor.

Lemma determineAlertType_cases (v : number) (t : Thresholds) :
  (determineAlertType v t = CRITICAL /\ Num.gt v (critical t) = true)
  \/ (determineAlertType v t = WARNING
      /\ Num.gt v (critical t) = false /\ Num.gt v (warning t) = true)
  \/ (determineAlertType v t = NORMAL
      /\ Num.gt v (critical t) = false /\ Num.gt v (warning t) = false).
Proof.
  unfold determineAlertType.
  destruct (Num.gt v (critical t)); [left; split; reflexivity |].
  destruct (Num.gt v (warning t)); [right; left | right; right]; repeat split.
Qed.

(** X3: for the event the Worker builds from any reading, when the database
    accepts the inserts, [processEvent] stores the reading once whatever its
    class; a NORMAL reading leaves no alert, no temperature action and no
    POST; a WARNING reading leaves one alert, taken under NOTIFY_WARNING
    with the warning threshold, no temperature action, and the POST of one
    notification. *)
Theorem processEvent_ordinary (reading : Telemetry) (t : Thresholds) (now : string)
        (w : world) :
  (forall k, db_fails w k = false) ->
  let ev := processedEvent reading t now in
  exists w',
    processEvent ev w = (Returned tt, w')
    /\ telemetry_readings w' = telemetry_readings w ++ [telemetryRow reading (clock w)]
    /\ (determineAlertType (temp reading) t = NORMAL ->
        alerts w' = alerts w
        /\ temperature_actions w' = temperature_actions w
        /\ webhook_posts w' = webhook_posts w)
    /\ (determineAlertType (temp reading) t = WARNING ->
        alerts w' =
        alerts w ++ [alertRow reading (evaluation ev) NOTIFY_WARNING (warning t) (clock w)]
        /\ temperature_actions w' = temperature_actions w
        /\ webhook_posts w' = webhook_posts w ++ notification w reading (evaluation ev)).
Proof.
  intros Hdb ev.
  destruct (forEachAction_success reading (evaluation ev) t
              (actions (evaluation ev)) w eq_refl Hdb)
    as (w' & Hrun & Htr & Hal & Hta & Hp & _).
  exists w'. split; [exact Hrun |].
  rewrite Htr, Hal, Hta, Hp. subst ev.
  unfold processedEvent, alertRowsOf, thresholdUsed. cbn [evaluation actions alert_type].
  destruct (determineAlertType_cases (temp reading) t)
    as [[-> _] | [[-> _] | [-> _]]]; cbn; rewrite ?app_nil_r;
    (split; [reflexivity |]); split; intros H; try discriminate H; repeat split.
Qed.

Lemma processEvent_ordinary_witness :
  exists w',
    processEvent (processedEvent reading_minus_nineteen config.thresholds.default
                                 "2026-01-01T00:00:11.000Z") quiet_executor
    = (Returned tt, w')
    /\ length (telemetry_readings w') = 1
    /\ alerts w' = [] /\ temperature_actions w' = [] /\ webhook_posts w' = [].
Proof.
  destruct (processEvent_ordinary reading_minus_nineteen config.thresholds.default
              "2026-01-01T00:00:11.000Z" quiet_executor (fun _ => eq_refl))
    as (w' & Hrun & Htr & Hnormal & _).
  exists w'. split; [exact Hrun |]. rewrite Htr. split; [reflexivity |].
  apply Hnormal. reflexivity.
Defined.

End Executor_by_class.

(** ** The Executor: what no run does *)

Section Throws.

Context {W : Type}.
Variable P : error -> Prop.

Lemma throws_ret {A} (a : A) : throws_only P (@ret W A a).
Proof. intros w e H. discriminate H. Qed.

Lemma throws_gets {A} (f : W -> A) : throws_only P (gets f).
Proof. intros w e H. discriminate H. Qed.

Lemma throws_throw {A} (e : error) : P e -> throws_only P (@throw W A e).
Proof. intros He w e' [= <-]. exact He. Qed.

Lemma throws_bind {A B} (c : M W A) (k : A -> M W B) :
  throws_only P c -> (forall a, throws_only P (k a)) -> throws_only P (x <- c ;; k x).
Proof.
  intros Hc Hk w e. unfold bind. specialize (Hc w).
  destruct (c w) as [[a | e'] w1]; cbn in *.
  - apply Hk.
  - intros [= <-]. apply Hc. reflexivity.
Qed.

Lemma throws_when (b : bool) (c : M W unit) :
  throws_only P c -> throws_only P (when b c).
Proof. intros Hc. destruct b; [exact Hc | apply throws_ret]. Qed.

End Throws.

Section Executor_frame.

Import config.alertTypes config.actionTypes Executor.

Lemma tables_grow_refl (w : world) : tables_grow w w.
Proof. unfold tables_grow. repeat split; reflexivity. Qed.

Lemma executor_frame_refl (w : world) : executor_frame w w.
Proof. split; [apply tables_grow_refl | apply same_services_refl]. Qed.

Lemma executor_frame_trans (w1 w2 w3 : world) :
  executor_frame w1 w2 -> executor_frame w2 w3 -> executor_frame w1 w3.
Proof.
  intros [(A1 & A2 & A3 & A4 & A5) As] [(B1 & B2 & B3 & B4 & B5) Bs].
  split; [| exact (same_services_trans _ _ _ As Bs)].
  unfold tables_grow. repeat split; first [etransitivity; eassumption | lia].
Qed.

Local Abbreviation framed := (moves_along executor_frame).
Local Abbreviation framed_seq := (along_bind executor_frame executor_frame_trans).
Local Abbreviation framed_if := (along_when executor_frame executor_frame_refl).

Ltac frame_now :=
  unfold executor_frame, tables_grow, same_services; cbn;
  repeat split; first [reflexivity | eexists; reflexivity | lia].

Lemma framed_db_query (insert : world -> world) :
  (forall w, executor_frame w (insert w)) -> framed (db_query insert).
Proof.
  intros Hins w. unfold db_query.
  assert (Hstep : executor_frame w (with_db_calls (S (db_calls w)) w)).
  { destruct w. frame_now. }
  destruct (db_fails w (db_calls w)); cbn; [exact Hstep |].
  eapply executor_frame_trans; [exact Hstep | apply Hins].
Qed.

Lemma framed_thresholds_field (f : Thresholds -> number) (e : Evaluation) :
  framed (thresholds_field f e).
Proof.
  unfold thresholds_field. destruct (thresholds e);
    [apply along_ret | apply along_throw]; apply executor_frame_refl.
Qed.

Lemma framed_date_now : framed date_now.
Proof. apply along_gets, executor_frame_refl. Qed.

Lemma framed_storeTelemetry (t : Telemetry) : framed (storeTelemetry t).
Proof.
  apply framed_seq; [apply framed_date_now | intros now].
  apply framed_db_query. intros w. destruct w. frame_now.
Qed.

Lemma framed_storeAlert (t : Telemetry) (e : Evaluation) (a : string) :
  framed (storeAlert t e a).
Proof.
  apply framed_seq.
  - repeat match goal with |- context [if ?b then _ else _] => destruct b end;
      try apply framed_thresholds_field; apply along_ret, executor_frame_refl.
  - intros th. apply framed_seq; [apply framed_date_now | intros now].
    apply framed_db_query. intros w. destruct w. frame_now.
Qed.

Lemma framed_storeTemperatureAction (t : Telemetry) (x : number) :
  framed (storeTemperatureAction t x).
Proof.
  apply framed_seq; [apply framed_date_now | intros now].
  apply framed_db_query. intros w. destruct w. frame_now.
Qed.

Lemma framed_sendNotification (t : Telemetry) (e : Evaluation) :
  framed (sendNotification t e).
Proof. intros w. rewrite sendNotification_run. destruct w. frame_now. Qed.

Lemma framed_dispatch (t : Telemetry) (e : Evaluation) (a : string) :
  framed (dispatch t e a).
Proof.
  assert (Hnotify : framed (storeAlert t e a ;;; sendNotification t e)).
  { apply framed_seq; [apply framed_storeAlert | intros _; apply framed_sendNotification]. }
  unfold dispatch.
  apply framed_seq; [apply framed_if, framed_storeTelemetry | intros _].
  apply framed_seq; [apply framed_if, Hnotify | intros _].
  apply framed_seq; [apply framed_if, Hnotify | intros _].
  apply framed_seq; [apply framed_if | intros _; apply framed_if, framed_storeAlert].
  apply framed_seq; [apply framed_storeAlert | intros _].
  apply framed_seq; [apply framed_thresholds_field | intros x].
  apply framed_storeTemperatureAction.
Qed.

Lemma framed_processEvent (ev : Event) : framed (processEvent ev).
Proof.
  unfold processEvent.
  induction (actions (evaluation ev)) as [| a rest IH]; cbn [forEachAction].
  - apply along_ret, executor_frame_refl.
  - apply framed_seq; [apply framed_dispatch | intros _; exact IH].
Qed.

(** X4: whatever the event and however the run ends, [processEvent] only
    appends: the three tables and the list of attempted POSTs of the world
    it leaves extend those it found, and the webhook configuration, the
    clock, the delete log and the event counter are untouched. *)
Theorem processEvent_append_only (ev : Event) (w : world) :
  let w' := snd (processEvent ev w) in
  telemetry_readings w `prefix_of` telemetry_readings w'
  /\ alerts w `prefix_of` alerts w'
  /\ temperature_actions w `prefix_of` temperature_actions w'
  /\ webhook_posts w `prefix_of` webhook_posts w'
  /\ webhook_enabled w' = webhook_enabled w
  /\ webhook_url w' = webhook_url w
  /\ clock w' = clock w
  /\ deleted w' = deleted w
  /\ eventCount w' = eventCount w.
Proof.
  destruct (framed_processEvent ev w)
    as [(H1 & H2 & H3 & H4 & _) (S1 & S2 & S3 & _ & _ & S6 & S7 & _)].
  cbv zeta. auto 10.
Qed.

Local Abbreviation db_or_type ev :=
  (fun e => e = DbError \/ (e = TypeError /\ thresholds (evaluation ev) = None)).

Lemma throws_db_query (Q : error -> Prop) (insert : world -> world) :
  Q DbError -> throws_only Q (db_query insert).
Proof.
  intros HQ w e. unfold db_query.
  destruct (db_fails w (db_calls w)); cbn; [intros [= <-]; exact HQ | discriminate].
Qed.

Lemma throws_thresholds_field (f : Thresholds -> number) (e : Evaluation) :
  throws_only (fun x => x = DbError \/ (x = TypeError /\ thresholds e = None))
              (thresholds_field f e).
Proof.
  unfold thresholds_field. destruct (thresholds e) eqn:E;
    [apply throws_ret | apply throws_throw; right; split; reflexivity].
Qed.

Lemma throws_storeAlert (t : Telemetry) (e : Evaluation) (a : string) :
  throws_only (fun x => x = DbError \/ (x = TypeError /\ thresholds e = None))
              (storeAlert t e a).
Proof.
  apply throws_bind.
  - repeat match goal with |- context [if ?b then _ else _] => destruct b end;
      try apply throws_thresholds_field; apply throws_ret.
  - intros th. apply throws_bind; [apply throws_gets | intros now].
    apply throws_db_query. left; reflexivity.
Qed.

Lemma throws_sendNotification (Q : error -> Prop) (t : Telemetry) (e : Evaluation) :
  throws_only Q (sendNotification t e).
Proof. intros w x. rewrite sendNotification_run. discriminate. Qed.

Lemma throws_dispatch (t : Telemetry) (e : Evaluation) (a : string) :
  throws_only (fun x => x = DbError \/ (x = TypeError /\ thresholds e = None))
              (dispatch t e a).
Proof.
  set (Q := fun x => x = DbError \/ (x = TypeError /\ thresholds e = None)).
  assert (Hdb : Q DbError) by (left; reflexivity).
  assert (Hst : throws_only Q (storeTelemetry t)).
  { apply throws_bind; [apply throws_gets | intros now; apply throws_db_query, Hdb]. }
  assert (Hnotify : throws_only Q (storeAlert t e a ;;; sendNotification t e)).
  { apply throws_bind; [apply throws_storeAlert | intros _; apply throws_sendNotification]. }
  unfold dispatch.
  apply throws_bind; [apply throws_when, Hst | intros _].
  apply throws_bind; [apply throws_when, Hnotify | intros _].
  apply throws_bind; [apply throws_when, Hnotify | intros _].
  apply throws_bind; [apply throws_when | intros _; apply throws_when, throws_storeAlert].
  apply throws_bind; [apply throws_storeAlert | intros _].
  apply throws_bind; [apply throws_thresholds_field | intros x].
  apply throws_bind; [apply throws_gets | intros now; apply throws_db_query, Hdb].
Qed.

(** X5: [processEvent] throws nothing but a database error or, for an event
    that carries no thresholds, a TypeError; in particular a failed webhook
    never makes it throw, and an event with thresholds fails only when an
    insert does. *)
Theorem processEvent_throws (ev : Event) (w : world) (e : error) :
  fst (processEvent ev w) = Thrown e ->
  e = DbError \/ (e = TypeError /\ thresholds (evaluation ev) = None).
Proof.
  unfold processEvent. revert w e.
  induction (actions (evaluation ev)) as [| a rest IH]; intros w e; cbn [forEachAction].
  - discriminate.
  - apply (throws_bind (fun x => x = DbError
                                 \/ (x = TypeError /\ thresholds (evaluation ev) = None))).
    + apply throws_dispatch.
    + intros _ w' e'. apply IH.
Qed.

Lemma processEvent_throws_witness :
  let ev := processedEvent reading_minus_one config.thresholds.default
                           "2026-01-01T00:00:01.000Z" in
  fst (processEvent ev (executor_failing_at 2)) = Thrown DbError
  /\ length (alerts (snd (processEvent ev (executor_failing_at 2)))) = 1
  /\ temperature_actions (snd (processEvent ev (executor_failing_at 2))) = [].
Proof.
  intros ev.
  assert (Hrun : fst (processEvent ev (executor_failing_at 2)) = Thrown DbError)
    by (vm_compute; reflexivity).
  destruct (processEvent_throws ev (executor_failing_at 2) DbError Hrun) as [_ | [H _]];
    [| discriminate H].
  split; [exact Hrun |]. split; vm_compute; reflexivity.
Defined.

End Executor_frame.


(** ** The Worker: events per reading, failures, and what it never touches *)

Section Worker_more.

Import config.alertTypes config.actionTypes Worker.

(** X6: when its services answer, [processTelemetry] publishes exactly one
    event of type TELEMETRY_PROCESSED for the reading, stamped with the
    clock, classified and given its actions from the resolved thresholds,
    and after it one TREND_ANOMALY event exactly when the history of the
    ship meets the trend condition (with the increase as the doubles
    subtract); nothing else is published. *)
Theorem processTelemetry_events (reading : Telemetry) (w : world) :
  (forall k, io_fails w k = false) ->
  let t := cachedThresholds w (ship_id reading) in
  let temps := temperatures (take config.worker.trendMaxReadings
                                  (trend_rows w (ship_id reading))) in
  exists w' ordinary trend,
    processTelemetry reading w = (Returned tt, w')
    /\ events_queue w' = events_queue w ++ ordinary :: trend
    /\ event_type ordinary = "TELEMETRY_PROCESSED"
    /\ telemetry ordinary = reading
    /\ processed_at ordinary = clock w
    /\ alert_type (evaluation ordinary) = determineAlertType (temp reading) t
    /\ actions (evaluation ordinary)
       = determineActions (determineAlertType (temp reading) t)
    /\ thresholds (evaluation ordinary) = Some t
    /\ (trendCondition temps ->
        exists e, trend = [e] /\ is_trend_event (ship_id reading) (newest temps) e)
    /\ (~ trendCondition temps -> trend = []).
Proof.
  intros Hio t temps. rewrite (processTelemetry_run reading w Hio).
  set (ordinary := processedEvent reading t (clock w)).
  set (w1 := with_events_queue _ _).
  assert (Hio1 : forall k, io_fails w1 k = false) by exact Hio.
  rewrite (checkTemperatureTrend_run _ _ Hio1).
  destruct (detectTrend_spec (take config.worker.trendMaxReadings
                                   (trend_rows w (ship_id reading)))) as [Hyes Hno].
  fold temps in Hyes, Hno.
  change (trend_rows w1 (ship_id reading)) with (trend_rows w (ship_id reading)).
  destruct (trendCondition_dec temps) as [Hc | Hc].
  - rewrite (Hyes Hc). eexists; exists ordinary; eexists.
    split; [reflexivity |]. cbn [events_queue with_events_queue with_io_calls].
    subst w1. cbn [events_queue with_events_queue].
    split; [rewrite <- app_assoc; reflexivity |].
    repeat (split; [reflexivity |]).
    split; [| intros H; contradiction].
    intros _. eexists. split; [reflexivity | repeat split].
  - rewrite (Hno Hc). eexists; exists ordinary, [].
    split; [reflexivity |]. subst w1. cbn [events_queue with_events_queue with_io_calls].
    split; [reflexivity |]. repeat (split; [reflexivity |]).
    split; [intros H; contradiction | reflexivity].
Qed.

Lemma processTelemetry_events_witness :
  exists w' ordinary e,
    processTelemetry reading_minus_one (quiet_worker ∅ history_rising) = (Returned tt, w')
    /\ events_queue w' = [ordinary; e]
    /\ event_type ordinary = "TELEMETRY_PROCESSED"
    /\ alert_type (evaluation ordinary) = CRITICAL
    /\ event_type e = "TREND_ANOMALY"
    /\ alert_type (evaluation e) = TREND_ANOMALY.
Proof.
  destruct (processTelemetry_events reading_minus_one (quiet_worker ∅ history_rising)
              (fun _ => eq_refl))
    as (w' & ordinary & trend & Hrun & Hq & Hev & _ & _ & Hty & _ & _ & Hyes & _).
  destruct Hyes as (e & -> & He).
  { vm_compute. repeat split; lia. }
  exists w', ordinary, e. split; [exact Hrun |]. split; [exact Hq |].
  split; [exact Hev |].
  split; [rewrite Hty; vm_compute; reflexivity |].
  split; [apply He | apply He].
Defined.

(** X7: when one of the three reads of the cache fails, [processTelemetry]
    throws the cache error and publishes nothing: no event reaches the
    queue and no call is made after the failed read. *)
Theorem processTelemetry_cache_failure (reading : Telemetry) (w : world) (k : nat) :
  k < 3 ->
  io_fails w (io_calls w + k) = true ->
  (forall j, j < k -> io_fails w (io_calls w + j) = false) ->
  processTelemetry reading w
  = (Thrown RedisError, with_io_calls (io_calls w + k + 1) w).
Proof.
  intros Hk Hfail Hbefore.
  unfold processTelemetry, getThresholds, redis_get, io, bind, ret, with_io_calls.
  destruct w as [r h q d n c win calls fails]. cbn in *.
  destruct k as [| [| [| k]]]; [| | | lia].
  - rewrite Nat.add_0_r in Hfail. rewrite Hfail. cbn.
    repeat f_equal; lia.
  - pose proof (Hbefore 0 ltac:(lia)) as H0. rewrite Nat.add_0_r in H0.
    rewrite H0. cbn. replace (calls + 1) with (S calls) in Hfail by lia.
    rewrite Hfail. cbn. repeat f_equal; lia.
  - pose proof (Hbefore 0 ltac:(lia)) as H0. rewrite Nat.add_0_r in H0.
    pose proof (Hbefore 1 ltac:(lia)) as H1.
    replace (calls + 1) with (S calls) in H1 by lia.
    rewrite H0. cbn. rewrite H1. cbn.
    replace (calls + 2) with (S (S calls)) in Hfail by lia.
    rewrite Hfail. cbn. repeat f_equal; lia.
Qed.

Lemma processTelemetry_cache_failure_witness :
  fst (processTelemetry reading_minus_one (worker_failing_at 1)) = Thrown RedisError
  /\ events_queue (snd (processTelemetry reading_minus_one (worker_failing_at 1))) = [].
Proof.
  rewrite (processTelemetry_cache_failure reading_minus_one (worker_failing_at 1) 1).
  - split; reflexivity.
  - lia.
  - reflexivity.
  - intros j Hj. assert (j = 0) as -> by lia. reflexivity.
Defined.

End Worker_more.


Section Worker_partial.

Import config.alertTypes config.actionTypes Worker.

(** The run of [processTelemetry] whose first four calls (three reads of the
    cache and the send of the event) succeed and whose trend query fails. *)
Lemma processTelemetry_trend_query_fails (reading : Telemetry) (w : world) :
  (forall j, j < 4 -> io_fails w (io_calls w + j) = false) ->
  io_fails w (io_calls w + 4) = true ->
  processTelemetry reading w
  = (Thrown DbError,
     with_events_queue
       (events_queue w
        ++ [processedEvent reading (cachedThresholds w (ship_id reading)) (clock w)])
       (with_io_calls (io_calls w + 5) w)).
Proof.
  intros Hok Hfail.
  pose proof (Hok 0 ltac:(lia)) as H0. pose proof (Hok 1 ltac:(lia)) as H1.
  pose proof (Hok 2 ltac:(lia)) as H2. pose proof (Hok 3 ltac:(lia)) as H3.
  destruct w as [r h q d n c win calls fails]. cbn in *.
  rewrite Nat.add_0_r in H0.
  replace (calls + 1) with (S calls) in H1 by lia.
  replace (calls + 2) with (S (S calls)) in H2 by lia.
  replace (calls + 3) with (S (S (S calls))) in H3 by lia.
  replace (calls + 4) with (S (S (S (S calls)))) in Hfail by lia.
  unfold processTelemetry, getThresholds, redis_get, publishEvent, sqs_send_event,
    checkTemperatureTrend, db_query_trend, date_now, io, gets, bind, ret,
    with_io_calls, with_events_queue, processedEvent, cachedThresholds, key.
  cbn. rewrite H0. cbn. rewrite H1. cbn. rewrite H2. cbn. rewrite H3. cbn.
  rewrite Hfail. cbn. repeat f_equal; lia.
Qed.

(** X8: the event of a reading is not taken back when the trend check that
    follows it fails: after a turn of the Worker on a message whose trend
    query fails, the TELEMETRY_PROCESSED event is in the events queue and the
    message has not been deleted, so that it will be delivered, and its
    event published, again. *)
Theorem trend_failure_keeps_event (msg : SqsMessage Telemetry) (reading : Telemetry)
        (w : world) :
  Body msg = Some reading ->
  (forall j, j < 4 -> io_fails w (io_calls w + j) = false) ->
  io_fails w (io_calls w + 4) = true ->
  let w' := snd (startWorker_turn (Returned (Some [msg])) w) in
  fst (startWorker_turn (Returned (Some [msg])) w) = Returned tt
  /\ events_queue w'
     = events_queue w
       ++ [processedEvent reading (cachedThresholds w (ship_id reading)) (clock w)]
  /\ deleted w' = deleted w
  /\ messageCount w' = S (messageCount w).
Proof.
  intros Hbody Hok Hfail. cbv zeta.
  unfold startWorker_turn, loopBody, try_catch.
  rewrite consumeBatch_run.
  cbn [outcomes completed world_after]. unfold handle, JSON_parse.
  rewrite Hbody.
  change ((p <- ret reading ;; processTelemetry p) (countMessage w))
    with (processTelemetry reading (countMessage w)).
  rewrite (processTelemetry_trend_query_fails reading (countMessage w) Hok Hfail).
  cbn. destruct w. cbn. repeat split.
Qed.

Lemma trend_failure_keeps_event_witness :
  let w' := snd (startWorker_turn
                   (Returned (Some [mkSqsMessage "m1" "r1" (Some reading_minus_one)]))
                   (worker_failing_at 4)) in
  length (events_queue w') = 1 /\ deleted w' = [].
Proof.
  destruct (trend_failure_keeps_event (mkSqsMessage "m1" "r1" (Some reading_minus_one))
              reading_minus_one (worker_failing_at 4) eq_refl)
    as (_ & Hq & Hd & _).
  - intros j Hj. destruct j as [| [| [| [| j]]]]; [reflexivity .. | lia].
  - reflexivity.
  - cbv zeta. rewrite Hq, Hd. split; reflexivity.
Defined.

End Worker_partial.

Section Worker_frame.

Import Worker.

Lemma worker_frame_refl (w : world) : worker_frame w w.
Proof. unfold worker_frame. repeat split; first [reflexivity | lia]. Qed.

Lemma worker_frame_trans (w1 w2 w3 : world) :
  worker_frame w1 w2 -> worker_frame w2 w3 -> worker_frame w1 w3.
Proof.
  unfold worker_frame.
  intros (A1 & A2 & A3 & A4 & A5 & A6 & A7 & A8 & A9)
         (B1 & B2 & B3 & B4 & B5 & B6 & B7 & B8 & B9).
  repeat split; try congruence; try (intros x);
    first [rewrite B2; apply A2 | rewrite B8; apply A8
          | etransitivity; eassumption | lia].
Qed.

Local Abbreviation kept := (moves_along worker_frame).
Local Abbreviation kept_seq := (along_bind worker_frame worker_frame_trans).

Ltac kept_now :=
  unfold worker_frame; cbn;
  repeat split; first [reflexivity | eexists; reflexivity | lia].

Lemma kept_io {A} (e : error) (op : world -> A * world) :
  (forall w, worker_frame w (snd (op w))) -> kept (io e op).
Proof.
  intros Hop w. unfold io.
  assert (Hstep : worker_frame w (with_io_calls (S (io_calls w)) w)).
  { destruct w. kept_now. }
  destruct (io_fails w (io_calls w)); cbn; [exact Hstep |].
  specialize (Hop (with_io_calls (S (io_calls w)) w)).
  destruct (op _) as [a w2]. cbn in *.
  eapply worker_frame_trans; [exact Hstep | exact Hop].
Qed.

Lemma kept_getThresholds (shipId : string) : kept (getThresholds shipId).
Proof.
  unfold getThresholds, redis_get.
  repeat (apply kept_seq; [apply kept_io; intros w; apply worker_frame_refl | intros ?]).
  apply along_ret, worker_frame_refl.
Qed.

Lemma kept_publishEvent (event : Event) : kept (publishEvent event).
Proof. apply kept_io. intros w. destruct w. kept_now. Qed.

Lemma kept_checkTemperatureTrend (shipId : string) : kept (checkTemperatureTrend shipId).
Proof.
  unfold checkTemperatureTrend.
  apply kept_seq; [apply along_gets, worker_frame_refl | intros window].
  apply kept_seq; [apply kept_io; intros w; apply worker_frame_refl | intros rows].
  destruct (detectTrend rows) as [[t inc] |]; [| apply along_ret, worker_frame_refl].
  apply kept_seq; [apply along_gets, worker_frame_refl | intros now1].
  apply kept_seq; [apply along_gets, worker_frame_refl | intros now2].
  apply kept_publishEvent.
Qed.

Lemma kept_processTelemetry (reading : Telemetry) : kept (processTelemetry reading).
Proof.
  unfold processTelemetry.
  apply kept_seq; [apply kept_getThresholds | intros t].
  apply kept_seq; [apply along_gets, worker_frame_refl | intros now].
  apply kept_seq; [apply kept_publishEvent | intros _].
  apply kept_checkTemperatureTrend.
Qed.

(** X9: however it ends, [processTelemetry] leaves the threshold cache and
    the telemetry history as it found them (the Worker only reads them), and
    what it does to the events queue is to append: events already sent are
    never removed or changed. *)
Theorem processTelemetry_read_only (reading : Telemetry) (w : world) :
  let w' := snd (processTelemetry reading w) in
  redis w' = redis w
  /\ (forall shipId, trend_rows w' shipId = trend_rows w shipId)
  /\ events_queue w `prefix_of` events_queue w'
  /\ deleted w' = deleted w
  /\ messageCount w' = messageCount w.
Proof.
  destruct (kept_processTelemetry reading w) as (H1 & H2 & H3 & H4 & H5 & _).
  cbv zeta. auto.
Qed.

End Worker_frame.


(** ** The consumer loop: turns, counters and delete calls *)

Section Consumer_more.

Context {W P : Type}.
Variable process : P -> M W unit.
Variable count : W -> W.
Variable deleteMessageBatch : list Entry -> M W unit.

Lemma loopBody_returns (received : outcome (option (list (SqsMessage P)))) (w : W) :
  fst (loopBody process count deleteMessageBatch received w) = Returned tt.
Proof.
  unfold loopBody, try_catch.
  destruct (match received with
            | Returned Messages => consumeBatch process count deleteMessageBatch Messages
            | Thrown e => throw e
            end w) as [[[] | e] w']; reflexivity.
Qed.

Lemma loopBody_idle (received : outcome (option (list (SqsMessage P)))) (w : W) :
  (forall msg rest, received <> Returned (Some (msg :: rest))) ->
  loopBody process count deleteMessageBatch received w = (Returned tt, w).
Proof.
  intros Hidle. destruct received as [[[| msg rest] |] | e]; try reflexivity.
  exfalso. exact (Hidle msg rest eq_refl).
Qed.

Lemma snd_handle (msg : SqsMessage P) (w : W) :
  snd (handle process msg w)
  = match Body msg with
    | Some p => snd (process p w)
    | None => w
    end.
Proof.
  unfold handle, JSON_parse, bind. destruct (Body msg) as [p |]; cbn; [| reflexivity].
  destruct (process p w) as [[[] | e] w']; reflexivity.
Qed.

(** A component of the world that neither the processing of a message nor
    the counting changes is the same after a batch. *)
Lemma world_after_preserved {A} (f : W -> A) (msgs : list (SqsMessage P)) (w : W) :
  (forall p w, f (snd (process p w)) = f w) ->
  (forall w, f (count w) = f w) ->
  f (world_after process count msgs w) = f w.
Proof.
  intros Hp Hc. revert w. induction msgs as [| msg rest IH]; intros w; cbn; [reflexivity |].
  rewrite IH, snd_handle. destruct (Body msg); [rewrite Hp |]; apply Hc.
Qed.

(** A counter that the counting step increments and the processing leaves
    alone has grown by the length of the batch. *)
Lemma world_after_counted (m : W -> nat) (msgs : list (SqsMessage P)) (w : W) :
  (forall p w, m (snd (process p w)) = m w) ->
  (forall w, m (count w) = S (m w)) ->
  m (world_after process count msgs w) = m w + length msgs.
Proof.
  intros Hp Hc. revert w. induction msgs as [| msg rest IH]; intros w; cbn; [lia |].
  rewrite IH, snd_handle.
  destruct (Body msg); [rewrite Hp |]; rewrite Hc; lia.
Qed.

Lemma completed_sublist (msgs : list (SqsMessage P)) (oks : list bool) :
  completed msgs oks `sublist_of` map entry_of msgs.
Proof.
  revert oks. induction msgs as [| msg rest IH]; intros [| ok oks]; cbn;
    try apply sublist_nil_l.
  destruct ok; cbn; [apply sublist_skip | apply sublist_cons]; apply IH.
Qed.

End Consumer_more.

Section Turns.

(** X10: a turn of either consumer loop never throws, whatever the receive
    call gave, however the messages fare and even when the batch delete
    fails; and on a receive error, on a response without messages and on an
    empty batch it changes nothing. *)
Theorem turn_never_throws :
  (forall received w, fst (Worker.startWorker_turn received w) = Returned tt)
  /\ (forall received w, fst (Executor.startExecutor_turn received w) = Returned tt)
  /\ (forall received w,
         (forall msg rest, received <> Returned (Some (msg :: rest))) ->
         Worker.startWorker_turn received w = (Returned tt, w))
  /\ (forall received w,
         (forall msg rest, received <> Returned (Some (msg :: rest))) ->
         Executor.startExecutor_turn received w = (Returned tt, w)).
Proof.
  repeat split; intros; first [apply loopBody_returns | apply loopBody_idle; assumption].
Qed.

Lemma turn_never_throws_witness :
  Worker.startWorker_turn (Thrown SqsError) (worker_failing_at 0)
  = (Returned tt, worker_failing_at 0)
  /\ Executor.startExecutor_turn (Returned (Some [])) quiet_executor
     = (Returned tt, quiet_executor).
Proof.
  destruct turn_never_throws as (_ & _ & Hw & He).
  split; [apply Hw | apply He]; intros msg rest H; discriminate H.
Defined.

(** X11: every message of a batch is counted, the failed ones too: after a
    turn on a batch the Worker's message counter, and the Executor's event
    counter, have grown by the length of the batch. *)
Theorem turn_counts_every_message :
  (forall msgs w,
      Worker.messageCount (snd (Worker.startWorker_turn (Returned (Some msgs)) w))
      = Worker.messageCount w + length msgs)
  /\ (forall msgs w,
         Executor.eventCount
           (snd (Executor.startExecutor_turn (Returned (Some msgs)) w))
         = Executor.eventCount w + length msgs).
Proof.
  split; intros [| msg rest] w; try (cbn; lia).
  - unfold Worker.startWorker_turn, loopBody, try_catch.
    rewrite consumeBatch_run.
    assert (Hafter :
              Worker.messageCount
                (world_after Worker.processTelemetry Worker.countMessage (msg :: rest) w)
              = Worker.messageCount w + length (msg :: rest)).
    { apply world_after_counted.
      - intros p w0. apply (kept_processTelemetry p w0).
      - intros w0. destruct w0. reflexivity. }
    destruct (completed _ _) as [| e l]; [exact Hafter |].
    rewrite <- Hafter. generalize (world_after Worker.processTelemetry
                                     Worker.countMessage (msg :: rest) w).
    intros w1. unfold Worker.deleteMessageBatch, Worker.io.
    destruct w1 as [r h q d n c win calls fails]. cbn.
    destruct (fails calls); reflexivity.
  - unfold Executor.startExecutor_turn, loopBody, try_catch.
    rewrite consumeBatch_run.
    assert (Hafter :
              Executor.eventCount
                (world_after Executor.processEvent Executor.countEvent (msg :: rest) w)
              = Executor.eventCount w + length (msg :: rest)).
    { apply world_after_counted.
      - intros p w0. apply (framed_processEvent p w0).
      - intros w0. destruct w0. reflexivity. }
    destruct (completed _ _) as [| e l]; [exact Hafter |].
    rewrite <- Hafter. generalize (world_after Executor.processEvent
                                     Executor.countEvent (msg :: rest) w).
    intros w1. unfold Executor.deleteMessageBatch.
    destruct w1. cbn. destruct (sqs_fails sqs_calls); reflexivity.
Qed.

(** X12: a turn deletes only what it received: it makes at most one delete
    call, never an empty one, and the entries of that call are entries of
    the batch, in the order of the batch; with no batch nothing is
    deleted. *)
Theorem turn_deletes_from_batch :
  (forall msgs w,
      exists calls,
        Worker.deleted (snd (Worker.startWorker_turn (Returned (Some msgs)) w))
        = Worker.deleted w ++ calls
        /\ length calls <= 1
        /\ Forall (fun entries => entries <> []
                                   /\ entries `sublist_of` map entry_of msgs) calls)
  /\ (forall msgs w,
         exists calls,
           Executor.deleted (snd (Executor.startExecutor_turn (Returned (Some msgs)) w))
           = Executor.deleted w ++ calls
           /\ length calls <= 1
           /\ Forall (fun entries => entries <> []
                                      /\ entries `sublist_of` map entry_of msgs) calls).
Proof.
  split; intros [| msg rest] w;
    try (exists []; cbn; rewrite app_nil_r; repeat split; [cbn; lia | constructor]).
  - unfold Worker.startWorker_turn, loopBody, try_catch.
    rewrite consumeBatch_run.
    assert (Hafter :
              Worker.deleted
                (world_after Worker.processTelemetry Worker.countMessage (msg :: rest) w)
              = Worker.deleted w).
    { apply world_after_preserved.
      - intros p w0. apply (kept_processTelemetry p w0).
      - intros w0. destruct w0. reflexivity. }
    pose proof (completed_sublist (msg :: rest)
                  (outcomes Worker.processTelemetry Worker.countMessage (msg :: rest) w))
      as Hsub.
    destruct (completed _ _) as [| e l].
    + exists []. rewrite app_nil_r. split; [exact Hafter |]. split; [cbn; lia | constructor].
    + rewrite <- Hafter. generalize (world_after Worker.processTelemetry
                                       Worker.countMessage (msg :: rest) w).
      intros w1. unfold Worker.deleteMessageBatch, Worker.io.
      destruct w1 as [r h q d n c win calls fails]. cbn.
      destruct (fails calls); cbn.
      * exists []. rewrite app_nil_r. repeat split; [cbn; lia | constructor].
      * exists [e :: l]. repeat split; [cbn; lia |].
        constructor; [split; [discriminate | exact Hsub] | constructor].
  - unfold Executor.startExecutor_turn, loopBody, try_catch.
    rewrite consumeBatch_run.
    assert (Hafter :
              Executor.deleted
                (world_after Executor.processEvent Executor.countEvent (msg :: rest) w)
              = Executor.deleted w).
    { apply world_after_preserved.
      - intros p w0. apply (framed_processEvent p w0).
      - intros w0. destruct w0. reflexivity. }
    pose proof (completed_sublist (msg :: rest)
                  (outcomes Executor.processEvent Executor.countEvent (msg :: rest) w))
      as Hsub.
    destruct (completed _ _) as [| e l].
    + exists []. rewrite app_nil_r. split; [exact Hafter |]. split; [cbn; lia | constructor].
    + rewrite <- Hafter. generalize (world_after Executor.processEvent
                                       Executor.countEvent (msg :: rest) w).
      intros w1. unfold Executor.deleteMessageBatch.
      destruct w1. cbn. destruct (sqs_fails sqs_calls); cbn.
      * exists []. rewrite app_nil_r. repeat split; [cbn; lia | constructor].
      * exists [e :: l]. repeat split; [cbn; lia |].
        constructor; [split; [discriminate | exact Hsub] | constructor].
Qed.

End Turns.


(** ** Threshold keys *)

Section Keys.

Lemma append_cancel_l (p a b : string) : p +:+ a = p +:+ b -> a = b.
Proof.
  induction p as [| c p IH]; cbn; intros H; [exact H |].
  injection H as H. exact (IH H).
Qed.

Lemma append_empty_r (a : string) : a +:+ "" = a.
Proof.
  induction a as [| c a IH]; [reflexivity |].
  change (String c (a +:+ "") = String c a). f_equal. exact IH.
Qed.

Lemma append_length (a b : string) :
  String.length (a +:+ b) = String.length a + String.length b.
Proof.
  induction a as [| c a IH]; [reflexivity |].
  change (S (String.length (a +:+ b)) = S (String.length a + String.length b)).
  f_equal. exact IH.
Qed.

(** Two ways of cutting one string: one of the heads extends the other. *)
Lemma append_eq_append (s1 s2 t1 t2 : string) :
  s1 +:+ t1 = s2 +:+ t2 ->
  (exists u, s1 = s2 +:+ u /\ t2 = u +:+ t1)
  \/ (exists u, s2 = s1 +:+ u /\ t1 = u +:+ t2).
Proof.
  revert s2. induction s1 as [| a s1 IH]; intros s2 H.
  - right. exists s2. split; [reflexivity | exact H].
  - destruct s2 as [| b s2].
    + left. exists (String a s1). split; [reflexivity | symmetry; exact H].
    + cbn in H. injection H as -> H.
      destruct (IH s2 H) as [(u & -> & Hu) | (u & -> & Hu)];
        [left | right]; exists u; split; auto.
Qed.

Lemma append_same_tail (u t : string) : t = u +:+ t -> u = "".
Proof.
  intros H. apply (f_equal String.length) in H. rewrite append_length in H.
  destruct u; [reflexivity | cbn in H; lia].
Qed.

Lemma append_cons_eq (c : ascii) (a b : string) :
  String c a +:+ b = String c (a +:+ b).
Proof. reflexivity. Qed.

Lemma append_nil_eq (b : string) : "" +:+ b = b.
Proof. reflexivity. Qed.

Ltac no_such_head H :=
  repeat (repeat first [rewrite append_cons_eq in H | rewrite append_nil_eq in H];
          match type of H with
          | String _ _ = String _ _ =>
              let Hc := fresh "Hc" in injection H as Hc H; try discriminate Hc
          | _ = ?u +:+ _ => is_var u; destruct u
          | _ => discriminate H
          end).

(** Distinct ships have distinct keys, and so have distinct components:
    the key of a threshold tells the ship and the component. *)
Lemma key_inj (s1 s2 c1 c2 : string) :
  In c1 components -> In c2 components ->
  key s1 c1 = key s2 c2 -> s1 = s2 /\ c1 = c2.
Proof.
  intros H1 H2 H. unfold key in H. apply append_cancel_l in H.
  destruct (append_eq_append _ _ _ _ H) as [(u & -> & Hu) | (u & -> & Hu)];
    cbn in H1, H2;
    destruct H1 as [<- | [<- | [<- | []]]], H2 as [<- | [<- | [<- | []]]];
    try (apply append_same_tail in Hu; subst u; split;
         [rewrite ?append_empty_r; reflexivity | reflexivity]);
    exfalso; no_such_head Hu.
Qed.

End Keys.


(** ** Thresholds: one ship's keys, and the seeding of the cache *)

Section Cache.

Import Worker.

Lemma cachedThresholds_with_cache (cache : gmap string string) (w : world) (shipId : string) :
  cachedThresholds (with_cache cache w) shipId
  = {| warning := parseFloat (or_default (cache !! key shipId "warning")
                                         (warning config.thresholds.default));
       critical := parseFloat (or_default (cache !! key shipId "critical")
                                          (critical config.thresholds.default));
       target := parseFloat (or_default (cache !! key shipId "target")
                                        (target config.thresholds.default)) |}.
Proof. reflexivity. Qed.

Lemma getThresholds_cache (shipId : string) (w1 w2 : world) :
  (forall c, In c components -> redis w1 !! key shipId c = redis w2 !! key shipId c) ->
  io_calls w1 = io_calls w2 ->
  (forall k, io_fails w1 k = io_fails w2 k) ->
  fst (getThresholds shipId w1) = fst (getThresholds shipId w2).
Proof.
  intros Hkeys Hcalls Hfails.
  pose proof (Hkeys "warning" ltac:(cbn; auto)) as Hw.
  pose proof (Hkeys "critical" ltac:(cbn; auto)) as Hc.
  pose proof (Hkeys "target" ltac:(cbn; auto)) as Ht.
  change (key shipId "warning") with ("threshold:" +:+ shipId +:+ ":warning") in Hw.
  change (key shipId "critical") with ("threshold:" +:+ shipId +:+ ":critical") in Hc.
  change (key shipId "target") with ("threshold:" +:+ shipId +:+ ":target") in Ht.
  destruct w1 as [r1 h1 q1 d1 n1 c1 win1 calls1 fails1],
           w2 as [r2 h2 q2 d2 n2 c2 win2 calls2 fails2].
  cbn in *. subst calls2.
  unfold getThresholds, redis_get, io, bind, ret, with_io_calls. cbn.
  rewrite (Hfails calls1). destruct (fails2 calls1); cbn; [reflexivity |].
  rewrite (Hfails (S calls1)). destruct (fails2 (S calls1)); cbn; [reflexivity |].
  rewrite (Hfails (S (S calls1))). destruct (fails2 (S (S calls1))); cbn; [reflexivity |].
  f_equal. f_equal; (f_equal; f_equal; first [exact Hw | exact Hc | exact Ht]).
Qed.

(** X13: the thresholds resolved for a ship depend on the three keys of that
    ship only: writing or overwriting a threshold key of another ship in the
    cache does not change what [getThresholds] returns. *)
Theorem getThresholds_other_ship (shipId other c v : string) (w : world) :
  other <> shipId ->
  In c components ->
  fst (getThresholds shipId (with_cache (<[ key other c := v ]> (redis w)) w))
  = fst (getThresholds shipId w).
Proof.
  intros Hne Hc. apply getThresholds_cache; try (destruct w; reflexivity).
  intros c' Hc'. destruct w as [r h q d n clk win calls fails]. cbn.
  apply lookup_insert_ne. intros Hk.
  apply key_inj in Hk as [Hs _]; [contradiction | assumption | assumption].
Qed.

Lemma getThresholds_other_ship_witness :
  fst (getThresholds "ship_1"
         (with_cache (<[ key "ship_10" "warning" := "40" ]> cache_critical_only)
                     (quiet_worker cache_critical_only (fun _ => []))))
  = Returned {| warning := Fin (-10); critical := Fin (-9 # 2); target := Fin (-18) |}.
Proof.
  etransitivity.
  - apply (getThresholds_other_ship "ship_1" "ship_10" "warning" "40"
             (quiet_worker cache_critical_only (fun _ => [])));
      [discriminate | left; reflexivity].
  - vm_compute. reflexivity.
Defined.

End Cache.

Section Cache_setup.

Import CacheSetup.

Variable numberToString : number -> string.

Lemma io_ok (op : world -> world) (w : world) :
  fails w (calls w) = false ->
  io op w = (Returned tt, op (mkWorld (store w) (connected w) (S (calls w)) (fails w))).
Proof. intros H. unfold io. rewrite H. reflexivity. Qed.

Lemma setThresholds_run (id : string) (t : Thresholds) (w : world) :
  (forall k, fails w k = false) ->
  setThresholds numberToString id t w
  = (Returned tt,
     mkWorld (seeded numberToString id t (store w)) (connected w) (3 + calls w) (fails w)).
Proof.
  intros Hok. destruct w as [m cn n f]. cbn in Hok.
  unfold setThresholds, client_set, io, bind, seeded, key. cbn.
  repeat (rewrite Hok; cbn). reflexivity.
Qed.

Lemma forEachShip_run (todo : list ShipSeed) (w : world) :
  (forall k, fails w k = false) ->
  forEachShip numberToString todo w
  = (Returned tt,
     mkWorld (seededAll numberToString todo (store w)) (connected w)
             (3 * length todo + calls w) (fails w)).
Proof.
  revert w. induction todo as [| ship rest IH]; intros w Hok.
  - destruct w. reflexivity.
  - cbn [forEachShip]. unfold bind. rewrite (setThresholds_run _ _ _ Hok).
    rewrite IH by exact Hok. cbn. repeat f_equal. lia.
Qed.

(** The script on a readable seed file when every call is answered. *)
Lemma initCache_run (seed : SeedFile) (w : world) :
  (forall k, fails w k = false) ->
  initCache numberToString (Some seed) w
  = (Completed,
     mkWorld (seeded numberToString "default" (defaults seed)
                     (seededAll numberToString (ships seed) (store w)))
             false (3 * length (ships seed) + 5 + calls w) (fails w)).
Proof.
  intros Hok. unfold initCache, bind at 1, client_connect.
  rewrite (io_ok _ _ (Hok _)). unfold readSeed, bind at 1, ret at 1.
  unfold bind at 1. rewrite forEachShip_run by exact Hok.
  unfold bind at 1. rewrite setThresholds_run by exact Hok.
  unfold client_quit. cbn [store connected calls fails].
  rewrite io_ok by apply Hok. cbn. repeat f_equal. lia.
Qed.

Lemma component_of_cases (c : string) (t : Thresholds) :
  In c components ->
  (c = "warning" /\ component_of c t = warning t)
  \/ (c = "critical" /\ component_of c t = critical t)
  \/ (c = "target" /\ component_of c t = target t).
Proof.
  intros [<- | [<- | [<- | []]]]; [left | right; left | right; right];
    split; reflexivity.
Qed.

Lemma key_ne_component (id c1 c2 : string) :
  In c1 components -> In c2 components -> c1 <> c2 -> key id c1 <> key id c2.
Proof. intros H1 H2 Hne Hk. apply key_inj in Hk as [_ Hc]; auto. Qed.

Lemma lookup_seeded (id : string) (t : Thresholds) (m : gmap string string) (c : string) :
  In c components ->
  seeded numberToString id t m !! key id c = Some (numberToString (component_of c t)).
Proof.
  intros Hc. unfold seeded.
  destruct (component_of_cases c t Hc) as [[-> ->] | [[-> ->] | [-> ->]]].
  - rewrite !lookup_insert_ne by (apply key_ne_component; cbn; auto; discriminate).
    apply lookup_insert_eq.
  - rewrite lookup_insert_ne by (apply key_ne_component; cbn; auto; discriminate).
    apply lookup_insert_eq.
  - apply lookup_insert_eq.
Qed.

Lemma lookup_seeded_other (id id' : string) (t : Thresholds) (m : gmap string string)
      (c : string) :
  id <> id' -> In c components ->
  seeded numberToString id t m !! key id' c = m !! key id' c.
Proof.
  intros Hne Hc. unfold seeded.
  rewrite !lookup_insert_ne; [reflexivity | | |];
    intros Hk; apply key_inj in Hk as [Hs _]; cbn; auto.
Qed.

Lemma seededAll_cons (s : ShipSeed) (rest : list ShipSeed) (m : gmap string string) :
  seededAll numberToString (s :: rest) m
  = seededAll numberToString rest
      (seeded numberToString (seed_ship_id s) (seed_thresholds s) m).
Proof. reflexivity. Qed.

Lemma lookup_seededAll_other (todo : list ShipSeed) (m : gmap string string)
      (id c : string) :
  (forall s, In s todo -> seed_ship_id s <> id) -> In c components ->
  seededAll numberToString todo m !! key id c = m !! key id c.
Proof.
  revert m. induction todo as [| s rest IH]; intros m Hall Hc; [reflexivity |].
  rewrite seededAll_cons.
  rewrite IH by (try intros s' Hs'; auto; apply Hall; right; exact Hs').
  apply lookup_seeded_other; [apply Hall; left; reflexivity | exact Hc].
Qed.

Lemma seededAll_app (pre post : list ShipSeed) (m : gmap string string) :
  seededAll numberToString (pre ++ post) m
  = seededAll numberToString post (seededAll numberToString pre m).
Proof. unfold seededAll. apply foldl_app. Qed.

(** What the cache holds for a seeded ship: the values of its last entry in
    the seed file. *)
Lemma lookup_seededAll (pre post : list ShipSeed) (ship : ShipSeed)
      (m : gmap string string) (c : string) :
  (forall s, In s post -> seed_ship_id s <> seed_ship_id ship) ->
  In c components ->
  seededAll numberToString (pre ++ ship :: post) m !! key (seed_ship_id ship) c
  = Some (numberToString (component_of c (seed_thresholds ship))).
Proof.
  intros Hpost Hc. rewrite seededAll_app.
  rewrite seededAll_cons.
  rewrite lookup_seededAll_other by assumption.
  apply lookup_seeded. exact Hc.
Qed.

End Cache_setup.


Section Cache_round_trip.

Import CacheSetup.

Variable numberToString : number -> string.

(** X14: thresholds written by [initCache] are read back by the Worker.
    When every call is answered, the script completes, and for a ship of the
    seed file other than [default], [getThresholds] returns the thresholds of
    the last entry of that ship in the file, provided each of the three
    numbers is printed as a non-empty string that [parseFloat] reads back. *)
Theorem initCache_then_getThresholds
        (seed : SeedFile) (pre post : list ShipSeed) (ship : ShipSeed)
        (w : world) (W : Worker.world) :
  (forall k, fails w k = false) ->
  ships seed = pre ++ ship :: post ->
  (forall s, In s post -> seed_ship_id s <> seed_ship_id ship) ->
  seed_ship_id ship <> "default" ->
  (forall c, In c components ->
             numberToString (component_of c (seed_thresholds ship)) <> ""
             /\ ParseFloat.parse (numberToString (component_of c (seed_thresholds ship)))
                = component_of c (seed_thresholds ship)) ->
  (forall k, Worker.io_fails W k = false) ->
  fst (initCache numberToString (Some seed) w) = Completed
  /\ fst (Worker.getThresholds (seed_ship_id ship)
            (with_cache (store (snd (initCache numberToString (Some seed) w))) W))
     = Returned (seed_thresholds ship).
Proof.
  intros Hok Hships Hlast Hdef Hprint HW.
  rewrite (initCache_run numberToString seed w Hok). split; [reflexivity |].
  cbn [snd store]. rewrite getThresholds_run by (destruct W; exact HW).
  cbn [fst]. f_equal. rewrite cachedThresholds_with_cache.
  assert (Hlook : forall c, In c components ->
            parseFloat (or_default
              (seeded numberToString "default" (defaults seed)
                      (seededAll numberToString (ships seed) (store w))
               !! key (seed_ship_id ship) c)
              (component_of c config.thresholds.default))
            = component_of c (seed_thresholds ship)).
  { intros c Hc.
    rewrite lookup_seeded_other by (auto; intros E; apply Hdef; symmetry; exact E).
    rewrite Hships, lookup_seededAll by assumption.
    destruct (Hprint c Hc) as [Hne Hparse]. unfold or_default.
    destruct (String.eqb_spec (numberToString (component_of c (seed_thresholds ship))) "")
      as [E | _]; [contradiction | exact Hparse]. }
  pose proof (Hlook "warning" ltac:(cbn; auto)) as Hw.
  pose proof (Hlook "critical" ltac:(cbn; auto)) as Hc.
  pose proof (Hlook "target" ltac:(cbn; auto)) as Ht.
  cbn [component_of String.eqb Ascii.eqb Bool.eqb] in Hw, Hc, Ht.
  destruct (seed_thresholds ship) as [tw tc tt]. cbn in *.
  rewrite Hw, Hc, Ht. reflexivity.
Qed.


Lemma writes_only_refl (K : string -> Prop) (w : world) : writes_only K w w.
Proof. intros k _. reflexivity. Qed.

Lemma writes_only_trans (K : string -> Prop) (w1 w2 w3 : world) :
  writes_only K w1 w2 -> writes_only K w2 w3 -> writes_only K w1 w3.
Proof. intros H1 H2 k Hk. rewrite (H2 k Hk). apply H1, Hk. Qed.

Lemma writes_io (K : string -> Prop) (op : world -> world) :
  (forall w, writes_only K w (op w)) -> moves_along (writes_only K) (io op).
Proof.
  intros Hop w. unfold io. destruct (fails w (calls w)); cbn.
  - intros k _. reflexivity.
  - intros k Hk. rewrite (Hop _ k Hk). reflexivity.
Qed.

Lemma writes_client_set (K : string -> Prop) (k v : string) :
  K k -> moves_along (writes_only K) (client_set k v).
Proof.
  intros Hk. apply writes_io. intros w k' Hk'. cbn.
  apply lookup_insert_ne. intros E. subst k'. contradiction.
Qed.

Lemma writes_setThresholds (K : string -> Prop) (id : string) (t : Thresholds) :
  (forall c, In c components -> K (key id c)) ->
  moves_along (writes_only K) (setThresholds numberToString id t).
Proof.
  intros HK. unfold setThresholds.
  repeat (apply (along_bind _ (writes_only_trans K)); [| intros _]);
    apply writes_client_set;
    [apply (HK "warning") | apply (HK "critical") | apply (HK "target")]; cbn; auto.
Qed.

Lemma writes_forEachShip (K : string -> Prop) (todo : list ShipSeed) :
  (forall s c, In s todo -> In c components -> K (key (seed_ship_id s) c)) ->
  moves_along (writes_only K) (forEachShip numberToString todo).
Proof.
  induction todo as [| s rest IH]; intros HK; cbn [forEachShip].
  - apply along_ret, writes_only_refl.
  - apply (along_bind _ (writes_only_trans K)).
    + apply writes_setThresholds. intros c Hc. apply HK; [left; reflexivity | exact Hc].
    + intros _. apply IH. intros s' c Hs' Hc. apply HK; [right; exact Hs' | exact Hc].
Qed.

(** X16: however it ends, [initCache] changes no key of the cache other
    than the threshold keys of the ships of the seed file and of [default]:
    every other key, the thresholds of ships absent from the file included,
    is left as it was, and no key is deleted. *)
Theorem initCache_writes_only (file : option SeedFile) (w : world) (k : string) :
  ~ seed_key file k ->
  store (snd (initCache numberToString file w)) !! k = store w !! k.
Proof.
  intros Hk. unfold initCache.
  assert (Hconnect : forall K, moves_along (writes_only K) client_connect).
  { intros K. apply writes_io. intros w0 k0 _. reflexivity. }
  assert (Hquit : forall K, moves_along (writes_only K) client_quit).
  { intros K. apply writes_io. intros w0 k0 _. reflexivity. }
  assert (Hbody : moves_along (writes_only (seed_key file))
            (client_connect ;;;
             thresholdsConfig <- readSeed file ;;
             forEachShip numberToString (ships thresholdsConfig) ;;;
             setThresholds numberToString "default" (defaults thresholdsConfig) ;;;
             client_quit)).
  { destruct file as [seed |].
    - change (moves_along (writes_only (seed_key (Some seed)))
                (client_connect ;;;
                 forEachShip numberToString (ships seed) ;;;
                 setThresholds numberToString "default" (defaults seed) ;;;
                 client_quit)).
      apply (along_bind _ (writes_only_trans _)); [apply Hconnect | intros _].
      apply (along_bind _ (writes_only_trans _)).
      + apply writes_forEachShip. intros s c Hs Hc.
        exists (seed_ship_id s), c. split; [| split; [exact Hc | reflexivity]].
        right. cbn. apply in_map. exact Hs.
      + intros _. apply (along_bind _ (writes_only_trans _)); [| intros _; apply Hquit].
        apply writes_setThresholds. intros c Hc.
        exists "default", c. split; [left; reflexivity | split; [exact Hc | reflexivity]].
    - change (moves_along (writes_only (seed_key None))
                (client_connect ;;; @throw world unit SyntaxError)).
      apply (along_bind _ (writes_only_trans _)); [apply Hconnect | intros _].
      apply along_throw, writes_only_refl. }
  specialize (Hbody w k Hk).
  match type of Hbody with
  | context [snd ?r] => destruct r as [[[] | e] w']
  end; exact Hbody.
Qed.

Lemma initCache_examples :
  let w' := snd (initCache wholeToString (Some seed_example) empty_redis) in
  fst (initCache wholeToString (Some seed_example) empty_redis) = Completed
  /\ store w' !! "threshold:ship_1:warning" = Some "-11"
  /\ store w' !! "threshold:ship_2:target" = Some "-15"
  /\ store w' !! "threshold:default:critical" = Some "-4"
  /\ size (store w') = 9
  /\ connected w' = false.
Proof. vm_compute. repeat split. Qed.

End Cache_round_trip.


Section Cache_witnesses.

Import CacheSetup.

Lemma initCache_then_getThresholds_witness :
  fst (Worker.getThresholds "ship_1"
         (with_cache (store (snd (initCache wholeToString (Some seed_example) empty_redis)))
                     (quiet_worker ∅ (fun _ => []))))
  = Returned (mkThresholds (Num.of_Z (-11)) (Num.of_Z (-6)) (Num.of_Z (-19))).
Proof.
  apply (initCache_then_getThresholds wholeToString seed_example
           [ mkShipSeed "ship_1" (mkThresholds (Num.of_Z (-12)) (Num.of_Z (-7)) (Num.of_Z (-20)));
             mkShipSeed "ship_2" (mkThresholds (Num.of_Z (-8)) (Num.of_Z (-3)) (Num.of_Z (-15))) ]
           []
           (mkShipSeed "ship_1" (mkThresholds (Num.of_Z (-11)) (Num.of_Z (-6)) (Num.of_Z (-19))))
           empty_redis (quiet_worker ∅ (fun _ => []))).
  - reflexivity.
  - reflexivity.
  - intros s [].
  - discriminate.
  - intros c [<- | [<- | [<- | []]]]; (split; [vm_compute; discriminate | vm_compute; reflexivity]).
  - reflexivity.
Defined.


Lemma initCache_writes_only_witness :
  store (snd (initCache wholeToString (Some seed_example)
                (mkWorld (<[ "threshold:ship_9:warning" := "-1" ]> ∅) false 0
                         (fun i => Nat.eqb i 4))))
  !! "threshold:ship_9:warning" = Some "-1".
Proof.
  rewrite initCache_writes_only; [vm_compute; reflexivity |].
  intros (id & c & Hid & Hc & Hk).
  apply (key_inj "ship_9" id "warning" c) in Hk as [<- _];
    [| cbn; auto | exact Hc].
  cbn in Hid. destruct Hid as [H | [H | [H | [H | []]]]]; discriminate H.
Defined.

End Cache_witnesses.


(** ** The Ingestor *)

Section Ingestor_facts.

Import Ingestor.

Variable numberToString : number -> string.

Local Abbreviation post := (postTelemetry numberToString).

Lemma append_not_empty (a b : string) : b <> "" -> a +:+ b <> "".
Proof. destruct a; [intros H; exact H | discriminate]. Qed.

Lemma stringify_truthy (v : jsval) :
  truthy v = true -> JSON_stringify_value v = Some (written v).
Proof.
  destruct v as [| | b | n | s]; cbn; try discriminate; try reflexivity.
  destruct n; cbn; try discriminate; reflexivity.
Qed.

Lemma stringify_message (ship sensor stamp : jsval) (t : number) :
  truthy ship = true -> truthy sensor = true -> truthy stamp = true ->
  JSON_stringify (properties (mkMessage ship sensor t stamp))
  = queuedBody ship sensor t stamp.
Proof.
  intros H1 H2 H3. unfold properties, JSON_stringify, queuedBody.
  cbn [m_ship_id m_sensor_id m_temp m_timestamp].
  rewrite (stringify_truthy _ H1), (stringify_truthy _ H2), (stringify_truthy _ H3).
  destruct t; reflexivity.
Qed.

(** The sensor id of the message is never missing. *)
Lemma sensor_truthy (ship sensor : jsval) :
  truthy (if truthy sensor then sensor
          else JStr (toString numberToString ship +:+ "_default_sensor")) = true.
Proof.
  destruct (truthy sensor) eqn:Hsen; [exact Hsen |].
  cbn. apply negb_true_iff, String.eqb_neq, append_not_empty. discriminate.
Qed.

(** X17: the queue receives a body exactly with the answer 200: then one
    body, that of the message of the answer with a temperature that is not
    finite written as null, has been appended; with 400 nothing is sent (no
    call to SQS is made), and with 500 the call was made and the queue is as
    before. *)
Theorem postTelemetry_queue (body : RequestBody) (w : world) :
  match post body w with
  | (Queued message messageId, w') =>
      telemetry_queue w'
      = telemetry_queue w
        ++ [queuedBody (m_ship_id message) (m_sensor_id message) (m_temp message)
                       (m_timestamp message)]
      /\ sqs_calls w' = S (sqs_calls w)
      /\ sqs_fails w (sqs_calls w) = false
      /\ messageId = message_ids w (sqs_calls w)
  | (BadRequest _, w') => w' = w
  | (ServerError, w') =>
      telemetry_queue w' = telemetry_queue w
      /\ sqs_calls w' = S (sqs_calls w)
      /\ sqs_fails w (sqs_calls w) = true
  end.
Proof.
  unfold postTelemetry, sqs_send.
  destruct (truthy (b_ship_id body)) eqn:Hs; [| reflexivity].
  destruct (truthy (b_timestamp body)) eqn:Ht; [| reflexivity].
  cbn [negb orb].
  destruct (is_undefined (b_temp body) || is_null (b_temp body)
            || negb (typeof_number (b_temp body))
               && isNaN (parseFloat_of numberToString (b_temp body)));
    [reflexivity |].
  rewrite (stringify_message _ _ _ _ Hs (sensor_truthy _ _) Ht).
  destruct (sqs_fails w (sqs_calls w)) eqn:E; cbn; repeat split.
Qed.

(** X18: a message is queued only for a request whose ship id and timestamp
    are truthy; it carries them as they came, the sensor id of the request
    when that is truthy and otherwise [`${ship_id}_default_sensor`], and the
    temperature read by [parseFloat], which is a number unless the request
    carried the number NaN itself, which no JSON body does.  The body on
    the queue has these four members; its temperature is the one read when
    that is finite, and null when it is an infinity or NaN. *)
Theorem postTelemetry_message (body : RequestBody) (w w' : world)
        (message : Message) (messageId : string) :
  post body w = (Queued message messageId, w') ->
  m_ship_id message = b_ship_id body
  /\ m_timestamp message = b_timestamp body
  /\ truthy (m_ship_id message) = true
  /\ truthy (m_timestamp message) = true
  /\ truthy (m_sensor_id message) = true
  /\ (truthy (b_sensor_id body) = true -> m_sensor_id message = b_sensor_id body)
  /\ (truthy (b_sensor_id body) = false ->
      m_sensor_id message
      = JStr (toString numberToString (b_ship_id body) +:+ "_default_sensor"))
  /\ m_temp message = parseFloat_of numberToString (b_temp body)
  /\ (b_temp body <> JNum NaN -> m_temp message <> NaN)
  /\ telemetry_queue w'
     = telemetry_queue w
       ++ [[ ("ship_id", written (b_ship_id body));
             ("sensor_id", written (m_sensor_id message));
             ("temp", match parseFloat_of numberToString (b_temp body) with
                      | Fin q => JsonNum q
                      | _ => JsonNull
                      end);
             ("timestamp", written (b_timestamp body)) ]].
Proof.
  unfold postTelemetry, sqs_send.
  destruct (truthy (b_ship_id body)) eqn:Hs; [| discriminate].
  destruct (truthy (b_timestamp body)) eqn:Ht; [| discriminate].
  cbn [negb orb].
  destruct (is_undefined (b_temp body) || is_null (b_temp body)
            || negb (typeof_number (b_temp body))
               && isNaN (parseFloat_of numberToString (b_temp body))) eqn:Hv;
    [discriminate |].
  rewrite (stringify_message _ _ _ _ Hs (sensor_truthy _ _) Ht).
  destruct (sqs_fails w (sqs_calls w)); [discriminate |].
  intros [= <- _ <-]. cbn.
  repeat (split; [first [reflexivity | assumption] |]).
  split; [apply sensor_truthy |].
  split; [intros ->; reflexivity |].
  split; [intros ->; reflexivity |].
  split; [reflexivity |].
  split; [| reflexivity].
  intros Hnan.
  apply orb_false_iff in Hv as [_ Hv]. apply andb_false_iff in Hv.
  destruct (b_temp body) as [| | b | n | s]; cbn in *;
    try (destruct Hv as [Hv | Hv]; [discriminate Hv |];
         intros E; rewrite E in Hv; discriminate Hv).
  intros E. apply Hnan. f_equal. exact E.
Qed.

(** X19: a temperature is accepted for what it is, not for being truthy:
    with a ship id and a timestamp, every finite number, 0 included, and
    every string that [parseFloat] reads as a finite number are answered
    200 when SQS takes the message, and the body on the queue carries that
    number as its temperature. *)
Theorem postTelemetry_accepts (body : RequestBody) (w : world) (q : Q) :
  truthy (b_ship_id body) = true ->
  truthy (b_timestamp body) = true ->
  b_temp body = JNum (Fin q)
  \/ (exists s, b_temp body = JStr s /\ ParseFloat.parse s = Fin q) ->
  sqs_fails w (sqs_calls w) = false ->
  exists message w' sensor,
    post body w = (Queued message (message_ids w (sqs_calls w)), w')
    /\ m_temp message = Fin q
    /\ telemetry_queue w'
       = telemetry_queue w
         ++ [[ ("ship_id", written (b_ship_id body));
               ("sensor_id", sensor);
               ("temp", JsonNum q);
               ("timestamp", written (b_timestamp body)) ]].
Proof.
  intros Hs Ht Htemp Hsqs. unfold postTelemetry, sqs_send.
  rewrite Hs, Ht, Hsqs. cbn [negb orb].
  rewrite (stringify_message _ _ _ _ Hs (sensor_truthy _ _) Ht).
  destruct Htemp as [-> | (s & -> & Hparse)]; cbn; rewrite ?Hparse; cbn;
    eexists; eexists; eexists; (split; [reflexivity |]); cbn; rewrite ?Hparse;
    split; reflexivity.
Qed.

End Ingestor_facts.


Section Ingestor_witnesses.

Import Ingestor.

Lemma postTelemetry_message_witness :
  exists message w',
    postTelemetry wholeToString request_string_temp quiet_ingestor
    = (Queued message "id-1", w')
    /\ m_sensor_id message = JStr "ship_1_default_sensor"
    /\ m_temp message = Fin (-9 # 2)
    /\ m_temp message <> NaN
    /\ telemetry_queue w'
       = [[ ("ship_id", JsonStr "ship_1");
            ("sensor_id", JsonStr "ship_1_default_sensor");
            ("temp", JsonNum (-9 # 2));
            ("timestamp", JsonStr "2026-01-01T00:00:00.000Z") ]].
Proof.
  assert (Hrun : postTelemetry wholeToString request_string_temp quiet_ingestor
                 = (Queued (mkMessage (JStr "ship_1") (JStr "ship_1_default_sensor")
                                      (Fin (-9 # 2)) (JStr "2026-01-01T00:00:00.000Z"))
                           "id-1",
                    snd (postTelemetry wholeToString request_string_temp quiet_ingestor)))
    by (vm_compute; reflexivity).
  destruct (postTelemetry_message wholeToString _ _ _ _ _ Hrun)
    as (_ & _ & _ & _ & _ & _ & Hdefault & _ & Hnum & Hqueue).
  eexists; eexists. split; [exact Hrun |].
  split; [apply Hdefault; reflexivity |].
  split; [reflexivity |]. split; [apply Hnum; discriminate |].
  rewrite Hqueue. vm_compute. reflexivity.
Defined.

Lemma postTelemetry_accepts_witness :
  exists message w' sensor,
    postTelemetry wholeToString request_zero quiet_ingestor = (Queued message "id-1", w')
    /\ m_temp message = Fin 0
    /\ telemetry_queue w'
       = [[ ("ship_id", JsonStr "ship_1");
            ("sensor_id", sensor);
            ("temp", JsonNum 0);
            ("timestamp", JsonStr "2026-01-01T00:00:00.000Z") ]].
Proof.
  apply (postTelemetry_accepts wholeToString request_zero quiet_ingestor 0 eq_refl eq_refl).
  - left. reflexivity.
  - reflexivity.
Defined.

Example postTelemetry_rejections :
  map (fun body => status (fst (postTelemetry wholeToString body quiet_ingestor)))
      [ mkRequestBody (JStr "") (JNum (Fin 1)) (JStr "t") JUndefined;
        mkRequestBody (JStr "ship_1") JUndefined (JStr "t") JUndefined;
        mkRequestBody (JStr "ship_1") JNull (JStr "t") JUndefined;
        mkRequestBody (JStr "ship_1") (JStr "warm") (JStr "t") JUndefined;
        mkRequestBody (JStr "ship_1") (JBool true) (JStr "t") JUndefined;
        mkRequestBody (JStr "ship_1") (JStr " 7") JUndefined JUndefined;
        mkRequestBody (JStr "ship_1") (JStr " 7") (JStr "t") JUndefined ]
  = [400; 400; 400; 400; 400; 400; 200].
Proof. vm_compute. reflexivity. Qed.

(** A temperature beyond the doubles passes the validation: the answer is
    200 and lists Infinity, and the body on the queue carries null. *)
Example postTelemetry_infinite :
  let body := mkRequestBody (JStr "ship_1") (JStr "1e400") (JStr "t") (JStr "s1") in
  exists message w',
    postTelemetry wholeToString body quiet_ingestor = (Queued message "id-1", w')
    /\ m_temp message = PosInf
    /\ telemetry_queue w'
       = [[ ("ship_id", JsonStr "ship_1"); ("sensor_id", JsonStr "s1");
            ("temp", JsonNull); ("timestamp", JsonStr "t") ]].
Proof. eexists; eexists. split; [vm_compute; reflexivity |]. split; reflexivity. Qed.

End Ingestor_witnesses.


(** ** Classification and trend: further facts *)

Section Rules_more.

Import config.alertTypes Worker.

(** X20: classification is monotone in the temperature: under the same
    thresholds, whatever they are, a warmer reading is never classified
    less severely than a colder one. *)
Theorem determineAlertType_monotone (v1 v2 w c : Q) (tg : number) :
  (v1 <= v2)%Q ->
  let t := {| warning := Fin w; critical := Fin c; target := tg |} in
  severity (determineAlertType (Fin v1) t) <= severity (determineAlertType (Fin v2) t).
Proof.
  intros Hle t. unfold determineAlertType. cbn [critical warning t].
  destruct (Num.gt (Fin v1) (Fin c)) eqn:E1c;
    [apply gt_Fin in E1c | apply gt_Fin_false in E1c];
    (destruct (Num.gt (Fin v2) (Fin c)) eqn:E2c;
     [apply gt_Fin in E2c | apply gt_Fin_false in E2c]);
    (destruct (Num.gt (Fin v1) (Fin w)) eqn:E1w;
     [apply gt_Fin in E1w | apply gt_Fin_false in E1w]);
    (destruct (Num.gt (Fin v2) (Fin w)) eqn:E2w;
     [apply gt_Fin in E2w | apply gt_Fin_false in E2w]);
    cbn; try lia; exfalso; lra.
Qed.

Lemma determineAlertType_monotone_witness :
  severity (determineAlertType (Fin (-7)) config.thresholds.default)
  <= severity (determineAlertType (Fin (-1)) config.thresholds.default).
Proof.
  apply (determineAlertType_monotone (-7) (-1) (-10) (-5) (Num.of_Z (-18))).
  vm_compute. discriminate.
Defined.

Lemma gt_not_nan (a b : number) : Num.gt a b = true -> a <> NaN /\ b <> NaN.
Proof. destruct a, b; cbn; intros H; try discriminate H; split; discriminate. Qed.

Lemma sub_not_nan (a b : number) : Num.sub a b <> NaN -> a <> NaN /\ b <> NaN.
Proof. destruct a, b; cbn; intros H; split; try discriminate; contradiction. Qed.

(** X21: a trend is reported only from a window of at least
    [trendMinReadings] rows whose newest and oldest temperatures are both
    numbers: a row that [parseFloat] cannot read at either end of the window
    suppresses the trend event; what is reported is the newest temperature
    and an increase above [trendMinIncrease]. *)
Theorem detectTrend_reported (rows : list string) (t increase : number) :
  detectTrend rows = Some (t, increase) ->
  config.worker.trendMinReadings <= length rows
  /\ t = newest (temperatures rows)
  /\ increase = Num.sub (newest (temperatures rows)) (oldest (temperatures rows))
  /\ Num.gt increase config.worker.trendMinIncrease = true
  /\ newest (temperatures rows) <> NaN
  /\ oldest (temperatures rows) <> NaN.
Proof.
  intros Hsome.
  destruct (detectTrend_spec rows) as [Hyes Hno].
  destruct (trendCondition_dec (temperatures rows)) as [Hc | Hc].
  - rewrite (Hyes Hc) in Hsome. injection Hsome as <- <-.
    destruct Hc as (Hlen & _ & Hgt).
    unfold temperatures in Hlen. rewrite length_map in Hlen.
    split; [exact Hlen |]. split; [reflexivity |]. split; [reflexivity |].
    split; [exact Hgt |].
    apply sub_not_nan. apply (gt_not_nan _ _ Hgt).
  - rewrite (Hno Hc) in Hsome. discriminate Hsome.
Qed.

Lemma detectTrend_reported_witness :
  (exists increase,
      detectTrend ["-3.00"; "n/a"; "-6.00"; "-7.00"; "-9.00"]
      = Some (Fin (-3), increase)
      /\ Num.gt increase config.worker.trendMinIncrease = true)
  /\ detectTrend ["n/a"; "-4.00"; "-6.00"; "-7.00"; "-9.00"] = None
  /\ detectTrend ["-3.00"; "-4.00"; "-6.00"; "-7.00"; "n/a"] = None.
Proof.
  split; [| split; vm_compute; reflexivity].
  eexists. split; [vm_compute; reflexivity |].
  refine (proj1 (proj2 (proj2 (proj2
    (detectTrend_reported ["-3.00"; "n/a"; "-6.00"; "-7.00"; "-9.00"]
       (Fin (-3)) _ _))))).
  vm_compute; reflexivity.
Defined.

End Rules_more.


(** ** The queue setup script *)

Section Queue_setup.

Import QueueSetup.

Lemma ensureQueue_ok (queueName : string) (w : world) :
  (forall k, fails w k = false) ->
  ensureQueue queueName w
  = match queues w !! queueName with
    | Some url => (Returned url, next w)
    | None =>
        (Returned (url_of w queueName),
         mkWorld (<[ queueName := url_of w queueName ]> (queues w))
                 (2 + calls w) (fails w) (url_of w))
    end.
Proof.
  intros Hok. unfold ensureQueue, getQueueUrl, createQueue.
  rewrite Hok. destruct (queues w !! queueName) as [url |] eqn:E; [reflexivity |].
  cbn. rewrite Hok, E. reflexivity.
Qed.

Local Ltac ensure_ok Hok :=
  match goal with
  | |- context [ensureQueue ?q ?w0] =>
      rewrite (ensureQueue_ok q w0) by (intros; apply Hok);
      cbn [queues next calls fails url_of]
  end.

Local Ltac lookups Et Ee :=
  repeat (rewrite lookup_insert_eq || rewrite lookup_insert_ne by assumption);
  rewrite ?Et, ?Ee.

(** X22: the queue setup can be run again: when SQS answers, a first run
    prints the URLs of the two queues, creating those that are missing, and
    a second run prints the same two URLs and creates nothing. *)
Theorem createQueues_twice (w : world) :
  (forall k, fails w k = false) ->
  exists telemetryUrl eventsUrl w1 w2,
    createQueues w = (Printed telemetryUrl eventsUrl, w1)
    /\ queues w1 !! telemetryQueueName = Some telemetryUrl
    /\ queues w1 !! eventsQueueName = Some eventsUrl
    /\ createQueues w1 = (Printed telemetryUrl eventsUrl, w2)
    /\ queues w2 = queues w1.
Proof.
  intros Hok.
  assert (Hne : telemetryQueueName <> eventsQueueName) by discriminate.
  assert (Hne' : eventsQueueName <> telemetryQueueName) by discriminate.
  unfold createQueues, bind, ret.
  ensure_ok Hok.
  destruct (queues w !! telemetryQueueName) as [t |] eqn:Et;
    ensure_ok Hok; rewrite ?lookup_insert_ne by assumption;
    (destruct (queues w !! eventsQueueName) as [e |] eqn:Ee);
    do 4 eexists;
    (split; [reflexivity |]); cbn [queues next calls fails url_of];
    lookups Et Ee;
    (split; [reflexivity |]); (split; [reflexivity |]);
    ensure_ok Hok;
    lookups Et Ee;
    ensure_ok Hok;
    lookups Et Ee;
    split; reflexivity.
Qed.

Lemma createQueues_twice_witness :
  exists w1 w2,
    createQueues empty_sqs
    = (Printed "http://sqs.local/queue/ShipTelemetryQueue"
               "http://sqs.local/queue/AlertEventsQueue", w1)
    /\ createQueues w1
       = (Printed "http://sqs.local/queue/ShipTelemetryQueue"
                  "http://sqs.local/queue/AlertEventsQueue", w2)
    /\ queues w2 = queues w1.
Proof.
  destruct (createQueues_twice empty_sqs (fun _ => eq_refl))
    as (t & e & w1 & w2 & H1 & _ & _ & H2 & Hq).
  assert (Hrun : createQueues empty_sqs
                 = (Printed "http://sqs.local/queue/ShipTelemetryQueue"
                            "http://sqs.local/queue/AlertEventsQueue",
                    snd (createQueues empty_sqs))) by (vm_compute; reflexivity).
  rewrite Hrun in H1. injection H1 as <- <- <-.
  exists (snd (createQueues empty_sqs)), w2. split; [exact Hrun |]. split; assumption.
Defined.

(** X23: the script never replaces or removes a queue: however
    [createQueues] ends, every queue that existed keeps its URL, and the only
    names it may add are the two queue names of [config.sqs]. *)
Theorem createQueues_keeps_queues (w : world) (name : string) :
  let w' := snd (createQueues w) in
  (forall url, queues w !! name = Some url -> queues w' !! name = Some url)
  /\ (name <> telemetryQueueName -> name <> eventsQueueName ->
      queues w' !! name = queues w !! name).
Proof.
  assert (Hstep : forall q w0,
             (forall url, queues w0 !! name = Some url ->
                          queues (snd (ensureQueue q w0)) !! name = Some url)
             /\ (name <> q -> queues (snd (ensureQueue q w0)) !! name = queues w0 !! name)
             /\ fails (snd (ensureQueue q w0)) = fails w0
             /\ url_of (snd (ensureQueue q w0)) = url_of w0).
  { intros q w0. unfold ensureQueue, getQueueUrl, createQueue.
    destruct (fails w0 (calls w0)); cbn.
    - destruct (fails w0 (S (calls w0))); cbn; [auto |].
      destruct (queues w0 !! q) as [u |] eqn:E; cbn; [auto |].
      repeat split; try reflexivity.
      + intros url Hurl. rewrite lookup_insert_ne; [exact Hurl |].
        intros ->. congruence.
      + intros Hne. apply lookup_insert_ne. auto.
    - destruct (queues w0 !! q) as [u |] eqn:E; cbn; [auto |].
      destruct (fails w0 (S (calls w0))); cbn; [auto |].
      rewrite E. cbn. repeat split; try reflexivity.
      + intros url Hurl. rewrite lookup_insert_ne; [exact Hurl |].
        intros ->. congruence.
      + intros Hne. apply lookup_insert_ne. auto. }
  cbv zeta. unfold createQueues, bind, ret.
  destruct (Hstep telemetryQueueName w) as (A1 & A2 & _ & _).
  destruct (ensureQueue telemetryQueueName w) as [[t | e] w1]; cbn in *.
  - destruct (Hstep eventsQueueName w1) as (B1 & B2 & _ & _).
    destruct (ensureQueue eventsQueueName w1) as [[e' | e'] w2]; cbn in *;
      (split; [intros url H; apply B1, A1, H |]);
      intros H1 H2; rewrite B2, A2; auto.
  - split; [exact A1 | intros H1 _; apply A2, H1].
Qed.

End Queue_setup.


(** ** The simulator *)

Section Simulator_facts.

Import Simulator.

Local Open Scope Q_scope.

Lemma add_between (x y lo hi lo' hi' : Q) :
  lo <= x + y <= hi ->
  Binary64.round lo = Fin lo' -> Binary64.round hi = Fin hi' ->
  exists v, Num.add (Fin x) (Fin y) = Fin v /\ lo' <= v <= hi'.
Proof. apply round_between. Qed.

Lemma sub_between (x y lo hi lo' hi' : Q) :
  lo <= x - y <= hi ->
  Binary64.round lo = Fin lo' -> Binary64.round hi = Fin hi' ->
  exists v, Num.sub (Fin x) (Fin y) = Fin v /\ lo' <= v <= hi'.
Proof. apply round_between. Qed.

Lemma mul_between (x y lo hi lo' hi' : Q) :
  lo <= x * y <= hi ->
  Binary64.round lo = Fin lo' -> Binary64.round hi = Fin hi' ->
  exists v, Num.mul (Fin x) (Fin y) = Fin v /\ lo' <= v <= hi'.
Proof. apply round_between. Qed.

Local Ltac doubles := vm_compute; reflexivity.

(** An anomaly [a + r * b], for whole [a] and [b], lies between [a] and
    [a + b]. *)
Lemma anomaly_between (r : Q) (a b : Z) :
  random_draw r ->
  (0 <= b)%Z ->
  Binary64.round 0 = Fin 0 ->
  Binary64.round (inject_Z b) = Fin (inject_Z b) ->
  Binary64.round (inject_Z a) = Fin (inject_Z a) ->
  Binary64.round (inject_Z (a + b)) = Fin (inject_Z (a + b)) ->
  exists v, Num.add (Num.of_Z a) (Num.mul (Fin r) (Num.of_Z b)) = Fin v
            /\ inject_Z a <= v <= inject_Z (a + b).
Proof.
  intros [Hr0 Hr1] Hb H0 Hb' Ha Hab.
  assert (HbQ : 0 <= inject_Z b) by (rewrite Zle_Qle in Hb; exact Hb).
  destruct (mul_between r (inject_Z b) 0 (inject_Z b) 0 (inject_Z b))
    as (v1 & E1 & B1); [| exact H0 | exact Hb' |].
  { split; [apply Qmult_le_0_compat; assumption |].
    rewrite <- (Qmult_1_l (inject_Z b)) at 2.
    apply Qmult_le_compat_r; [lra | exact HbQ]. }
  unfold Num.of_Z. rewrite E1.
  apply (add_between _ _ (inject_Z a) (inject_Z (a + b))); [| exact Ha | exact Hab].
  rewrite inject_Z_plus. lra.
Qed.

(** X24: for each ship of the file, the temperature simulated lies where
    its roll puts it: 5 to 10 degrees above the top of the ship's band (base
    plus variance) when the roll is below 0.05, 1 to 5 degrees above it when
    the roll is below 0.15, and inside the band otherwise.  The reading of a
    sensor lies between the doubles the ship's temperature gives when half
    a degree is taken from it and when half a degree is added to it. *)
Theorem simulated_temperature_ranges (ship : Ship) (base var roll r s : Q) :
  In ship ships ->
  baseTemp ship = Fin base -> variance ship = Fin var ->
  random_draw roll -> random_draw r -> random_draw s ->
  (exists t,
      generateShipTemperature ship (Fin roll) (Fin r) = Fin t
      /\ (Num.lt (Fin roll) (Num.literal 0.05) = true ->
          base + var + 5 <= t <= base + var + 10)
      /\ (Num.lt (Fin roll) (Num.literal 0.05) = false ->
          Num.lt (Fin roll) (Num.literal 0.15) = true ->
          base + var + 1 <= t <= base + var + 5)
      /\ (Num.lt (Fin roll) (Num.literal 0.05) = false ->
          Num.lt (Fin roll) (Num.literal 0.15) = false ->
          base - var <= t <= base + var))
  /\ (forall shipTemp : Q,
         let reading := generateSensorReading (Fin shipTemp) (Fin s) in
         Num.le (Num.sub (Fin shipTemp) (Num.literal 0.5)) reading = true
         /\ Num.le reading (Num.add (Fin shipTemp) (Num.literal 0.5)) = true).
Proof.
  intros Hin Hbase Hvar Hroll Hr Hs. split.
  - unfold generateShipTemperature. rewrite Hbase, Hvar.
    destruct (anomaly_between r 5 5 Hr) as (a5 & E5 & B5);
      [lia | doubles | doubles | doubles | doubles |].
    destruct (anomaly_between r 1 4 Hr) as (a1 & E1 & B1);
      [lia | doubles | doubles | doubles | doubles |].
    change (inject_Z 5) with 5 in B5. change (inject_Z (5 + 5)) with 10 in B5.
    change (inject_Z 1) with 1 in B1. change (inject_Z (1 + 4)) with 5 in B1.
    destruct Hr as [Hr0 Hr1].
    destruct (mul_between r 2 0 2 0 2) as (d & Ed & Bd);
      [lra | doubles | doubles |].
    destruct (sub_between d 1 (-1) 1 (-1) 1) as (f & Ef & Bf);
      [lra | doubles | doubles |].
    rewrite E5, E1.
    change (Num.of_Z 2) with (Fin 2). change (Num.of_Z 1) with (Fin 1).
    rewrite Ed, Ef.
    cbn [In ships] in Hin.
    destruct Hin as [<- | [<- | [<- | []]]];
      cbn [baseTemp variance] in Hbase, Hvar;
      injection Hbase as <-; injection Hvar as <-;
      change (inject_Z ?z) with (z # 1);
      (destruct (Num.lt (Fin roll) (Num.literal 0.05));
       [| destruct (Num.lt (Fin roll) (Num.literal 0.15))]).
    all: match goal with
         | |- context [Num.add (Num.add (Fin ?b) (Fin ?v)) _] =>
             let E := fresh "Etop" in
             assert (E : Num.add (Fin b) (Fin v) = Fin (b + v)) by doubles;
             rewrite E; clear E
         | _ => idtac
         end.
    + destruct (add_between (-18 + 8) a5 (-5) 0 (-5) 0) as (t & Et & Bt);
        [lra | doubles | doubles |].
      exists t. split; [exact Et |].
      split; [intros _; lra |]. split; intros; discriminate.
    + destruct (add_between (-18 + 8) a1 (-9) (-5) (-9) (-5)) as (t & Et & Bt);
        [lra | doubles | doubles |].
      exists t. split; [exact Et |].
      split; [intros; discriminate |]. split; [intros _ _; lra | intros; discriminate].
    + destruct (mul_between f 8 (-8) 8 (-8) 8) as (g & Eg & Bg);
        [lra | doubles | doubles |].
      rewrite Eg.
      destruct (add_between (-18) g (-26) (-10) (-26) (-10)) as (t & Et & Bt);
        [lra | doubles | doubles |].
      exists t. split; [exact Et |].
      split; [intros; discriminate |]. split; [intros; discriminate | intros _ _; lra].
    + destruct (add_between (-15 + 7) a5 (-3) 2 (-3) 2) as (t & Et & Bt);
        [lra | doubles | doubles |].
      exists t. split; [exact Et |].
      split; [intros _; lra |]. split; intros; discriminate.
    + destruct (add_between (-15 + 7) a1 (-7) (-3) (-7) (-3)) as (t & Et & Bt);
        [lra | doubles | doubles |].
      exists t. split; [exact Et |].
      split; [intros; discriminate |]. split; [intros _ _; lra | intros; discriminate].
    + destruct (mul_between f 7 (-7) 7 (-7) 7) as (g & Eg & Bg);
        [lra | doubles | doubles |].
      rewrite Eg.
      destruct (add_between (-15) g (-22) (-8) (-22) (-8)) as (t & Et & Bt);
        [lra | doubles | doubles |].
      exists t. split; [exact Et |].
      split; [intros; discriminate |]. split; [intros; discriminate | intros _ _; lra].
    + destruct (add_between (-20 + 6) a5 (-9) (-4) (-9) (-4)) as (t & Et & Bt);
        [lra | doubles | doubles |].
      exists t. split; [exact Et |].
      split; [intros _; lra |]. split; intros; discriminate.
    + destruct (add_between (-20 + 6) a1 (-13) (-9) (-13) (-9)) as (t & Et & Bt);
        [lra | doubles | doubles |].
      exists t. split; [exact Et |].
      split; [intros; discriminate |]. split; [intros _ _; lra | intros; discriminate].
    + destruct (mul_between f 6 (-6) 6 (-6) 6) as (g & Eg & Bg);
        [lra | doubles | doubles |].
      rewrite Eg.
      destruct (add_between (-20) g (-26) (-14) (-26) (-14)) as (t & Et & Bt);
        [lra | doubles | doubles |].
      exists t. split; [exact Et |].
      split; [intros; discriminate |]. split; [intros; discriminate | intros _ _; lra].
  - intros shipTemp reading. subst reading. unfold generateSensorReading.
    assert (Hhalf : Num.literal 0.5 = Fin (1 # 2)) by doubles.
    rewrite Hhalf. destruct Hs as [Hs0 Hs1].
    destruct (sub_between s (1 # 2) (- (1 # 2)) (1 # 2) (- (1 # 2)) (1 # 2))
      as (v & Ev & Bv); [lra | doubles | doubles |].
    rewrite Ev. split; apply round_mono; lra.
Qed.

Lemma simulated_temperature_ranges_witness :
  let ship := mkShip "ship_1" "Salmon Carrier" (Num.of_Z (-18)) (Num.of_Z 8) 2 in
  exists t,
    generateShipTemperature ship (Fin 0.01) (Fin 0.5) = Fin t
    /\ -5 <= t <= 0.
Proof.
  intros ship.
  destruct (simulated_temperature_ranges ship (-18) 8 0.01 0.5 0.5)
    as ((t & Et & Hcrit & _) & _);
    try (split; vm_compute; [discriminate | reflexivity]);
    try reflexivity.
  { left. reflexivity. }
  exists t. split; [exact Et |].
  assert (H : -18 + 8 + 5 <= t <= -18 + 8 + 10) by (apply Hcrit; vm_compute; reflexivity).
  lra.
Defined.

(** Half a degree is not kept exactly: from a ship temperature that is a
    double, the lowest reading is the double nearest to half a degree less,
    which can be further away than half a degree. *)
Example sensor_reading_rounds :
  let shipTemp := Binary64.round (-15.704542715682534) in
  exists t reading,
    shipTemp = Fin t
    /\ generateSensorReading shipTemp (Fin 0) = Fin reading
    /\ generateSensorReading shipTemp (Fin 0) = Num.sub shipTemp (Num.literal 0.5)
    /\ reading < t - 0.5.
Proof.
  cbv zeta. eexists; eexists. split; [vm_compute; reflexivity |].
  split; [vm_compute; reflexivity |]. split; [vm_compute; reflexivity |].
  vm_compute. reflexivity.
Qed.

End Simulator_facts.
